(** * Glow: the execution engine and the standalone bundle consumer

    A shallow embedding of
      - lib/ExecutionEngine/ExecutionEngine.cpp
      - examples/compile_lenet_mnist/lenet_mnist_standalone.cpp
    and the properties of the compilation pipeline, of [run]/[runBatch]
    and of the three-region memory contract.

    Conventions.
      - C++ methods are computations in a state-and-outcome monad: a
        computation maps a state to an [Outcome] and the state reached,
        so the state at the point of an abort is still visible.
      - [assert(c && "msg")] aborts with [AssertionFailed "msg"] when [c]
        is false (the build with assertions enabled).
      - Dereferencing a null or dangling pointer, dividing by zero and
        accessing a buffer out of bounds are [Undefined].
      - [size_t] is a 64-bit unsigned integer, carried as [Z] with the
        reduction modulo [2^64] written at each operation that can wrap.
      - Arrays are lists of fewer than [2^31] entries, so the [int]
        counters of the loops over them do not wrap.
      - Calls into the rest of Glow (graph optimizer, lowering, IR
        generation, backends, tensors) append an [Event] to a trace, in
        program order. The types that the headers of Glow declare are
        modelled from the specification; the functions of the rest of
        Glow are parameters. *)

From stdpp Require Import gmap strings list fin_maps.
From Stdlib Require Import ZArith Lia.
From Stdlib.Strings Require Import Byte.

(** ** Outcomes and the computation monad *)

Inductive Outcome (A : Type) : Type :=
| Ok (a : A)
| AssertionFailed (msg : string)
| Undefined
| Exited (code : Z).
Arguments Ok {A} a.
Arguments AssertionFailed {A} msg.
Arguments Undefined {A}.
Arguments Exited {A} code.

Definition Comp (St A : Type) : Type := St → Outcome A * St.

Definition comp_ret {St A} (a : A) : Comp St A := λ s, (Ok a, s).

Definition comp_bind {St A B} (f : A → Comp St B) (m : Comp St A) : Comp St B :=
  λ s, match m s with
       | (Ok a, s') => f a s'
       | (AssertionFailed msg, s') => (AssertionFailed msg, s')
       | (Undefined, s') => (Undefined, s')
       | (Exited c, s') => (Exited c, s')
       end.

#[export] Instance Comp_ret {St} : MRet (Comp St) := @comp_ret St.
#[export] Instance Comp_bind {St} : MBind (Comp St) := @comp_bind St.

Definition get {St} : Comp St St := λ s, (Ok s, s).
Definition put {St} (s : St) : Comp St unit := λ _, (Ok tt, s).
Definition modify {St} (f : St → St) : Comp St unit := λ s, (Ok tt, f s).
Definition abort {St A} (msg : string) : Comp St A := λ s, (AssertionFailed msg, s).
Definition undefined {St A} : Comp St A := λ s, (Undefined, s).
Definition exit {St A} (code : Z) : Comp St A := λ s, (Exited code, s).

(** [assert(c && "msg")]. *)
Definition assert {St} (c : bool) (msg : string) : Comp St unit :=
  if c then mret tt else abort msg.

(** [for (i = start; i < start + n; i++) body(i)]. *)
Fixpoint forRange {St} (start n : nat) (body : nat → Comp St unit) : Comp St unit :=
  match n with
  | O => mret tt
  | S n' => body start ;; forRange (S start) n' body
  end.

(** [llvm::ArrayRef::operator[]] asserts that the index is in range. *)
Definition index {St A} (l : list A) (i : nat) : Comp St A :=
  match l !! i with
  | Some x => mret x
  | None => abort "Invalid index!"
  end.

(** [llvm::ArrayRef::drop_front()] asserts that there is an element to drop. *)
Definition drop_front {St A} (l : list A) : Comp St (list A) :=
  match l with
  | _ :: l' => mret l'
  | [] => abort "Dropping more elements than exist"
  end.

(** [size_t] arithmetic. *)
Definition size_t_modulus : Z := 2 ^ 64.
Definition wrap (z : Z) : Z := z `mod` size_t_modulus.
Definition is_size_t (z : Z) : Prop := (0 ≤ z < size_t_modulus)%Z.

Definition is_ok {A} (o : Outcome A) : bool :=
  match o with Ok _ => true | _ => false end.

(** A computation that, whatever its outcome, only appends to the trace
    [tr] of the state events that satisfy [P], and moves the state along
    the relation [keep]. *)
Definition appendsOn {St Ev A} (tr : St → list Ev) (keep : St → St → Prop)
    (P : Ev → Prop) (c : Comp St A) : Prop :=
  ∀ s, keep s (c s).2 ∧ ∃ evs, tr (c s).2 = tr s ++ evs ∧ Forall P evs.

(** A computation that moves the state along the relation [R], whatever
    its outcome. *)
Definition framed {St A} (R : St → St → Prop) (c : Comp St A) : Prop :=
  ∀ s, R s (c s).2.

(** A computation that never exits and whose failed assertions carry a
    message in [M]. *)
Definition stopsWithin {St A} (M : string → Prop) (c : Comp St A) : Prop :=
  ∀ s, match (c s).1 with
       | AssertionFailed msg => M msg
       | Exited _ => False
       | _ => True
       end.

(** * The execution engine (lib/ExecutionEngine/ExecutionEngine.cpp) *)

Module ExecutionEngine.

(** ** Data model *)

(** Element kinds, as the loader tool names them ([ElemKind::FloatTy],
    [ElemKind::IndexTy]). *)
Inductive ElemKind := FloatTy | IndexTy.

Inductive VisibilityKind := Public | Private.

Inductive CompilationMode := Train | Infer.

#[export] Instance ElemKind_eq_dec : EqDecision ElemKind.
Proof. solve_decision. Defined.
#[export] Instance VisibilityKind_eq_dec : EqDecision VisibilityKind.
Proof. solve_decision. Defined.
#[export] Instance CompilationMode_eq_dec : EqDecision CompilationMode.
Proof. solve_decision. Defined.

(** Modelled from the spec: the type of a tensor, which glow/Base/Type.h
    declares: an element kind and the ordered dimensions, each a
    [size_t]. *)
Record TypeRef := mkType { elemKind : ElemKind; dims : list Z }.

(** Modelled from the spec: a Tensor, which glow/Base/Tensor.h declares,
    is a typed, shaped buffer; the backing storage is the list of its
    bytes. *)
Record Tensor := mkTensor { type_ : TypeRef; data : list byte }.

Definition tdims (t : Tensor) : list Z := dims (type_ t).

(** Modelled from the spec: a Variable, which glow/Graph/Nodes.h declares,
    is a named storage slot with a type, a visibility and a backing
    Tensor. *)
Record Var := mkVar {
  visibility : VisibilityKind;
  varType : TypeRef;
  payload : Tensor
}.

(** Modelled from the spec: [Tensor::copyFrom], defined in
    glow/Base/Tensor.h, is the whole-tensor copy: the destination becomes a
    copy of the source. *)
Definition copyFrom (dst src : Tensor) : Tensor := src.

(** Variables and Functions are heap objects owned by the Module; a
    [Variable *] is either null or the key of a Variable of the Module and
    a [Function *] is the key of a graph. *)
Definition VarId := nat.
Definition FunId := nat.
Definition VarPtr := option VarId.

(** The parts of Glow outside the engine: the types it handles opaquely. *)
Class GlowTypes := {
  Graph : Type;        (* the nodes of a Function *)
  Instr : Type;        (* an IR instruction *)
  Decl : Type;         (* a WeightVar or ActivationVar declaration *)
  BackendKind : Type;
  Backend : Type       (* the state of a Backend instance *)
}.

Section Engine.
Context `{GT : GlowTypes}.

Record GlowModule := mkModule {
  variables : gmap VarId Var;
  functions : gmap FunId Graph
}.

(** The IR container: the graph it is bound to, the instructions and the
    declarations. *)
Record IRFunction := mkIR {
  G_ : option FunId;
  instrs : list Instr;
  weights : list Decl
}.

(** Modelled from the spec: [IRFunction::clear], defined in lib/IR/IR.cpp,
    clears the instructions and the declarations of the container. *)
Definition clear (ir : IRFunction) : IRFunction :=
  {| G_ := G_ ir; instrs := []; weights := [] |}.

(** Modelled from the spec: [IRFunction::setGraph], defined in
    glow/IR/IR.h, binds the container to a graph. *)
Definition setGraph (F : FunId) (ir : IRFunction) : IRFunction :=
  {| G_ := Some F; instrs := instrs ir; weights := weights ir |}.

(** The members of [ExecutionEngine]. [IR_] is a [unique_ptr], tested for
    null by [reset]. *)
Record Engine := mkEngine {
  backendKind_ : BackendKind;
  M_ : GlowModule;
  IR_ : option IRFunction;
  backend_ : Backend
}.

(** The operations of the rest of Glow that the engine calls. Graph passes
    work in place on a Function of the Module; the backend hooks report
    whether they changed the graph. *)
Class GlowOps := {
  createBackend : BackendKind → IRFunction → Backend;
  (* Function::verify returns nothing and asserts that the graph is well
     formed: [None] when it returns, the message of the failed assertion
     otherwise *)
  verify : FunId → GlowModule → option string;
  optimizeGraph : FunId → CompilationMode → GlowModule → GlowModule;
  transformPreLowering :
    Backend → FunId → CompilationMode → GlowModule → bool * GlowModule * Backend;
  lower : FunId → CompilationMode → Backend → GlowModule → GlowModule;
  transformPostLowering :
    Backend → FunId → CompilationMode → GlowModule → bool * GlowModule * Backend;
  irGenerate : GlowModule → IRFunction → IRFunction;
  optimizeIR : CompilationMode → Backend → IRFunction → IRFunction;
  backendInit : Backend → IRFunction → GlowModule → Backend;
  backendSave : Backend → IRFunction → GlowModule → string → Backend;
  backendForwardPass : Backend → IRFunction → GlowModule → Backend * GlowModule;
  (* Tensor::copyConsecutiveSlices(input, startSliceIdx), [None] when one
     of its own assertions fails *)
  copyConsecutiveSlices : Tensor → Tensor → Z → option Tensor
}.
Context `{GO : GlowOps}.

(** What the engine does to the rest of Glow, in program order. *)
Inductive Event :=
| EvClearIR
| EvCreateBackend (kind : BackendKind)
| EvVerify (F : FunId)
| EvOptimizeGraph (F : FunId) (mode : CompilationMode)
| EvTransformPreLowering (F : FunId) (mode : CompilationMode) (changed : bool)
| EvLower (F : FunId) (mode : CompilationMode)
| EvTransformPostLowering (F : FunId) (mode : CompilationMode) (changed : bool)
| EvSetGraph (F : FunId)
| EvGenerateIR
| EvOptimizeIR (mode : CompilationMode)
| EvBackendInit
| EvBackendSave (outputDir : string)
| EvCopyFrom (v : VarId) (input : Tensor)
| EvCopyConsecutiveSlices (v : VarId) (input : Tensor) (slc : Z)
| EvDoForwardPass.

(** The state of the process outside any engine: the function-local
    [static size_t trainCounter] of [runBatch], and the trace. *)
Record Process := mkProcess {
  trainCounter : Z;
  trace : list Event
}.

(** [static size_t trainCounter = 0;] *)
Definition initialProcess : Process := {| trainCounter := 0; trace := [] |}.

(** A method runs on its engine ([this]) and on the process state. *)
Record State := mkState { this : Engine; proc : Process }.

Definition Method (A : Type) : Type := Comp State A.

Definition emit (ev : Event) : Method unit :=
  modify (λ s, {| this := this s;
                  proc := {| trainCounter := trainCounter (proc s);
                             trace := trace (proc s) ++ [ev] |} |}).

Definition getEngine : Method Engine := s ← get; mret (this s).

Definition putEngine (e : Engine) : Method unit :=
  modify (λ s, {| this := e; proc := proc s |}).

Definition getTrainCounter : Method Z := s ← get; mret (trainCounter (proc s)).

Definition setTrainCounter (c : Z) : Method unit :=
  modify (λ s, {| this := this s;
                  proc := {| trainCounter := c; trace := trace (proc s) |} |}).

Definition setIR (ir : IRFunction) : Method unit :=
  e ← getEngine;
  putEngine {| backendKind_ := backendKind_ e; M_ := M_ e;
               IR_ := Some ir; backend_ := backend_ e |}.

Definition setBackend_ (b : Backend) : Method unit :=
  e ← getEngine;
  putEngine {| backendKind_ := backendKind_ e; M_ := M_ e;
               IR_ := IR_ e; backend_ := b |}.

Definition setModule (m : GlowModule) : Method unit :=
  e ← getEngine;
  putEngine {| backendKind_ := backendKind_ e; M_ := m;
               IR_ := IR_ e; backend_ := backend_ e |}.

(** [*IR_] and [IR_->]: undefined on a null pointer. *)
Definition derefIR : Method IRFunction :=
  e ← getEngine;
  match IR_ e with
  | Some ir => mret ir
  | None => undefined
  end.

(** [v->]: undefined on a null pointer and on one that is not a Variable
    of the Module. *)
Definition derefVar (v : VarPtr) : Method (VarId * Var) :=
  e ← getEngine;
  match v with
  | Some id =>
      match variables (M_ e) !! id with
      | Some var => mret (id, var)
      | None => undefined
      end
  | None => undefined
  end.

(** The Module after the payload of Variable [id] became [t]. *)
Definition withPayload (id : VarId) (t : Tensor) (m : GlowModule) : GlowModule :=
  {| variables :=
       alter (λ var, {| visibility := visibility var;
                        varType := varType var;
                        payload := t |}) id (variables m);
     functions := functions m |}.

Definition setPayload (id : VarId) (t : Tensor) : Method unit :=
  e ← getEngine;
  setModule (withPayload id t (M_ e)).

(** ** The methods *)

(** [ExecutionEngine::ExecutionEngine(BackendKind)], with the Module and
    the IR container freshly made. *)
Definition construct (backendKind : BackendKind) : Engine :=
  let ir := {| G_ := None; instrs := []; weights := [] |} in
  {| backendKind_ := backendKind;
     M_ := {| variables := ∅; functions := ∅ |};
     IR_ := Some ir;
     backend_ := createBackend backendKind ir |}.

(** [ExecutionEngine::setBackend] *)
Definition setBackend (backendKind : BackendKind) : Method unit :=
  e ← getEngine;
  putEngine {| backendKind_ := backendKind; M_ := M_ e;
               IR_ := IR_ e; backend_ := backend_ e |};;
  ir ← derefIR;
  emit (EvCreateBackend backendKind);;
  setBackend_ (createBackend backendKind ir).

(** [ExecutionEngine::reset] *)
Definition reset : Method unit :=
  e ← getEngine;
  match IR_ e with
  | Some ir => emit EvClearIR;; setIR (clear ir)
  | None => mret tt
  end;;
  ir ← derefIR;
  emit (EvCreateBackend (backendKind_ e));;
  setBackend_ (createBackend (backendKind_ e) ir).

(** [backend_->doForwardPass()] *)
Definition doForwardPass : Method unit :=
  e ← getEngine;
  ir ← derefIR;
  emit EvDoForwardPass;;
  let '(b, m) := backendForwardPass (backend_ e) ir (M_ e) in
  putEngine {| backendKind_ := backendKind_ e; M_ := m;
               IR_ := IR_ e; backend_ := b |}.

(** [ExecutionEngine::loadValueFromTensor] *)
Definition loadValueFromTensor (v : VarPtr) (input : Tensor) : Method unit :=
  assert (bool_decide (is_Some v)) "Invalid value";;
  '(id, var) ← derefVar v;
  let t := payload var in
  let dim := tdims input in
  assert (bool_decide (tdims t = dim)) "Invalid slice size";;
  emit (EvCopyFrom id input);;
  setPayload id (copyFrom t input).

(** [ExecutionEngine::loadValueFromTensorSlice] *)
Definition loadValueFromTensorSlice (v : VarPtr) (input : Tensor)
    (sampleIdx : Z) : Method unit :=
  assert (bool_decide (is_Some v)) "Invalid value";;
  '(id, var) ← derefVar v;
  let t := payload var in
  let dim := tdims input in
  tl_t ← drop_front (tdims t);
  tl_dim ← drop_front dim;
  assert (bool_decide (tl_t = tl_dim)) "Invalid slice size";;
  dim0 ← index dim 0;
  (if bool_decide (dim0 = 0%Z) then undefined else mret tt);;
  let slc := (sampleIdx `mod` dim0)%Z in
  emit (EvCopyConsecutiveSlices id input slc);;
  match copyConsecutiveSlices t input slc with
  | Some t' => setPayload id t'
  | None => abort "copyConsecutiveSlices"
  end.

(** The body of the loop of [run], for index [i]. *)
Definition run_step (vars : list VarPtr) (inputs : list Tensor) (i : nat)
    : Method unit :=
  v ← index vars i;
  '(_, var) ← derefVar v;
  assert (bool_decide (visibility var = Public))
    "Trying to update a private variable";;
  input ← index inputs i;
  loadValueFromTensor v input.

(** [ExecutionEngine::run] *)
Definition run (vars : list VarPtr) (inputs : list Tensor) : Method unit :=
  assert (bool_decide (length inputs = length vars))
    "The number of inputs does not match the number of variables";;
  ir ← derefIR;
  assert (negb (bool_decide (instrs ir = [])))
    "Running a function with no instructions.";;
  (* Update the input variables. *)
  forRange 0 (length vars) (run_step vars inputs);;
  doForwardPass.

(** The body of the loop of [updateInputsAndRunNetwork], for index [i]. *)
Definition updateInputs_step (vars : list VarPtr) (inputs : list Tensor)
    (sampleIdx : Z) (i : nat) : Method unit :=
  v ← index vars i;
  input ← index inputs i;
  loadValueFromTensorSlice v input sampleIdx.

(** [ExecutionEngine::updateInputsAndRunNetwork] *)
Definition updateInputsAndRunNetwork (vars : list VarPtr)
    (inputs : list Tensor) (sampleIdx : Z) : Method unit :=
  (* Update the input variables. *)
  forRange 0 (length vars) (updateInputs_step vars inputs sampleIdx);;
  (* Run the network. *)
  doForwardPass.

(** The body of the loop of [runBatch]: one slice, one pass, then the
    cursor advances. *)
Definition runBatch_step (vars : list VarPtr) (inputs : list Tensor)
    (batchSize : Z) (i : nat) : Method unit :=
  trainCounter ← getTrainCounter;
  updateInputsAndRunNetwork vars inputs trainCounter;;
  setTrainCounter (wrap (trainCounter + batchSize)).

(** [ExecutionEngine::runBatch] *)
Definition runBatch (iterations : nat) (vars : list VarPtr)
    (inputs : list Tensor) : Method unit :=
  assert (negb (bool_decide (inputs = []))) "No inputs";;
  assert (bool_decide (length inputs = length vars))
    "The number of inputs does not match the number of variables";;
  ir ← derefIR;
  assert (negb (bool_decide (instrs ir = [])))
    "Running a function with no instructions.";;
  (* This is the size of one batch (the number of samples in the batch). *)
  v0 ← index vars 0;
  '(_, var0) ← derefVar v0;
  batchSize ← index (dims (varType var0)) 0;
  forRange 0 iterations (runBatch_step vars inputs batchSize).

(** The calls of [generateIR] into the graph and IR passes. *)

(** [F->verify()] *)
Definition callVerify (F : FunId) : Method unit :=
  e ← getEngine;
  emit (EvVerify F);;
  match verify F (M_ e) with
  | None => mret tt
  | Some msg => abort msg
  end.

(** [::glow::optimize(F, mode)] *)
Definition callOptimizeGraph (F : FunId) (mode : CompilationMode) : Method unit :=
  e ← getEngine;
  emit (EvOptimizeGraph F mode);;
  setModule (optimizeGraph F mode (M_ e)).

(** [backend_->transformPreLowering(F, mode)] *)
Definition callTransformPreLowering (F : FunId) (mode : CompilationMode)
    : Method bool :=
  e ← getEngine;
  let '(changed, m, b) := transformPreLowering (backend_ e) F mode (M_ e) in
  emit (EvTransformPreLowering F mode changed);;
  putEngine {| backendKind_ := backendKind_ e; M_ := m;
               IR_ := IR_ e; backend_ := b |};;
  mret changed.

(** [::glow::lower(F, mode, *backend_)] *)
Definition callLower (F : FunId) (mode : CompilationMode) : Method unit :=
  e ← getEngine;
  emit (EvLower F mode);;
  setModule (lower F mode (backend_ e) (M_ e)).

(** [backend_->transformPostLowering(F, mode)] *)
Definition callTransformPostLowering (F : FunId) (mode : CompilationMode)
    : Method bool :=
  e ← getEngine;
  let '(changed, m, b) := transformPostLowering (backend_ e) F mode (M_ e) in
  emit (EvTransformPostLowering F mode changed);;
  putEngine {| backendKind_ := backendKind_ e; M_ := m;
               IR_ := IR_ e; backend_ := b |};;
  mret changed.

(** [IR_->setGraph(F)] *)
Definition callSetGraph (F : FunId) : Method unit :=
  ir ← derefIR;
  emit (EvSetGraph F);;
  setIR (setGraph F ir).

(** [IR_->generateIR()] *)
Definition callGenerateIR : Method unit :=
  e ← getEngine;
  ir ← derefIR;
  emit EvGenerateIR;;
  setIR (irGenerate (M_ e) ir).

(** [::glow::optimize( *IR_, mode, *backend_)] *)
Definition callOptimizeIR (mode : CompilationMode) : Method unit :=
  e ← getEngine;
  ir ← derefIR;
  emit (EvOptimizeIR mode);;
  setIR (optimizeIR mode (backend_ e) ir).

(** [ExecutionEngine::generateIR] *)
Definition generateIR (mode : CompilationMode) (F : FunId) : Method unit :=
  (* Reset the engine and start a new compilation process. *)
  reset;;
  (* Verify the function pre-optimization/lowering. *)
  callVerify F;;
  (* Optimize the graph. *)
  callOptimizeGraph F mode;;
  (* Allow the backend to transform the graph prior to lowering. *)
  callTransformPreLowering F mode ≫= λ changed : bool,
  (if changed then callOptimizeGraph F mode else mret tt);;
  (* Lower the graph. *)
  callLower F mode;;
  (* Optimize the graph again. *)
  callOptimizeGraph F mode;;
  (* Allow the backend to transform the graph after lowering. *)
  callTransformPostLowering F mode ≫= λ changed : bool,
  (if changed then callOptimizeGraph F mode else mret tt);;
  (* Prepare the IR container to handle our function. *)
  callSetGraph F;;
  (* Generate IR from the graph. *)
  callGenerateIR;;
  (* Optimize the generated IR. *)
  callOptimizeIR mode.

(** [ExecutionEngine::compile] *)
Definition compile (mode : CompilationMode) (F : FunId) : Method unit :=
  generateIR mode F;;
  e ← getEngine;
  ir ← derefIR;
  emit EvBackendInit;;
  setBackend_ (backendInit (backend_ e) ir (M_ e)).

(** [ExecutionEngine::save] *)
Definition save (mode : CompilationMode) (F : FunId) (outputDir : string)
    : Method unit :=
  generateIR mode F;;
  e ← getEngine;
  ir ← derefIR;
  emit (EvBackendSave outputDir);;
  setBackend_ (backendSave (backend_ e) ir (M_ e) outputDir).

(** ** The vocabulary of the specification *)

(** The stages of the compilation pipeline in the order the specification
    lists them, for a backend of kind [kind] whose pre-lowering and
    post-lowering hooks report [pre] and [post]. *)
Definition pipelineEvents (kind : BackendKind) (mode : CompilationMode)
    (F : FunId) (pre post : bool) : list Event :=
  [EvClearIR; EvCreateBackend kind]                       (* reset *)
  ++ [EvVerify F]                                         (* 1 *)
  ++ [EvOptimizeGraph F mode]                             (* 2 *)
  ++ [EvTransformPreLowering F mode pre]                  (* 3 *)
  ++ (if pre then [EvOptimizeGraph F mode] else [])
  ++ [EvLower F mode]                                     (* 4 *)
  ++ [EvOptimizeGraph F mode]                             (* 5 *)
  ++ [EvTransformPostLowering F mode post]                (* 6 *)
  ++ (if post then [EvOptimizeGraph F mode] else [])
  ++ [EvSetGraph F]                                       (* 7 *)
  ++ [EvGenerateIR]                                       (* 8 *)
  ++ [EvOptimizeIR mode].                                 (* 9 *)

(** The stages up to the point where verification fails. *)
Definition rejectedEvents (kind : BackendKind) (F : FunId) : list Event :=
  [EvClearIR; EvCreateBackend kind; EvVerify F].

(** A Variable that [run] accepts for the input [t]: a Public Variable of
    the Module whose payload has the shape of [t]. *)
Definition bindable (m : GlowModule) (v : VarPtr) (t : Tensor) : Prop :=
  ∃ id var, v = Some id ∧ variables m !! id = Some var
            ∧ visibility var = Public ∧ tdims (payload var) = tdims t.

(** The Module after each Variable was bound, in order, to its input. *)
Fixpoint bindInputs (vars : list VarPtr) (inputs : list Tensor)
    (m : GlowModule) : GlowModule :=
  match vars, inputs with
  | Some id :: vars', t :: inputs' => bindInputs vars' inputs' (withPayload id t m)
  | _, _ => m
  end.

(** The payload of a Variable, through a pointer. *)
Definition payloadOf (m : GlowModule) (v : VarPtr) : option Tensor :=
  id ← v; var ← variables m !! id; Some (payload var).

(** The full copies that bind [inputs] to [vars], in order. *)
Fixpoint copyEvents (vars : list VarPtr) (inputs : list Tensor) : list Event :=
  match vars, inputs with
  | Some id :: vars', t :: inputs' => EvCopyFrom id t :: copyEvents vars' inputs'
  | _, _ => []
  end.

(** The slice selected from an input for the cursor value [c]. *)
Definition sliceIndex (c : Z) (input : Tensor) : Z :=
  (c `mod` default 0 (tdims input !! 0%nat))%Z.

(** The slice copies of one iteration of [runBatch] at cursor value [c]. *)
Fixpoint sliceEvents (vars : list VarPtr) (inputs : list Tensor) (c : Z)
    : list Event :=
  match vars, inputs with
  | Some id :: vars', t :: inputs' =>
      EvCopyConsecutiveSlices id t (sliceIndex c t) :: sliceEvents vars' inputs' c
  | _, _ => []
  end.


(** The cursor after [j] iterations that each advance it by [batchSize]. *)
Fixpoint cursorAt (c batchSize : Z) (j : nat) : Z :=
  match j with
  | O => c
  | S j' => wrap (cursorAt c batchSize j' + batchSize)
  end.

(** The events of [k] iterations of [runBatch] from cursor value [c]. *)
Fixpoint batchEvents (vars : list VarPtr) (inputs : list Tensor)
    (c batchSize : Z) (k : nat) : list Event :=
  match k with
  | O => []
  | S k' =>
      sliceEvents vars inputs c ++ [EvDoForwardPass]
      ++ batchEvents vars inputs (wrap (c + batchSize)) batchSize k'
  end.


(** The forward passes among the events of a trace. *)
Definition isForwardPass (ev : Event) : bool :=
  match ev with EvDoForwardPass => true | _ => false end.

Definition forwardPasses (evs : list Event) : nat :=
  length (List.filter isForwardPass evs).

(** The batch size [runBatch] reads: the leading dimension of the type of
    the first target Variable. *)
Definition batchSizeOf (m : GlowModule) (vars : list VarPtr) : option Z :=
  v ← vars !! 0%nat; id ← v; var ← variables m !! id; dims (varType var) !! 0%nat.



(** A slice copy whose slice index is within the leading dimension of its
    input and is the cursor value [c] reduced modulo that dimension. *)
Definition sliceWithin (c : Z) (ev : Event) : Prop :=
  match ev with
  | EvCopyConsecutiveSlices _ input slc =>
      ∃ d ds, tdims input = d :: ds ∧ slc = (c `mod` d)%Z ∧ (0 ≤ slc < d)%Z
  | _ => True
  end.

(** The dimensions of a tensor are [size_t] values. *)
Definition wfTensor (t : Tensor) : Prop := Forall is_size_t (tdims t).

(** A method that leaves the cursor of [runBatch] alone and appends only
    events that satisfy [P]. *)
Definition keepsCursor (s s' : State) : Prop :=
  trainCounter (proc s') = trainCounter (proc s).

Definition appends {A} (P : Event → Prop) (c : Method A) : Prop :=
  appendsOn (λ s, trace (proc s)) keepsCursor P c.

Definition anyEvent : Event → Prop := λ _, True.

(** The state after a step that left the IR container and the kind of the
    backend as they were. *)
Definition keepsCompiled (s s' : State) : Prop :=
  IR_ (this s') = IR_ (this s) ∧ backendKind_ (this s') = backendKind_ (this s).

(** A method call [e.m(...)] in process state [p]. *)
Definition call {A} (m : Method A) (e : Engine) (p : Process)
    : Outcome A * Engine * Process :=
  let r : Outcome A * State := m (mkState e p) in (r.1, this r.2, proc r.2).

End Engine.
End ExecutionEngine.

(** * The standalone bundle consumer
      (examples/compile_lenet_mnist/lenet_mnist_standalone.cpp) *)

Module Standalone.

(** [struct BundleConfig] *)
Record BundleConfig := mkConfig {
  constantWeightVarsMemSize : Z;
  mutableWeightVarsMemSize : Z;
  activationsMemSize : Z
}.

Definition DEFAULT_HEIGHT : Z := 28.
Definition DEFAULT_WIDTH : Z := 28.
Definition sizeof_float : Z := 4.

(** What the program prints and calls, in program order. *)
Inductive Event :=
| ErrCouldNotOpen (weightsFileName : string)
| OutAllocatedWeights (fileSize : Z)
| ErrCouldNotRead
| OutLoadedWeights (fileSize : Z) (weightsFileName : string)
| OutLoadedImages (resultSizeInBytes : Z)
| OutAllocatedMutable (size : Z)
| OutCopyingImageData (imageDataSizeInBytes : Z)
| OutResult (maxIdx : nat)
| EvCalloc (size : Z)
| EvMemcpy (dstOffset : Z) (n : Z)
| EvEntryPoint (constantWeightVars mutableWeightVars activations : list byte)
| EvFree (size : nat).

(** The global [inputImageFilenames] and the trace. *)
Record Machine := mkMachine {
  inputImageFilenames : list string;
  output : list Event
}.

Definition initialMachine : Machine :=
  {| inputImageFilenames := []; output := [] |}.

Definition Prog (A : Type) : Type := Comp Machine A.

Definition emit (ev : Event) : Prog unit :=
  modify (λ s, {| inputImageFilenames := inputImageFilenames s;
                  output := output s ++ [ev] |}).

(** [calloc(1, size)]: a fresh block of [size] zero bytes. *)
Definition calloc (size : Z) : Prog (list byte) :=
  emit (EvCalloc size);;
  mret (replicate (Z.to_nat size) x00).

(** The block [dst] with the first [n] bytes of [src] written at offset
    [off]. *)
Definition overwrite (dst : list byte) (off : Z) (src : list byte) (n : Z)
    : list byte :=
  take (Z.to_nat off) dst ++ take (Z.to_nat n) src
  ++ drop (Z.to_nat (off + n)) dst.

(** [memcpy(dst + off, src, n)]: undefined when the [n] bytes do not lie
    within both blocks. *)
Definition memcpy (dst : list byte) (off : Z) (src : list byte) (n : Z)
    : Prog (list byte) :=
  emit (EvMemcpy off n);;
  if bool_decide (0 ≤ off ∧ 0 ≤ n ∧ off + n ≤ Z.of_nat (length dst)
                  ∧ n ≤ Z.of_nat (length src))%Z
  then mret (overwrite dst off src n)
  else undefined.

(** The calls of the compiled entry point in a trace. *)
Definition isEntryPoint (ev : Event) : Prop :=
  match ev with EvEntryPoint _ _ _ => True | _ => False end.

#[export] Instance isEntryPoint_dec ev : Decision (isEntryPoint ev).
Proof. destruct ev; cbn; apply _. Defined.

Definition entryPointCalls (evs : list Event) : list Event :=
  filter isEntryPoint evs.

Definition keepsAll (s s' : Machine) : Prop := True.

(** The machine after it appended [evs] to its trace. *)
Definition logged (s : Machine) (evs : list Event) : Machine :=
  {| inputImageFilenames := inputImageFilenames s; output := output s ++ evs |}.

(** What a run of the consumer does up to the call of the entry point:
    the constant weights are allocated and read, the mutable region is
    allocated and the images are copied into it twice, the activations are
    allocated. *)
Definition setupEvents (config : BundleConfig) (readMsg : Event)
    (loadedBytes imageBytes : Z) : list Event :=
  [ EvCalloc (constantWeightVarsMemSize config);
    OutAllocatedWeights (constantWeightVarsMemSize config);
    readMsg;
    EvCalloc (mutableWeightVarsMemSize config);
    OutAllocatedMutable (mutableWeightVarsMemSize config);
    OutLoadedImages loadedBytes;
    OutCopyingImageData imageBytes;
    EvMemcpy 0 imageBytes;
    EvMemcpy imageBytes imageBytes;
    EvCalloc (activationsMemSize config) ].

(** A step of the program that appends only events satisfying [P]. *)
Definition appends {A} (P : Event → Prop) (c : Prog A) : Prop :=
  appendsOn output keepsAll P c.

Definition notEntryPoint (ev : Event) : Prop := ¬ isEntryPoint ev.

(** [size_t] multiplication and addition. *)
Definition mul64 (a b : Z) : Z := wrap (a * b).
Definition add64 (a b : Z) : Z := wrap (a + b).

(** [getXYZW]: the index of the element at x,y,z,w. Reading [dims[i]]
    beyond the array is undefined, here [None]. *)
Definition getXYZW (dims : list Z) (x y z w : Z) : option Z :=
  d1 ← dims !! 1%nat; d2 ← dims !! 2%nat; d3 ← dims !! 3%nat;
  Some (add64 (add64 (add64 (mul64 (mul64 (mul64 x d1) d2) d3)
                            (mul64 (mul64 y d2) d3))
                     (mul64 z d3))
              w).

(** [getXYZ]: the index of the element at x,y,z. *)
Definition getXYZ (dims : list Z) (x y z : Z) : option Z :=
  d1 ← dims !! 1%nat; d2 ← dims !! 2%nat;
  Some (add64 (add64 (mul64 (mul64 x d1) d2) (mul64 y d2)) z).

(** The outcome of reading the input images: the pixels, or the way in
    which the first image that is not read to the end stops the program:
    it cannot be read, it is not 28 x 28, its header fails an assertion of
    [readPngImage], or [readPngImage] stores outside its block. *)
Inductive ImageResult :=
| Decoded (pixels : list byte)
| Unreadable
| WrongSize
| InvalidImage
| OutOfBounds.

Section Bundle.

(** The [float] values are opaque: the consumer only decodes them from four
    bytes and compares them. *)
Context {float : Type}.
Variable decodeFloat : list byte → float.
Variable float_zero : float.
Variable float_gt : float → float → bool.

(** The two symbols generated by the [-bundle] option. *)
Variable lenet_mnist_config : BundleConfig.
Variable lenet_mnist :
  list byte → list byte → list byte → list byte * list byte * list byte.

(** The files the program can open, by name. *)
Variable files : string → option (list byte).

(** What decoding and normalizing the named PNG images yields: the pixels
    in NCHW order, or the way the first bad image stops the program. The
    value the source gives it is [Pixels.decodedImages] below, which
    follows [readPngImage] and the loops of [loadImagesAndPreprocess] store
    by store; what is proved for every value holds for that one. *)
Variable decodedImages : list string → ImageResult.

(** [loadImagesAndPreprocess]: the result block and its dimensions. *)
Definition loadImagesAndPreprocess (filenames : list string)
    : Prog (list byte * list Z) :=
  assert (bool_decide (0 < length filenames))
    "There must be at least one filename in filenames";;
  let numImages := (Z.of_nat (length filenames) `mod` 2 ^ 32)%Z in
  let numChannels := 1%Z in
  let resultDims := [numImages; numChannels; DEFAULT_HEIGHT; DEFAULT_WIDTH] in
  let resultSizeInBytes :=
    wrap ((numImages * numChannels * DEFAULT_HEIGHT * DEFAULT_WIDTH) `mod` 2 ^ 32
          * sizeof_float) in
  match decodedImages filenames with
  | Unreadable => abort "Error reading input image."
  | WrongSize => abort "All images must have the same Height and Width"
  | InvalidImage => abort "Invalid image"
  | OutOfBounds => undefined
  | Decoded pixels =>
      emit (OutLoadedImages resultSizeInBytes);;
      mret (resize (Z.to_nat resultSizeInBytes) x00 pixels, resultDims)
  end.

(** [parseCommandLineOptions] *)
Definition parseCommandLineOptions (argv : list string) : Prog unit :=
  modify (λ s, {| inputImageFilenames := inputImageFilenames s ++ drop 1 argv;
                  output := output s |}).

(** [initConstantWeights] *)
Definition initConstantWeights (weightsFileName : string)
    (config : BundleConfig) : Prog (list byte) :=
  match files weightsFileName with
  | None => emit (ErrCouldNotOpen weightsFileName);; exit 1
  | Some contents =>
      let fileSize := Z.of_nat (length contents) in
      baseConstantWeightVarsAddr ← calloc fileSize;
      emit (OutAllocatedWeights fileSize);;
      assert (bool_decide (fileSize = constantWeightVarsMemSize config))
        "Wrong weights file size";;
      (* fread(base, fileSize, 1, weightsFile): the number of items read *)
      let result := if bool_decide (fileSize = 0)%Z then 0%Z else 1%Z in
      let loaded := overwrite baseConstantWeightVarsAddr 0 contents fileSize in
      (if bool_decide (result ≠ 1)%Z
       then emit ErrCouldNotRead
       else emit (OutLoadedWeights fileSize weightsFileName));;
      mret loaded
  end.

(** [allocateMutableWeightVars] *)
Definition allocateMutableWeightVars (config : BundleConfig)
    : Prog (list byte) :=
  weights ← calloc (mutableWeightVarsMemSize config);
  emit (OutAllocatedMutable (mutableWeightVarsMemSize config));;
  mret weights.

(** [results[i]], with [results] at byte offset [off] of the block. *)
Definition readFloat (block : list byte) (off : Z) (i : nat) : Prog float :=
  let at_ := (off + sizeof_float * Z.of_nat i)%Z in
  if bool_decide (0 ≤ at_ ∧ at_ + sizeof_float ≤ Z.of_nat (length block))%Z
  then mret (decodeFloat (take 4 (drop (Z.to_nat at_) block)))
  else undefined.

(** The offset of [results] from [mutableWeightVars]. *)
Definition resultsOffset (config : BundleConfig) : Z :=
  (mutableWeightVarsMemSize config - 40)%Z.

(** The loop of [dumpInferenceResults] over [i], carrying [(maxIdx, maxValue)]. *)
Fixpoint findMax (block : list byte) (off : Z) (i n : nat)
    (acc : nat * float) : Prog (nat * float) :=
  match n with
  | O => mret acc
  | S n' =>
      r ← readFloat block off i;
      findMax block off (S i) n'
        (if float_gt r acc.2 then (i, r) else acc)
  end.

(** [dumpInferenceResults] *)
Definition dumpInferenceResults (config : BundleConfig)
    (mutableWeightVars : list byte) : Prog unit :=
  '(maxIdx, _) ← findMax mutableWeightVars (resultsOffset config) 0 10
                   (0%nat, float_zero);
  emit (OutResult maxIdx).

(** [initMutableWeightVars] *)
Definition initMutableWeightVars (config : BundleConfig) : Prog (list byte) :=
  mutableWeightVarsAddr ← allocateMutableWeightVars config;
  s ← get;
  '(inputT, inputDims) ← loadImagesAndPreprocess (inputImageFilenames s);
  let imageDataSizeInBytes := wrap (foldr Z.mul 1%Z inputDims * sizeof_float) in
  emit (OutCopyingImageData imageDataSizeInBytes);;
  m1 ← memcpy mutableWeightVarsAddr 0 inputT imageDataSizeInBytes;
  m2 ← memcpy m1 imageDataSizeInBytes inputT imageDataSizeInBytes;
  mret m2.

(** [initActivations] *)
Definition initActivations (config : BundleConfig) : Prog (list byte) :=
  calloc (activationsMemSize config).

(** [free] *)
Definition free (block : list byte) : Prog unit := emit (EvFree (length block)).

(** [main] *)
Definition main (argv : list string) : Prog Z :=
  parseCommandLineOptions argv;;
  (* Allocate and initialize constant and mutable weights. *)
  constantWeightVarsAddr ← initConstantWeights "lenet_mnist.weights" lenet_mnist_config;
  mutableWeightVarsAddr ← initMutableWeightVars lenet_mnist_config;
  activationsAddr ← initActivations lenet_mnist_config;
  (* Perform the computation. *)
  emit (EvEntryPoint constantWeightVarsAddr mutableWeightVarsAddr activationsAddr);;
  let '(c, m, a) :=
    lenet_mnist constantWeightVarsAddr mutableWeightVarsAddr activationsAddr in
  (* Report the results. *)
  dumpInferenceResults lenet_mnist_config m;;
  (* Free all resources. *)
  free a;; free c;; free m;;
  mret 0%Z.

(** The [i]-th score that [dumpInferenceResults] reads from the block. *)
Definition scoreAt (block : list byte) (off : Z) (i : nat) : float :=
  decodeFloat (take 4 (drop (Z.to_nat (off + sizeof_float * Z.of_nat i)) block)).

(** The assertion of [loadImagesAndPreprocess] that the named images fail,
    if any. *)
Definition imageFailure (filenames : list string) : option string :=
  match filenames with
  | [] => Some "There must be at least one filename in filenames"
  | _ :: _ =>
      match decodedImages filenames with
      | Unreadable => Some "Error reading input image."
      | WrongSize => Some "All images must have the same Height and Width"
      | InvalidImage => Some "Invalid image"
      | OutOfBounds | Decoded _ => None
      end
  end.

(** What [initConstantWeights] prints after reading a file of the
    configured size. *)
Definition readReport (weightsFileName : string) (contents : list byte)
    : Event :=
  if bool_decide (contents = []) then ErrCouldNotRead
  else OutLoadedWeights (Z.of_nat (length contents)) weightsFileName.

(** What the loop of [dumpInferenceResults] holds after it looked at the
    scores below [k]. *)
Definition maxOfFirst (block : list byte) (off : Z) (k : nat)
    (acc : nat * float) : Prop :=
  (acc.1 = 0%nat ∨ (acc.1 < k)%nat)
  ∧ (∀ j, (j < k)%nat →
       float_gt (scoreAt block off j) acc.2 = false)
  ∧ ((acc.1 = 0%nat ∧ acc.2 = float_zero)
     ∨ (acc.2 = scoreAt block off acc.1
        ∧ float_gt acc.2 float_zero = true)).

(** The class that the loop of [dumpInferenceResults] arrives at for the
    ten scores at offset [off] of the block: [maxIdx], starting from
    [(0, 0.0)] and replaced by each [i] whose score is greater than
    [maxValue]. *)
Definition reportedClass (block : list byte) (off : Z) : nat :=
  (foldl (λ acc i, let r := scoreAt block off i in
                   if float_gt r acc.2 then (i, r) else acc)
     (0%nat, float_zero) (seq 0 10)).1.

End Bundle.
End Standalone.

(** * Reading the images, float by float
      ([readPngImage] and the loops of [loadImagesAndPreprocess])

    [Standalone.loadImagesAndPreprocess] takes the outcome of decoding
    all images as given. Here the decoding is followed store by store: what
    libpng reports about a file is the input, the blocks of floats are the
    state. [decodedImages] is the outcome that this gives to the consumer,
    and [main] the consumer with it. *)

Module Pixels.
Import Standalone.

(** [png_get_color_type] *)
Inductive ColorType :=
| PNG_COLOR_TYPE_GRAY
| PNG_COLOR_TYPE_PALETTE
| PNG_COLOR_TYPE_RGB
| PNG_COLOR_TYPE_RGB_ALPHA
| PNG_COLOR_TYPE_GRAY_ALPHA.

#[export] Instance ColorType_eq_dec : EqDecision ColorType.
Proof. solve_decision. Defined.

(** What libpng reports about a file that carries the PNG signature: the
    header fields, whether reading the image data fails, and the rows that
    [png_read_image] fills. *)
Record PngInfo := mkPngInfo {
  image_width : Z;
  image_height : Z;
  color_type : ColorType;
  bit_depth : Z;
  number_of_passes : Z;
  read_failed : bool;
  row_pointers : list (list byte)
}.

(** What opening a named file and handing it to libpng gives. *)
Inductive PngFile :=
| CannotOpen                 (* [fopen] returns null *)
| BadSignature               (* fewer than 8 bytes, or [png_sig_cmp] fails *)
| NoReadStruct               (* libpng cannot create its structures *)
| InfoFailed                 (* libpng fails while reading the header *)
| Readable (info : PngInfo).

(** A value that is there, or else an access outside an array. *)
Definition liftOpt {St A} (o : option A) : Comp St A :=
  match o with Some a => mret a | None => undefined end.

(** [block[i]], read. *)
Definition load {St A} (block : list A) (i : Z) : Comp St A :=
  if bool_decide (0 ≤ i)%Z then liftOpt (block !! Z.to_nat i) else undefined.

(** Run a computation on a block of its own. *)
Definition withLocal {St L A} (init : L) (c : Comp L A) : Comp St (A * L) :=
  λ s, match c init with
       | (Ok a, l) => (Ok (a, l), s)
       | (AssertionFailed msg, _) => (AssertionFailed msg, s)
       | (Undefined, _) => (Undefined, s)
       | (Exited code, _) => (Exited code, s)
       end.

(** The byte of channel [k] of the pixel in row [row_n] and column [col_n]
    of the rows that libpng filled, [stride] bytes a pixel. *)
Definition channelByte (info : PngInfo) (stride : nat) (row_n col_n k : nat)
    : byte :=
  default x00 (row ← row_pointers info !! row_n; row !! (col_n * stride + k)%nat).

(** The bytes of a pixel in a row: 1 for gray, 3 for RGB, 4 for RGB with
    alpha. *)
Definition pixelBytes (info : PngInfo) : nat :=
  match color_type info with
  | PNG_COLOR_TYPE_GRAY => 1
  | PNG_COLOR_TYPE_RGB_ALPHA => 4
  | _ => 3
  end.

(** The channels that are stored: 1 for gray, 3 otherwise. *)
Definition storedChannels (info : PngInfo) : nat :=
  match color_type info with PNG_COLOR_TYPE_GRAY => 1 | _ => 3 end.

(** A header that passes the three assertions of [readPngImage], of an
    image whose data libpng then reads. *)
Definition acceptedHeader (info : PngInfo) : Prop :=
  bit_depth info = 8%Z
  ∧ (color_type info = PNG_COLOR_TYPE_GRAY ∨ color_type info = PNG_COLOR_TYPE_RGB
     ∨ color_type info = PNG_COLOR_TYPE_RGB_ALPHA)
  ∧ number_of_passes info = 1%Z
  ∧ read_failed info = false.

(** A header that fails one of the three assertions of [readPngImage]. *)
Definition rejectedHeader (info : PngInfo) : Prop :=
  bit_depth info ≠ 8%Z
  ∨ color_type info = PNG_COLOR_TYPE_PALETTE
  ∨ color_type info = PNG_COLOR_TYPE_GRAY_ALPHA
  ∨ number_of_passes info ≠ 1%Z.

(** The sizes libpng can report: width and height below [2^31], as many
    rows as the height, each of width times [pixelBytes] bytes, and a
    block of floats whose size in bytes is a [size_t]. *)
Definition wellFormed (info : PngInfo) : Prop :=
  (0 ≤ image_width info < 2 ^ 31)%Z ∧ (0 ≤ image_height info < 2 ^ 31)%Z
  ∧ (image_width info * image_height info * 12 < size_t_modulus)%Z
  ∧ Z.of_nat (length (row_pointers info)) = image_height info
  ∧ Forall (λ row, Z.of_nat (length row)
                   = (image_width info * Z.of_nat (pixelBytes info))%Z)
      (row_pointers info).

(** The channels that are stored and the bytes of a pixel in a row, for
    the three kinds of image that [readPngImage] accepts. *)
Definition pixelLayout (isGray hasAlpha : bool) (C P : nat) : Prop :=
  (isGray = true ∧ hasAlpha = false ∧ C = 1%nat ∧ P = 1%nat)
  ∨ (isGray = false ∧ hasAlpha = false ∧ C = 3%nat ∧ P = 3%nat)
  ∨ (isGray = false ∧ hasAlpha = true ∧ C = 3%nat ∧ P = 4%nat).

(** An image of the size the network expects, that [readPngImage]
    accepts. *)
Definition mnistImage (info : PngInfo) : Prop :=
  acceptedHeader info ∧ wellFormed info
  ∧ image_width info = DEFAULT_WIDTH ∧ image_height info = DEFAULT_HEIGHT.

Section Images.
Context {float : Type}.

(** The floats [0.0] and [1.0], and [float(b) * scale + bias] for the
    scale and the bias of a range. *)
Variable float_zero float_one : float.
Variable pixelValue : float * float → byte → float.

(** [block[i] = v]: outside the block the store is undefined. *)
Definition store (i : Z) (v : float) : Comp (list float) unit :=
  λ block,
    if bool_decide (0 ≤ i < Z.of_nat (length block))%Z
    then (Ok tt, <[Z.to_nat i := v]> block)
    else (Undefined, block).

(** [imageT[getXYZ(imageDims, row_n, col_n, k)] = float(ptr[k]) * scale + bias] *)
Definition storeChannel (range : float * float) (imageDims : list Z)
    (row : list byte) (ptr : Z) (row_n col_n : nat) (k : Z)
    : Comp (list float) unit :=
  b ← load row (ptr + k)%Z;
  i ← liftOpt (getXYZ imageDims (Z.of_nat row_n) (Z.of_nat col_n) k);
  store i (pixelValue range b).

(** The body of the loop over [col_n]: the channels of one pixel. *)
Definition storePixel (range : float * float) (imageDims : list Z)
    (isGray hasAlpha : bool) (numChannels : Z) (row : list byte)
    (row_n col_n : nat) : Comp (list float) unit :=
  let ptr := mul64 (Z.of_nat col_n)
               (if hasAlpha then add64 numChannels 1 else numChannels) in
  if isGray then storeChannel range imageDims row ptr row_n col_n 0
  else
    storeChannel range imageDims row ptr row_n col_n 0;;
    storeChannel range imageDims row ptr row_n col_n 1;;
    storeChannel range imageDims row ptr row_n col_n 2.

(** [readPngImage]: the state is the block [imageT] refers to; the result
    is [None] when the function returns [true], and the dimensions it
    wrote to [imageDims] when it returns [false]. *)
Definition readPngImage (file : PngFile) (range : float * float)
    : Comp (list float) (option (list Z)) :=
  match file with
  | CannotOpen | BadSignature | NoReadStruct | InfoFailed => mret None
  | Readable info =>
      let width := image_width info in
      let height := image_height info in
      let isGray := bool_decide (color_type info = PNG_COLOR_TYPE_GRAY) in
      let numChannels := if isGray then 1%Z else 3%Z in
      assert (bool_decide (bit_depth info = 8%Z)) "Invalid image";;
      assert (bool_decide (color_type info = PNG_COLOR_TYPE_RGB_ALPHA
                           ∨ color_type info = PNG_COLOR_TYPE_RGB) || isGray)
        "Invalid image";;
      let hasAlpha := bool_decide (color_type info = PNG_COLOR_TYPE_RGB_ALPHA) in
      assert (bool_decide (number_of_passes info = 1%Z)) "Invalid image";;
      (* Error during image read. *)
      if read_failed info then mret None else
      let imageDims := [width; height; numChannels] in
      put (replicate
             (Z.to_nat (mul64 (mul64 (mul64 width height) numChannels) sizeof_float
                        / sizeof_float))
             float_zero);;
      forRange 0 (Z.to_nat height) (λ row_n,
        row ← load (row_pointers info) (Z.of_nat row_n);
        forRange 0 (Z.to_nat width)
          (storePixel range imageDims isGray hasAlpha numChannels row row_n));;
      mret (Some imageDims)
  end.

(** The files the program can open, by name, as libpng sees them. *)
Variable files : string → PngFile.

(** What a block that [malloc] returns holds, cell by cell: anything. *)
Variable indeterminate : nat → float.

(** The block [resultT] refers to, and what was printed. *)
Record Loader := mkLoader { resultT : list float; printed : list Event }.

(** [resultT[i] = v] *)
Definition storeResult (i : Z) (v : float) : Comp Loader unit :=
  λ s,
    if bool_decide (0 ≤ i < Z.of_nat (length (resultT s)))%Z
    then (Ok tt, mkLoader (<[Z.to_nat i := v]> (resultT s)) (printed s))
    else (Undefined, s).

(** The body of the conversion loops:
    [resultT[getXYZW(resultDims, n, numChannels - 1 - z, x, y)]
       = imageT[getXYZ(dims, x, y, z)]] *)
Definition copyPixel (resultDims dims : list Z) (imageT : list float)
    (numChannels : Z) (n z y x : nat) : Comp Loader unit :=
  src ← liftOpt (getXYZ dims (Z.of_nat x) (Z.of_nat y) (Z.of_nat z));
  v ← load imageT src;
  dst ← liftOpt (getXYZW resultDims (Z.of_nat n)
                   ((numChannels - 1 - Z.of_nat z) `mod` 2 ^ 32)
                   (Z.of_nat x) (Z.of_nat y));
  storeResult dst v.

(** The body of the loop over the images. *)
Definition loadImage (filenames : list string) (range : float * float)
    (resultDims : list Z) (numChannels : Z) (n : nat) : Comp Loader unit :=
  name ← load filenames (Z.of_nat n);
  '(loaded, imageT) ← withLocal [] (readPngImage (files name) range);
  match loaded with
  | None => abort "Error reading input image."
  | Some dims =>
      d0 ← liftOpt (dims !! 0%nat);
      d1 ← liftOpt (dims !! 1%nat);
      assert (bool_decide (d0 = DEFAULT_HEIGHT ∧ d1 = DEFAULT_WIDTH))
        "All images must have the same Height and Width";;
      (* Convert to BGR, as this is what NN is expecting. *)
      forRange 0 (Z.to_nat numChannels) (λ z,
        forRange 0 (Z.to_nat d1) (λ y,
          forRange 0 (Z.to_nat d0)
            (copyPixel resultDims dims imageT numChannels n z y)))
  end.

(** [loadImagesAndPreprocess], store by store. *)
Definition loadImagesAndPreprocess (filenames : list string)
    : Comp Loader (list Z) :=
  assert (bool_decide (0 < length filenames))
    "There must be at least one filename in filenames";;
  let range := (float_zero, float_one) in
  let numImages := (Z.of_nat (length filenames) `mod` 2 ^ 32)%Z in
  (* mnist is using grayscale images, so the number of channels is 1. *)
  let numChannels := 1%Z in
  (* N x C x H x W *)
  let resultDims := [numImages; numChannels; DEFAULT_HEIGHT; DEFAULT_WIDTH] in
  let resultSizeInBytes :=
    wrap ((numImages * numChannels * DEFAULT_HEIGHT * DEFAULT_WIDTH) `mod` 2 ^ 32
          * sizeof_float) in
  modify (λ s, mkLoader
                 (indeterminate <$> seq 0 (Z.to_nat (resultSizeInBytes / sizeof_float)))
                 (printed s));;
  forRange 0 (Z.to_nat numImages)
    (loadImage filenames range resultDims numChannels);;
  modify (λ s, mkLoader (resultT s)
                 (printed s ++ [OutLoadedImages resultSizeInBytes]));;
  mret resultDims.

(** The block [resultT] refers to changes, what was printed does not. *)
Definition keepsPrinted (s s' : Loader) : Prop := printed s' = printed s.

(** The assertions that reading an image can fail. *)
Definition loaderMessage (msg : string) : Prop :=
  msg = "Error reading input image."%string
  ∨ msg = "All images must have the same Height and Width"%string
  ∨ msg = "Invalid image"%string.

(** The four bytes of a float in memory. *)
Variable encodeFloat : float → list byte.

(** The bytes of a block of floats, as [memcpy] reads them. *)
Definition bytesOf (block : list float) : list byte :=
  mjoin (encodeFloat <$> block).

(** What the named images give to the consumer: the bytes of the result
    block, or the way in which [loadImagesAndPreprocess] stops. *)
Definition decodedImages (filenames : list string) : ImageResult :=
  match loadImagesAndPreprocess filenames (mkLoader [] []) with
  | (Ok _, s) => Decoded (bytesOf (resultT s))
  | (AssertionFailed msg, _) =>
      if bool_decide (msg = "Error reading input image."%string)
      then Unreadable
      else if bool_decide
                (msg = "All images must have the same Height and Width"%string)
      then WrongSize
      else InvalidImage
  | (Undefined, _) | (Exited _, _) => OutOfBounds
  end.

(** [main], with the images read store by store. *)
Definition main (decodeFloat : list byte → float)
    (float_gt : float → float → bool)
    (lenet_mnist_config : BundleConfig)
    (lenet_mnist :
       list byte → list byte → list byte → list byte * list byte * list byte)
    (weightFiles : string → option (list byte)) (argv : list string)
    : Prog Z :=
  Standalone.main decodeFloat float_zero float_gt lenet_mnist_config
    lenet_mnist weightFiles decodedImages argv.

End Images.
End Pixels.

(** * A reference instantiation

    A small interpreter-like backend and a small bundle, on which the
    engine and the consumer can be run. *)

Module Reference.
Import ExecutionEngine.

Inductive RefBackendKind := Interpreter | CPU.

(** The state of a reference backend: its kind, whether it was initialized
    and the number of forward passes it ran. *)
Record RefBackend := mkRefBackend {
  refKind : RefBackendKind;
  refInitialized : bool;
  refPasses : nat
}.

#[export] Instance refTypes : GlowTypes := {|
  Graph := list nat;
  Instr := nat;
  Decl := nat;
  BackendKind := RefBackendKind;
  Backend := RefBackend
|}.

(** Graph optimization drops the no-op nodes (those numbered [0]). *)
Definition refOptimize (F : FunId) (m : GlowModule) : GlowModule :=
  {| variables := variables m;
     functions := alter (filter (λ n, n ≠ 0%nat)) F (functions m) |}.

(** The CPU backend rewrites the graph before lowering, the interpreter
    does not; neither rewrites it after lowering. *)
Definition refPreLowering (b : RefBackend) (F : FunId) (m : GlowModule)
    : bool * GlowModule * RefBackend :=
  match refKind b with
  | CPU => (true, {| variables := variables m;
                     functions := alter (λ g, 0%nat :: g) F (functions m) |}, b)
  | Interpreter => (false, m, b)
  end.

(** The slices [slc], [slc + 1], ... of the input, as many as the
    destination has, wrapping at the end of the input. *)
Definition refCopySlices (t input : Tensor) (slc : Z) : option Tensor :=
  match tdims t, tdims input with
  | b :: _, n :: _ =>
      let sz := (length (data input) / Z.to_nat n)%nat in
      Some {| type_ := type_ t;
              data := mjoin ((λ i, take sz (drop (sz * Z.to_nat ((slc + Z.of_nat i) `mod` n))
                                                 (data input)))
                             <$> seq 0 (Z.to_nat b)) |}
  | _, _ => None
  end.

#[export] Instance refOps : GlowOps := {|
  createBackend kind ir := mkRefBackend kind false 0;
  verify F m :=
    match functions m !! F with
    | Some (_ :: _) => None
    | Some [] => Some "Function has no nodes"
    | None => Some "No such function"
    end;
  optimizeGraph F mode m := refOptimize F m;
  transformPreLowering b F mode m := refPreLowering b F m;
  lower F mode b m := m;
  transformPostLowering b F mode m := (false, m, b);
  irGenerate m ir :=
    {| G_ := G_ ir;
       instrs := default [] (F ← G_ ir; functions m !! F);
       weights := fst <$> map_to_list (variables m) |};
  optimizeIR mode b ir := ir;
  backendInit b ir m := mkRefBackend (refKind b) true (refPasses b);
  backendSave b ir m dir := b;
  backendForwardPass b ir m :=
    (mkRefBackend (refKind b) (refInitialized b) (S (refPasses b)), m);
  copyConsecutiveSlices := refCopySlices
|}.

(** A dataset of four samples of one float each, and a batch of two. *)
Definition sample (b : byte) : list byte := [b; x00; x00; x00].

Definition dataset : Tensor :=
  {| type_ := mkType FloatTy [4; 1]%Z;
     data := sample x01 ++ sample x02 ++ sample x03 ++ sample x04 |}.

Definition batchType : TypeRef := mkType FloatTy [2; 1]%Z.

Definition batch (a b : byte) : Tensor :=
  {| type_ := batchType; data := sample a ++ sample b |}.

Definition inputVar : Var :=
  {| visibility := Public; varType := batchType; payload := batch x00 x00 |}.

Definition weightVar : Var :=
  {| visibility := Private; varType := batchType; payload := batch x07 x07 |}.

(** A Module with a Public Variable [0], a Private Variable [1] and a
    Function [0] of three nodes, one of them a no-op. *)
Definition refModule : GlowModule :=
  {| variables := <[0%nat := inputVar]> (<[1%nat := weightVar]> ∅);
     functions := <[0%nat := [3; 0; 5]%nat]> ∅ |}.

(** An engine that was constructed and whose Module was then populated. *)
Definition freshEngine (kind : RefBackendKind) : Engine :=
  let e := construct kind in
  {| backendKind_ := backendKind_ e; M_ := refModule;
     IR_ := IR_ e; backend_ := backend_ e |}.

(** The same engine after [compile(Infer, F0)]. *)
Definition compiledEngine (kind : RefBackendKind) : Engine :=
  (call (compile Infer 0%nat) (freshEngine kind) initialProcess).1.2.

(** A slice copy that does not wrap: one of its assertions fails when the
    slices run past the end of the input. *)
Definition refCopySlicesWithin (t input : Tensor) (slc : Z) : option Tensor :=
  match tdims t, tdims input with
  | b :: _, n :: _ =>
      if bool_decide (slc + b ≤ n)%Z then refCopySlices t input slc else None
  | _, _ => None
  end.

(** The reference operations with the slice copy that does not wrap. *)
Definition refOpsNoWrap : GlowOps := {|
  createBackend := createBackend (GlowOps := refOps);
  verify := verify (GlowOps := refOps);
  optimizeGraph := optimizeGraph (GlowOps := refOps);
  transformPreLowering := transformPreLowering (GlowOps := refOps);
  lower := lower (GlowOps := refOps);
  transformPostLowering := transformPostLowering (GlowOps := refOps);
  irGenerate := irGenerate (GlowOps := refOps);
  optimizeIR := optimizeIR (GlowOps := refOps);
  backendInit := backendInit (GlowOps := refOps);
  backendSave := backendSave (GlowOps := refOps);
  backendForwardPass := backendForwardPass (GlowOps := refOps);
  copyConsecutiveSlices := refCopySlicesWithin
|}.

(** A dataset of three samples of one float each. *)
Definition dataset3 : Tensor :=
  {| type_ := mkType FloatTy [3; 1]%Z;
     data := sample x01 ++ sample x02 ++ sample x03 |}.

(** A bundle: the configuration, an entry point that writes the class
    scores at the end of the mutable region, and the files on disk. *)
Import Standalone.

Definition refConfig : BundleConfig :=
  {| constantWeightVarsMemSize := 4;
     mutableWeightVarsMemSize := 2 * 3136 + 40;
     activationsMemSize := 8 |}.

Definition refScores : list byte :=
  mjoin ((λ b, [b; x00; x00; x00]) <$> [x00; x01; x00; x09; x00; x00; x02; x00; x00; x00]).

Definition refEntry (c m a : list byte) : list byte * list byte * list byte :=
  (c, take (length m - 40) m ++ refScores, a).

Definition refFiles (name : string) : option (list byte) :=
  if bool_decide (name = "lenet_mnist.weights") then Some [x0a; x0b; x0c; x0d]
  else None.

Definition refImages (names : list string) : ImageResult :=
  Decoded (replicate (length names * 3136) x11).

(** Floats are read as the value of their first byte. *)
Definition refDecode (bs : list byte) : nat :=
  match bs with b :: _ => Byte.to_nat b | [] => 0 end.

Definition refGt (x y : nat) : bool := bool_decide (y < x).

Definition refMain (argv : list string) : Prog Z :=
  main refDecode 0%nat refGt refConfig refEntry refFiles refImages argv.

(** A bundle of the same three sizes whose layout puts the class scores
    first: its entry point writes them at the start of the mutable region. *)
Definition refEntryScoresFirst (c m a : list byte)
    : list byte * list byte * list byte :=
  (c, refScores ++ drop 40 m, a).

Definition refMainScoresFirst (argv : list string) : Prog Z :=
  main refDecode 0%nat refGt refConfig refEntryScoresFirst refFiles refImages argv.

Definition argvOneImage : list string := ["lenet_mnist_standalone"; "seven.png"].

(** One batch of the dataset, on an engine. *)
Definition batchOnce (e : Engine) (p : Process) : Outcome unit * Engine * Process :=
  call (runBatch 1 [Some 0%nat] [dataset]) e p.

(** Images as libpng reports them: a gray image of 28 x 28 pixels, an RGB
    image of the same size, a gray image of one column and two rows, one
    of 16 bits a channel and one of two columns and one row.
    Floats are natural numbers: the value of a byte is its number. *)
Import Pixels.

Definition refPng : PngInfo :=
  {| image_width := 28; image_height := 28;
     color_type := PNG_COLOR_TYPE_GRAY; bit_depth := 8;
     number_of_passes := 1; read_failed := false;
     row_pointers := replicate 28 (replicate 27 x11 ++ [x7f]) |}.

Definition refPngRGB : PngInfo :=
  {| image_width := 28; image_height := 28;
     color_type := PNG_COLOR_TYPE_RGB; bit_depth := 8;
     number_of_passes := 1; read_failed := false;
     row_pointers := replicate 28 (mjoin (replicate 28 [x0a; x0b; x0c])) |}.

Definition refTallPng : PngInfo :=
  {| image_width := 1; image_height := 2;
     color_type := PNG_COLOR_TYPE_GRAY; bit_depth := 8;
     number_of_passes := 1; read_failed := false;
     row_pointers := [[x01]; [x02]] |}.

Definition refDeepPng : PngInfo :=
  {| image_width := 28; image_height := 28;
     color_type := PNG_COLOR_TYPE_GRAY; bit_depth := 16;
     number_of_passes := 1; read_failed := false;
     row_pointers := replicate 28 (replicate 56 x11) |}.

Definition refWidePng : PngInfo :=
  {| image_width := 2; image_height := 1;
     color_type := PNG_COLOR_TYPE_GRAY; bit_depth := 8;
     number_of_passes := 1; read_failed := false;
     row_pointers := [[x01; x02]] |}.

Definition refPngFiles (name : string) : PngFile :=
  if bool_decide (name = "seven.png") then Readable refPng
  else if bool_decide (name = "colour.png") then Readable refPngRGB
  else if bool_decide (name = "tall.png") then Readable refTallPng
  else if bool_decide (name = "notes.txt") then BadSignature
  else if bool_decide (name = "deep.png") then Readable refDeepPng
  else if bool_decide (name = "wide.png") then Readable refWidePng
  else CannotOpen.

Definition refPixelValue (range : nat * nat) (b : byte) : nat := Byte.to_nat b.

Definition refLoad (filenames : list string)
    : Comp (Loader (float := nat)) (list Z) :=
  Pixels.loadImagesAndPreprocess 0%nat 255%nat refPixelValue refPngFiles
    (λ _, 99%nat) filenames.

(** A float in memory: its value in the first byte. *)
Definition refEncode (n : nat) : list byte :=
  [default x00 (Byte.of_nat n); x00; x00; x00].

(** The consumer on the reference bundle, reading the reference images. *)
Definition refProgram (argv : list string) : Prog Z :=
  Pixels.main 0%nat 255%nat refPixelValue refPngFiles (λ _, 99%nat) refEncode
    refDecode refGt refConfig refEntry refFiles argv.

End Reference.

(** * Facts about computations *)

Module CompFacts.

Ltac unfold_comp :=
  unfold mbind, mret, Comp_bind, Comp_ret, comp_bind, comp_ret,
    get, put, modify, abort, undefined, exit, assert in *.

Section Sequencing.
Context {St : Type}.

Lemma bind_ok {A B} (c : Comp St A) (f : A → Comp St B) s a s' :
  c s = (Ok a, s') → (c ≫= f) s = f a s'.
Proof. intros H. unfold_comp. by rewrite H. Qed.

Lemma bind_not_ok {A B} (c : Comp St A) (f : A → Comp St B) s :
  is_ok (c s).1 = false →
  is_ok ((c ≫= f) s).1 = false ∧ ((c ≫= f) s).2 = (c s).2.
Proof. unfold_comp. by destruct (c s) as [[] ?]. Qed.

Lemma bind_ok_inv {A B} (c : Comp St A) (f : A → Comp St B) s b s' :
  (c ≫= f) s = (Ok b, s') → ∃ a s1, c s = (Ok a, s1) ∧ f a s1 = (Ok b, s').
Proof.
  unfold_comp. destruct (c s) as [[a|msg| |code] s1]; intros H; try done.
  by exists a, s1.
Qed.

Lemma bind_assertion_failed {A B} (c : Comp St A) (f : A → Comp St B) s msg s' :
  c s = (AssertionFailed msg, s') → (c ≫= f) s = (AssertionFailed msg, s').
Proof. intros H. unfold_comp. by rewrite H. Qed.

Lemma bind_undefined {A B} (c : Comp St A) (f : A → Comp St B) s s' :
  c s = (Undefined, s') → (c ≫= f) s = (Undefined, s').
Proof. intros H. unfold_comp. by rewrite H. Qed.

Lemma bind_exited {A B} (c : Comp St A) (f : A → Comp St B) s code s' :
  c s = (Exited code, s') → (c ≫= f) s = (Exited code, s').
Proof. intros H. unfold_comp. by rewrite H. Qed.

Lemma is_ok_unit (o : Outcome unit) : is_ok o = true ↔ o = Ok tt.
Proof. destruct o as [[]| | |]; cbn; split; congruence. Qed.

End Sequencing.

(** Run the first computation of a sequence, given what it returns. *)
Ltac step_bind H :=
  match type of H with
  | ?c ?s = _ =>
      first [ erewrite !(bind_ok _ _ s _ _ H)
            | erewrite !(bind_exited _ _ s _ _ H)
            | erewrite !(bind_assertion_failed _ _ s _ _ H)
            | erewrite !(bind_undefined _ _ s _ H) ]
  end.

(** Computations that only append to a trace. *)
Section Appends.
Context {St Ev : Type} (tr : St → list Ev) (keep : St → St → Prop).
Context `{!Reflexive keep, !Transitive keep}.
Implicit Types P : Ev → Prop.

Lemma silent P {A} (c : Comp St A) :
  (∀ s, (c s).2 = s) → appendsOn tr keep P c.
Proof.
  intros H s. rewrite H. split; [done|]. exists []. by rewrite app_nil_r.
Qed.

Lemma appendsOn_ret P {A} (a : A) : appendsOn tr keep P (mret a).
Proof. by apply silent. Qed.

Lemma appendsOn_abort P {A} msg : appendsOn tr keep P (abort msg : Comp St A).
Proof. by apply silent. Qed.

Lemma appendsOn_undefined P {A} : appendsOn tr keep P (undefined : Comp St A).
Proof. by apply silent. Qed.

Lemma appendsOn_exit P {A} code : appendsOn tr keep P (exit code : Comp St A).
Proof. by apply silent. Qed.

Lemma appendsOn_get P : appendsOn tr keep P get.
Proof. by apply silent. Qed.

Lemma appendsOn_assert P b msg : appendsOn tr keep P (assert b msg).
Proof. destruct b; by apply silent. Qed.

Lemma appendsOn_index P {A} (l : list A) i : appendsOn tr keep P (index l i).
Proof. unfold index. destruct (l !! i); by apply silent. Qed.

Lemma appendsOn_drop_front P {A} (l : list A) :
  appendsOn tr keep P (drop_front l).
Proof. destruct l; by apply silent. Qed.

Lemma appendsOn_modify P (f : St → St) :
  (∀ s, keep s (f s) ∧ ∃ evs, tr (f s) = tr s ++ evs ∧ Forall P evs) →
  appendsOn tr keep P (modify f).
Proof. intros H s. apply H. Qed.

Lemma appendsOn_bind P {A B} (c : Comp St A) (f : A → Comp St B) :
  appendsOn tr keep P c → (∀ a, appendsOn tr keep P (f a)) →
  appendsOn tr keep P (c ≫= f).
Proof.
  intros Hc Hf s. destruct (Hc s) as (Hk & evs & Htr & HP).
  unfold_comp. destruct (c s) as [[a|msg| |code] s1] eqn:E; cbn in *;
    try (split; [done|]; by exists evs).
  destruct (Hf a s1) as (Hk' & evs' & Htr' & HP').
  split; [by etrans|]. exists (evs ++ evs').
  rewrite Htr', Htr, app_assoc. split; [done|]. by apply Forall_app.
Qed.

Lemma appendsOn_ret_bind P {A B} (a : A) (f : A → Comp St B) :
  appendsOn tr keep P (f a) → appendsOn tr keep P (mret a ≫= f).
Proof. intros Hf s. apply Hf. Qed.

Lemma appendsOn_undefined_bind P {A B} (f : A → Comp St B) :
  appendsOn tr keep P (undefined ≫= f).
Proof. by apply silent. Qed.

Lemma appendsOn_index_bind P {A B} (l : list A) i (f : A → Comp St B) :
  (∀ x, l !! i = Some x → appendsOn tr keep P (f x)) →
  appendsOn tr keep P (index l i ≫= f).
Proof.
  intros Hf. unfold index. destruct (l !! i) as [x|] eqn:E.
  - by apply appendsOn_ret_bind, Hf.
  - by apply silent.
Qed.

Lemma appendsOn_forRange P n : ∀ start (body : nat → Comp St unit),
  (∀ i, appendsOn tr keep P (body i)) →
  appendsOn tr keep P (forRange start n body).
Proof.
  induction n as [|n IH]; intros start body Hb; cbn [forRange].
  - apply appendsOn_ret.
  - apply appendsOn_bind; [apply Hb|]. intros _. by apply IH.
Qed.

Lemma appendsOn_weaken P Q {A} (c : Comp St A) :
  (∀ ev, P ev → Q ev) → appendsOn tr keep P c → appendsOn tr keep Q c.
Proof.
  intros HPQ Hc s. destruct (Hc s) as (Hk & evs & Htr & HP).
  split; [done|]. exists evs. split; [done|]. by eapply Forall_impl.
Qed.

End Appends.

(** Computations that keep a relation between the state before and the
    state after. *)
Section Frames.
Context {St : Type} (R : St → St → Prop).
Context `{!Reflexive R, !Transitive R}.

Lemma framed_silent {A} (c : Comp St A) : (∀ s, (c s).2 = s) → framed R c.
Proof. intros H s. by rewrite H. Qed.

Lemma framed_bind {A B} (c : Comp St A) (f : A → Comp St B) :
  framed R c → (∀ a, framed R (f a)) → framed R (c ≫= f).
Proof.
  intros Hc Hf s. specialize (Hc s). unfold_comp.
  destruct (c s) as [[a|msg| |code] s1]; cbn in *; try done.
  etrans; [exact Hc|apply Hf].
Qed.

Lemma framed_index_bind {A B} (l : list A) i (f : A → Comp St B) :
  (∀ x, framed R (f x)) → framed R (index l i ≫= f).
Proof.
  intros Hf. apply framed_bind; [|done]. apply framed_silent. intros s.
  unfold index. by destruct (l !! i).
Qed.

Lemma framed_forRange n : ∀ start (body : nat → Comp St unit),
  (∀ i, framed R (body i)) → framed R (forRange start n body).
Proof.
  induction n as [|n IH]; intros start body Hb; cbn [forRange].
  - by apply framed_silent.
  - apply framed_bind; [apply Hb|]. intros _. by apply IH.
Qed.

End Frames.


(** Loops with an invariant. *)
Section Loops.
Context {St : Type}.

Lemma forRange_invariant (I : nat → St → Prop) (body : nat → Comp St unit) n :
  ∀ start s,
    I start s →
    (∀ i s, (start ≤ i < start + n)%nat → I i s →
            ∃ s', body i s = (Ok tt, s') ∧ I (S i) s') →
    ∃ s', forRange start n body s = (Ok tt, s') ∧ I (start + n)%nat s'.
Proof.
  induction n as [|n IH]; intros start s HI Hbody; cbn [forRange].
  { exists s. by rewrite Nat.add_0_r. }
  destruct (Hbody start s) as (s1 & Hs1 & HI1); [lia|done|].
  destruct (IH (S start) s1 HI1) as (s' & Hs' & HI').
  { intros i s2 Hi. apply Hbody. lia. }
  exists s'. split.
  - erewrite (bind_ok _ _ s _ _ Hs1). done.
  - by replace (start + S n)%nat with (S start + n)%nat by lia.
Qed.

Lemma forRange_app (body : nat → Comp St unit) n m : ∀ start s,
  forRange start (n + m) body s
  = (forRange start n body;; forRange (start + n) m body) s.
Proof.
  induction n as [|n IH]; intros start s; cbn [forRange Nat.add].
  { by rewrite Nat.add_0_r. }
  unfold mbind, Comp_bind, comp_bind.
  destruct (body start s) as [[[]|msg| |code] s1]; try done.
  rewrite IH. unfold mbind, Comp_bind, comp_bind.
  by replace (start + S n)%nat with (S start + n)%nat by lia.
Qed.

(** A loop whose iterations below [k] keep an invariant and whose
    iteration [k] is undefined under it. *)
Lemma forRange_undefined (I : nat → St → Prop) (body : nat → Comp St unit)
    n start k s :
  (start ≤ k < start + n)%nat →
  I start s →
  (∀ i s, (start ≤ i < k)%nat → I i s →
          ∃ s', body i s = (Ok tt, s') ∧ I (S i) s') →
  (∀ s, I k s → (body k s).1 = Undefined) →
  (forRange start n body s).1 = Undefined.
Proof.
  intros Hk HI Hbody Hfail.
  replace n with ((k - start) + S (start + n - S k))%nat by lia.
  rewrite forRange_app.
  destruct (forRange_invariant I body (k - start) start s HI)
    as (s1 & Hs1 & HI1).
  { intros i s2 Hi. apply Hbody. lia. }
  erewrite (bind_ok _ _ s _ _ Hs1).
  replace (start + (k - start))%nat with k in * by lia.
  cbn [forRange]. unfold mbind, Comp_bind, comp_bind.
  specialize (Hfail s1 HI1).
  by destruct (body k s1) as [[[]|msg| |code] s2]; cbn in Hfail.
Qed.

Lemma assert_bind {A} (c : bool) msg (k : Comp St A) s :
  (assert c msg;; k) s = if c then k s else (AssertionFailed msg, s).
Proof. by destruct c. Qed.

Lemma ret_bind {A B} (a : A) (f : A → Comp St B) s : (mret a ≫= f) s = f a s.
Proof. done. Qed.

Lemma bind_undefined_outcome {A B} (c : Comp St A) (f : A → Comp St B) s :
  (c s).1 = Undefined → ((c ≫= f) s).1 = Undefined.
Proof. unfold_comp. destruct (c s) as [[a|m| |code] s']; cbn; congruence. Qed.

Lemma bind_assertion_outcome {A B} (c : Comp St A) (f : A → Comp St B) s msg :
  (c s).1 = AssertionFailed msg → ((c ≫= f) s).1 = AssertionFailed msg.
Proof. unfold_comp. destruct (c s) as [[a|m| |code] s']; cbn; congruence. Qed.

End Loops.

(** Computations that stop on known assertions only. *)
Section Stops.
Context {St : Type}.
Variable M : string → Prop.

Lemma stopsWithin_ret {A} (a : A) : stopsWithin M (mret a : Comp St A).
Proof. done. Qed.

Lemma stopsWithin_undefined {A} : stopsWithin M (undefined : Comp St A).
Proof. done. Qed.

Lemma stopsWithin_abort {A} msg : M msg → stopsWithin M (abort msg : Comp St A).
Proof. by intros H s. Qed.

Lemma stopsWithin_assert b msg : M msg → stopsWithin M (assert b msg : Comp St unit).
Proof. intros H s. by destruct b. Qed.

Lemma stopsWithin_modify (f : St → St) : stopsWithin M (modify f).
Proof. done. Qed.

Lemma stopsWithin_put (s0 : St) : stopsWithin M (put s0).
Proof. done. Qed.

Lemma stopsWithin_bind {A B} (c : Comp St A) (f : A → Comp St B) :
  stopsWithin M c → (∀ a, stopsWithin M (f a)) → stopsWithin M (c ≫= f).
Proof.
  intros Hc Hf s. specialize (Hc s). unfold_comp.
  destruct (c s) as [[a|msg| |code] s1]; cbn in *; try done. apply Hf.
Qed.

Lemma stopsWithin_forRange n : ∀ start (body : nat → Comp St unit),
  (∀ i, stopsWithin M (body i)) → stopsWithin M (forRange start n body).
Proof.
  induction n as [|n IH]; intros start body Hb; cbn [forRange].
  - apply stopsWithin_ret.
  - apply stopsWithin_bind; [apply Hb|]. intros _. by apply IH.
Qed.

Lemma stopsWithin_weaken (M' : string → Prop) {A} (c : Comp St A) :
  (∀ msg, M' msg → M msg) → stopsWithin M' c → stopsWithin M c.
Proof.
  intros HM Hc s. specialize (Hc s).
  destruct (c s) as [[a|msg| |code] s1]; cbn in *; auto.
Qed.
End Stops.

End CompFacts.

(** * Facts about the execution engine *)

Module EngineFacts.
Import ExecutionEngine CompFacts.

Ltac unfold_engine :=
  unfold derefIR, derefVar, setIR, setBackend_, setPayload, setModule,
    putEngine, getEngine, getTrainCounter, setTrainCounter, emit, index,
    drop_front in *.

Section Facts.
Context `{GO : GlowOps}.

Implicit Types (m : GlowModule) (v : VarPtr) (t : Tensor) (id : VarId).

(** *** The compilation pipeline *)

(** Claim C1. For every mode and Function, on an engine whose IR container
    exists, [generateIR] resets the engine and verifies the Function; when
    verification fails it stops there with that failure; otherwise it
    succeeds and the trace is extended by exactly [pipelineEvents]: optimize,
    the pre-lowering hook, a second optimize exactly when the hook reported
    a change, lower, optimize, the post-lowering hook, an optimize exactly
    when it reported a change, bind the IR to the graph, generate the IR,
    optimize the IR. *)
Theorem generateIR_sequence (mode : CompilationMode) (F : FunId)
    (e : Engine) (p : Process) (ir : IRFunction) :
  IR_ e = Some ir →
  let r := generateIR mode F (mkState e p) in
  let kind := backendKind_ e in
  let m1 := optimizeGraph F mode (M_ e) in
  let pre := transformPreLowering (createBackend kind (clear ir)) F mode m1 in
  let m2 := if pre.1.1 then optimizeGraph F mode pre.1.2 else pre.1.2 in
  let m3 := optimizeGraph F mode (lower F mode pre.2 m2) in
  let post := transformPostLowering pre.2 F mode m3 in
  let m4 := if post.1.1 then optimizeGraph F mode post.1.2 else post.1.2 in
  match verify F (M_ e) with
  | Some msg =>
      r.1 = AssertionFailed msg
      ∧ trace (proc r.2) = trace p ++ rejectedEvents kind F
  | None =>
      r.1 = Ok tt
      ∧ trace (proc r.2) = trace p ++ pipelineEvents kind mode F pre.1.1 post.1.1
      ∧ M_ (this r.2) = m4
      ∧ IR_ (this r.2)
        = Some (optimizeIR mode post.2 (irGenerate m4 (setGraph F (clear ir))))
  end.
Proof.
  intros HIR. cbv zeta.
  unfold generateIR, reset, callVerify, callOptimizeGraph,
    callTransformPreLowering, callLower, callTransformPostLowering,
    callSetGraph, callGenerateIR, callOptimizeIR, derefIR, setIR, setBackend_,
    setModule, putEngine, getEngine, emit.
  unfold_comp. cbn. rewrite HIR. cbn.
  destruct (verify F (M_ e)) as [msg|]; cbn.
  { split; [done|]. unfold rejectedEvents. by rewrite <- !app_assoc. }
  destruct (transformPreLowering _ F mode _) as [[pre m] b]; cbn.
  destruct pre; cbn;
    destruct (transformPostLowering _ F mode _) as [[post m'] b']; cbn;
    destruct post; cbn; unfold pipelineEvents; rewrite <- !app_assoc; done.
Qed.
(** *** Binding a payload and the Variables of the Module *)

Lemma lookup_withPayload m id id' t :
  variables (withPayload id t m) !! id'
  = (λ var, if decide (id = id')
            then mkVar (visibility var) (varType var) t else var)
    <$> variables m !! id'.
Proof.
  unfold withPayload; cbn. rewrite lookup_alter.
  destruct (decide (id = id')) as [->|Hne]; destruct (variables m !! id'); done.
Qed.

Lemma bindable_withPayload m id t v' t' :
  bindable m (Some id) t →
  bindable (withPayload id t m) v' t' ↔ bindable m v' t'.
Proof.
  intros (id0 & var0 & [= <-] & Hl0 & Hp0 & Hd0). split.
  - intros (id' & var' & -> & Hl & Hp & Hd).
    rewrite lookup_withPayload in Hl.
    destruct (variables m !! id') as [var|] eqn:E; [|done].
    exists id', var. cbn in Hl. injection Hl as <-.
    destruct (decide (id = id')) as [->|]; cbn in *; [|done].
    rewrite Hl0 in E; injection E as ->. split_and!; congruence.
  - intros (id' & var' & -> & Hl & Hp & Hd).
    eexists id', _. rewrite lookup_withPayload, Hl. cbn.
    split_and!; [done..| |]; destruct (decide (id = id')) as [->|]; cbn; try done.
    rewrite Hl0 in Hl; injection Hl as ->. congruence.
Qed.

Lemma Forall2_bindable_withPayload m id t vs ts :
  bindable m (Some id) t →
  Forall2 (bindable (withPayload id t m)) vs ts ↔ Forall2 (bindable m) vs ts.
Proof.
  intros Hb. split; intros H; induction H; constructor; try done;
    by apply (bindable_withPayload m id t).
Qed.

(** *** One step of the loop of [run] *)

Lemma run_step_bindable vars inputs i v t k m ir b c tr :
  vars !! i = Some v → inputs !! i = Some t → bindable m v t →
  ∃ id, v = Some id
    ∧ run_step vars inputs i (mkState (mkEngine k m ir b) (mkProcess c tr))
      = (Ok tt, mkState (mkEngine k (withPayload id t m) ir b)
                        (mkProcess c (tr ++ [EvCopyFrom id t]))).
Proof.
  intros Hv Ht (id & var & -> & Hl & Hp & Hd). exists id. split; [done|].
  unfold run_step, loadValueFromTensor. unfold_engine. unfold_comp. cbn.
  rewrite Hv, Ht. cbn. rewrite Hl. cbn.
  rewrite !bool_decide_eq_true_2 by done. cbn. rewrite Hl. cbn.
  rewrite bool_decide_eq_true_2 by done. done.
Qed.

Lemma run_step_not_bindable vars inputs i v t s :
  vars !! i = Some v → inputs !! i = Some t →
  ¬ bindable (M_ (this s)) v t →
  (run_step vars inputs i s).1 ≠ Ok tt ∧ (run_step vars inputs i s).2 = s.
Proof.
  intros Hv Ht Hnb.
  unfold run_step, loadValueFromTensor. unfold_engine. unfold_comp. cbn.
  rewrite Hv, Ht. cbn.
  destruct v as [id|]; cbn; [|done].
  destruct (variables (M_ (this s)) !! id) as [var|] eqn:Hl; cbn; [|done].
  case_bool_decide as Hp; cbn; [|done]. rewrite Hl. cbn.
  case_bool_decide as Hd; cbn; [|done].
  destruct Hnb. by exists id, var.
Qed.

#[local] Instance bindable_dec m v t : Decision (bindable m v t).
Proof.
  destruct v as [id|]; [|right; by intros (? & ? & [=] & _)].
  destruct (variables m !! id) as [var|] eqn:Hl;
    [|right; intros (? & ? & [= <-] & ? & _); congruence].
  destruct (decide (visibility var = Public ∧ tdims (payload var) = tdims t))
    as [[Hp Hd]|Hn].
  - left. by exists id, var.
  - right. intros (? & ? & [= <-] & ? & ? & ?). apply Hn. split; congruence.
Defined.

(** *** The loop of [run] *)

Lemma run_loop vs : ∀ ts pre_v pre_t k m ir b c tr,
  length vs = length ts → length pre_v = length pre_t →
  let r := forRange (length pre_v) (length vs)
             (run_step (pre_v ++ vs) (pre_t ++ ts))
             (mkState (mkEngine k m ir b) (mkProcess c tr)) in
  ∃ n, (n ≤ length vs)%nat
    ∧ r.2 = mkState (mkEngine k (bindInputs (take n vs) (take n ts) m) ir b)
                    (mkProcess c (tr ++ copyEvents (take n vs) (take n ts)))
    ∧ (Forall2 (bindable m) vs ts → r.1 = Ok tt ∧ n = length vs)
    ∧ (r.1 = Ok tt → Forall2 (bindable m) vs ts).
Proof.
  induction vs as [|v vs IH]; intros [|t ts] pre_v pre_t k m ir b c tr Hlen Hpre;
    try discriminate; cbn zeta.
  { exists 0%nat. cbn. rewrite app_nil_r. by split_and!. }
  cbn [length forRange].
  assert (Hv : (pre_v ++ v :: vs) !! length pre_v = Some v)
    by (apply list_lookup_middle; done).
  assert (Ht : (pre_t ++ t :: ts) !! length pre_v = Some t)
    by (apply list_lookup_middle; done).
  destruct (decide (bindable m v t)) as [Hb|Hnb].
  - destruct (run_step_bindable _ _ _ _ _ k m ir b c tr Hv Ht Hb)
      as (id & -> & Hstep).
    rewrite (bind_ok _ _ _ _ _ Hstep).
    specialize (IH ts (pre_v ++ [Some id]) (pre_t ++[t]) k
                  (withPayload id t m) ir b c (tr ++ [EvCopyFrom id t])).
    rewrite !length_app, <- !app_assoc in IH. cbn in IH.
    rewrite Nat.add_1_r in IH.
    destruct IH as (n & Hn & Hst & Hok & Hinv); [by injection Hlen| lia |].
    exists (S n). cbn [take bindInputs copyEvents length].
    split_and!.
    + lia.
    + rewrite Hst. by rewrite <- app_assoc.
    + intros HF. inversion HF; subst.
      destruct Hok as [-> ->]; [by apply Forall2_bindable_withPayload|done].
    + intros Hr. constructor; [done|].
      by apply (Forall2_bindable_withPayload m id t), Hinv.
  - destruct (run_step_not_bindable (pre_v ++ v :: vs) (pre_t ++ t :: ts)
                (length pre_v) v t
                (mkState (mkEngine k m ir b) (mkProcess c tr)) Hv Ht Hnb)
      as [Hne Hsame].
    assert (Hf : is_ok (run_step (pre_v ++ v :: vs) (pre_t ++ t :: ts)
                   (length pre_v)
                   (mkState (mkEngine k m ir b) (mkProcess c tr))).1 = false).
    { destruct (is_ok _) eqn:E; [|done]. by apply is_ok_unit in E. }
    destruct (bind_not_ok _
                (λ _, forRange (S (length pre_v)) (length vs)
                        (run_step (pre_v ++ v :: vs) (pre_t ++ t :: ts)))
                _ Hf) as [Hf' Hst].
    exists 0%nat. cbn [take bindInputs copyEvents].
    split_and!.
    + lia.
    + rewrite app_nil_r. etrans; [exact Hst|done].
    + intros HF. by inversion HF.
    + intros Hr. exfalso. apply is_ok_unit in Hr. congruence.
Qed.

(** *** Payloads after binding *)

Lemma payloadOf_withPayload_eq m id t :
  is_Some (variables m !! id) → payloadOf (withPayload id t m) (Some id) = Some t.
Proof.
  intros [var Hl]. unfold payloadOf. cbn [mbind option_bind].
  rewrite lookup_withPayload, Hl. cbn. by rewrite decide_True.
Qed.

Lemma payloadOf_withPayload_ne m id id' t :
  id ≠ id' → payloadOf (withPayload id t m) (Some id') = payloadOf m (Some id').
Proof.
  intros Hne. unfold payloadOf. cbn [mbind option_bind].
  rewrite lookup_withPayload.
  destruct (variables m !! id'); cbn; [|done]. by rewrite decide_False.
Qed.

Lemma lookup_withPayload_is_Some m id id' t :
  is_Some (variables (withPayload id t m) !! id') ↔ is_Some (variables m !! id').
Proof. rewrite lookup_withPayload. apply fmap_is_Some. Qed.

Lemma lookup_bindInputs_is_Some vs : ∀ ts m id',
  is_Some (variables (bindInputs vs ts m) !! id') ↔ is_Some (variables m !! id').
Proof.
  induction vs as [|[id|] vs IH]; intros [|t ts] m id'; cbn; try done.
  rewrite IH. apply lookup_withPayload_is_Some.
Qed.

Lemma payloadOf_bindInputs_notin vs : ∀ ts m id,
  Some id ∉ vs → payloadOf (bindInputs vs ts m) (Some id) = payloadOf m (Some id).
Proof.
  induction vs as [|[id'|] vs IH]; intros [|t ts] m id Hn;
    cbn [bindInputs]; try done.
  apply not_elem_of_cons in Hn as [Hne Hn].
  rewrite IH by done. apply payloadOf_withPayload_ne. congruence.
Qed.

Lemma bindInputs_app vs : ∀ ts vs' ts' m,
  length vs = length ts → Forall is_Some vs →
  bindInputs (vs ++ vs') (ts ++ ts') m = bindInputs vs' ts' (bindInputs vs ts m).
Proof.
  induction vs as [|v vs IH]; intros [|t ts] vs' ts' m Hlen HF;
    try discriminate; [done|].
  inversion HF as [|? ? [id ->] HF']; subst. cbn.
  apply IH; [by injection Hlen|done].
Qed.

Lemma Forall2_bindable_is_Some m vs ts :
  Forall2 (bindable m) vs ts → Forall is_Some vs.
Proof.
  induction 1 as [|v t vs ts (id & ? & -> & _)]; constructor; eauto.
Qed.

Lemma bindInputs_payload m vars inputs i v t :
  Forall2 (bindable m) vars inputs →
  vars !! i = Some v → inputs !! i = Some t →
  payloadOf (bindInputs (take (S i) vars) (take (S i) inputs) m) v = Some t
  ∧ (v ∉ drop (S i) vars → payloadOf (bindInputs vars inputs m) v = Some t).
Proof.
  intros HF Hv Ht.
  pose proof (Forall2_length _ _ _ HF) as Hlen.
  pose proof (Forall2_bindable_is_Some _ _ _ HF) as HS.
  destruct (Forall2_lookup_lr _ _ _ _ _ _ HF Hv Ht)
    as (id & var & -> & Hl & _).
  assert (Hafter :
    payloadOf (bindInputs (take (S i) vars) (take (S i) inputs) m) (Some id)
    = Some t).
  { rewrite (take_S_r _ _ _ Hv), (take_S_r _ _ _ Ht).
    rewrite bindInputs_app.
    - cbn [bindInputs]. apply payloadOf_withPayload_eq.
      apply lookup_bindInputs_is_Some. by exists var.
    - rewrite !length_take. f_equal. exact Hlen.
    - by apply Forall_take. }
  split; [done|]. intros Hnotin.
  rewrite <- (take_drop (S i) vars) at 1.
  rewrite <- (take_drop (S i) inputs) at 1.
  rewrite bindInputs_app.
  - by rewrite payloadOf_bindInputs_notin.
  - rewrite !length_take. f_equal. exact Hlen.
  - by apply Forall_take.
Qed.

(** *** [run] *)

Lemma doForwardPass_spec k m ir b c tr :
  doForwardPass (mkState (mkEngine k m (Some ir) b) (mkProcess c tr))
  = (Ok tt, mkState (mkEngine k (backendForwardPass b ir m).2 (Some ir)
                       (backendForwardPass b ir m).1)
                    (mkProcess c (tr ++ [EvDoForwardPass]))).
Proof.
  unfold doForwardPass. unfold_engine. unfold_comp. cbn.
  by destruct (backendForwardPass b ir m).
Qed.

(** Claim C2. [run] succeeds exactly when there are as many inputs as
    Variables, the IR holds instructions and every Variable is a Public
    Variable whose payload has the shape of its input. When it succeeds,
    the trace is extended by one full copy per Variable, in order, followed
    by one forward pass; the forward pass runs on the Module in which each
    Variable was bound; right after its copy the payload of a Variable is
    its input, and it still is when the forward pass starts unless the
    Variable is bound again later in the same call. When [run] fails, only
    copies were made: no forward pass ran. *)
Theorem run_binds_inputs_then_runs (vars : list VarPtr)
    (inputs : list Tensor) (e : Engine) (p : Process) :
  let r := run vars inputs (mkState e p) in
  let bound := bindInputs vars inputs (M_ e) in
  (r.1 = Ok tt ↔
     length inputs = length vars
     ∧ (∃ ir, IR_ e = Some ir ∧ instrs ir ≠ [])
     ∧ Forall2 (bindable (M_ e)) vars inputs)
  ∧ (r.1 = Ok tt →
       trace (proc r.2) = trace p ++ copyEvents vars inputs ++ [EvDoForwardPass]
       ∧ (∀ ir, IR_ e = Some ir →
            (backend_ (this r.2), M_ (this r.2))
            = backendForwardPass (backend_ e) ir bound)
       ∧ ∀ i v t, vars !! i = Some v → inputs !! i = Some t →
           payloadOf (bindInputs (take (S i) vars) (take (S i) inputs) (M_ e)) v
           = Some t
           ∧ (v ∉ drop (S i) vars → payloadOf bound v = Some t))
  ∧ (r.1 ≠ Ok tt →
       ∃ n, trace (proc r.2)
            = trace p ++ copyEvents (take n vars) (take n inputs)).
Proof.
  destruct e as [k m oir b], p as [c tr]. cbn zeta. cbn [M_ IR_ backend_ trace].
  unfold run.
  destruct (decide (length inputs = length vars)) as [Hlen|Hlen].
  2:{ unfold_engine. unfold_comp. cbn. rewrite bool_decide_eq_false_2 by done.
      cbn. split_and!; [split; [done|tauto]|done|].
      intros _. exists 0%nat. cbn. by rewrite app_nil_r. }
  destruct oir as [ir|].
  2:{ unfold_engine. unfold_comp. cbn. rewrite bool_decide_eq_true_2 by done.
      cbn. split_and!; [split; [done|]|done|].
      - by intros (_ & (? & [=] & _) & _).
      - intros _. exists 0%nat. cbn. by rewrite app_nil_r. }
  destruct (decide (instrs ir = [])) as [Hi|Hi].
  { unfold_engine. unfold_comp. cbn. rewrite bool_decide_eq_true_2 by done.
    cbn. rewrite bool_decide_eq_true_2 by done. cbn.
    split_and!; [split; [done|]|done|].
    - intros (_ & (? & [= <-] & ?) & _). done.
    - intros _. exists 0%nat. cbn. by rewrite app_nil_r. }
  pose proof (run_loop vars inputs [] [] k m (Some ir) b c tr
                (eq_sym Hlen) eq_refl) as (n & Hn & Hst & Hok & Hinv).
  cbn [app length] in Hst, Hok, Hinv.
  set (loop := forRange 0 (length vars) (run_step vars inputs)) in *.
  assert (Hpre : ∀ (f : Method unit),
    (assert (bool_decide (length inputs = length vars))
         "The number of inputs does not match the number of variables";;
       ir ← derefIR;
       assert (negb (bool_decide (instrs ir = [])))
         "Running a function with no instructions.";;
       f) (mkState (mkEngine k m (Some ir) b) (mkProcess c tr))
    = f (mkState (mkEngine k m (Some ir) b) (mkProcess c tr))).
  { intros f. unfold_engine. unfold_comp. cbn.
    rewrite bool_decide_eq_true_2 by done. cbn.
    rewrite bool_decide_eq_false_2 by done. done. }
  rewrite Hpre. clear Hpre.
  destruct (loop _) as [o s'] eqn:Hloop. cbn [fst snd] in *. subst s'.
  destruct (decide (Forall2 (bindable m) vars inputs)) as [HF|HnF].
  - destruct (Hok HF) as [-> ->].
    rewrite (take_ge vars), (take_ge inputs) in Hloop
      by (first [apply Nat.eq_le_incl; reflexivity | apply Nat.eq_le_incl; exact Hlen]).
    rewrite (bind_ok _ _ _ _ _ Hloop), doForwardPass_spec.
    cbn [fst snd this proc trace M_ backend_].
    split_and!.
    + split; [|done]. intros _. split_and!; eauto.
    + intros _. split_and!.
      * by rewrite <- app_assoc.
      * intros ? [= <-]. by destruct (backendForwardPass _ _ _).
      * intros i v t. by apply bindInputs_payload.
    + done.
  - assert (Ho : o ≠ Ok tt) by tauto.
    unfold mbind, Comp_bind, comp_bind. rewrite Hloop.
    destruct o as [[]| | |]; [done|..]; cbn [fst snd this proc trace];
      (split_and!; [split; [done|tauto] | done | intros _; by exists n]).
Qed.


(** *** Methods that only append events *)

#[local] Instance keepsCursor_refl : Reflexive keepsCursor.
Proof. by intros s. Qed.

#[local] Instance keepsCursor_trans : Transitive keepsCursor.
Proof. unfold keepsCursor. intros s1 s2 s3 H1 H2. congruence. Qed.

Lemma appends_ret P {A} (a : A) : appends P (mret a).
Proof. apply appendsOn_ret; apply _. Qed.

Lemma appends_bind P {A B} (c : Method A) (f : A → Method B) :
  appends P c → (∀ a, appends P (f a)) → appends P (c ≫= f).
Proof. apply appendsOn_bind; apply _. Qed.

Lemma appends_abort P {A} msg : appends P (abort msg : Method A).
Proof. apply appendsOn_abort; apply _. Qed.

Lemma appends_undefined P {A} : appends P (undefined : Method A).
Proof. apply appendsOn_undefined; apply _. Qed.

Lemma appends_assert P b msg : appends P (assert b msg : Method unit).
Proof. apply appendsOn_assert; apply _. Qed.

Lemma appends_index P {A} (l : list A) i : appends P (index l i : Method A).
Proof. apply appendsOn_index; apply _. Qed.

Lemma appends_drop_front P {A} (l : list A) :
  appends P (drop_front l : Method (list A)).
Proof. apply appendsOn_drop_front; apply _. Qed.

Lemma appends_forRange P n start (body : nat → Method unit) :
  (∀ i, appends P (body i)) → appends P (forRange start n body).
Proof. apply appendsOn_forRange; apply _. Qed.

Lemma appends_weaken (P Q : Event → Prop) {A} (c : Method A) :
  (∀ ev, P ev → Q ev) → appends P c → appends Q c.
Proof. apply appendsOn_weaken. Qed.

Lemma appends_index_bind P {A B} (l : list A) i (f : A → Method B) :
  (∀ x, l !! i = Some x → appends P (f x)) → appends P (index l i ≫= f).
Proof. apply appendsOn_index_bind; apply _. Qed.

Lemma appends_undefined_bind P {A B} (f : A → Method B) :
  appends P (undefined ≫= f).
Proof. apply appendsOn_undefined_bind; apply _. Qed.

Lemma appends_ret_bind P {A B} (a : A) (f : A → Method B) :
  appends P (f a) → appends P (mret a ≫= f).
Proof. apply appendsOn_ret_bind. Qed.

Lemma appends_emit (P : Event → Prop) ev : P ev → appends P (emit ev).
Proof.
  intros HP. apply appendsOn_modify. intros s. split; [done|].
  exists [ev]. split; [done|]. by constructor.
Qed.

Lemma appends_getEngine P : appends P getEngine.
Proof. by apply silent. Qed.

Lemma appends_putEngine P e : appends P (putEngine e).
Proof.
  apply appendsOn_modify. intros s. split; [done|].
  exists []. by rewrite app_nil_r.
Qed.

Lemma appends_getTrainCounter P : appends P getTrainCounter.
Proof. by apply silent. Qed.

Ltac appends_step :=
  first
    [ apply appends_ret | apply appends_abort | apply appends_undefined
    | apply appends_assert | apply appends_getEngine | apply appends_putEngine
    | apply appends_getTrainCounter | apply appends_index
    | apply appends_drop_front
    | apply appends_bind; [|intros ?]
    | apply appends_forRange; intros ?
    | match goal with
      | |- appends _ (match ?x with _ => _ end) => destruct x
      | |- appends _ (let '(_, _) := ?x in _) => destruct x
      end ].

Ltac appends_auto := repeat appends_step.

Lemma appends_derefIR P : appends P derefIR.
Proof. unfold derefIR. appends_auto. Qed.

Lemma appends_derefVar P v : appends P (derefVar v).
Proof. unfold derefVar. appends_auto. Qed.

Lemma appends_setIR P ir : appends P (setIR ir).
Proof. unfold setIR. appends_auto. Qed.

Lemma appends_setBackend_ P b : appends P (setBackend_ b).
Proof. unfold setBackend_. appends_auto. Qed.

Lemma appends_setModule P m : appends P (setModule m).
Proof. unfold setModule. appends_auto. Qed.

Lemma appends_setPayload P id t : appends P (setPayload id t).
Proof. unfold setPayload. appends_auto. Qed.

Ltac appends_any :=
  repeat first
    [ appends_step
    | apply appends_derefIR | apply appends_derefVar | apply appends_setIR
    | apply appends_setBackend_ | apply appends_setModule
    | apply appends_setPayload
    | apply appends_emit; exact I ].

(** *** Slice copies *)

Lemma size_t_mod_range c d : is_size_t d → d ≠ 0%Z → (0 ≤ c `mod` d < d)%Z.
Proof. intros [Hd _] Hne. apply Z.mod_pos_bound. lia. Qed.

Lemma loadValueFromTensorSlice_within v input c :
  wfTensor input → appends (sliceWithin c) (loadValueFromTensorSlice v input c).
Proof.
  intros Hwf. unfold loadValueFromTensorSlice.
  apply appends_bind; [apply appends_assert|]. intros _.
  apply appends_bind; [apply appends_derefVar|]. intros [id var].
  apply appends_bind; [apply appends_drop_front|]. intros tl_t.
  apply appends_bind; [apply appends_drop_front|]. intros tl_dim.
  apply appends_bind; [apply appends_assert|]. intros _.
  apply appends_index_bind. intros dim0 Hd.
  destruct (tdims input) as [|d ds] eqn:Hdims; [done|]. injection Hd as ->.
  case_bool_decide as Hz; [apply appends_undefined_bind|].
  apply appends_ret_bind.
  apply appends_bind.
  - apply appends_emit. exists dim0, ds. split; [done|split; [done|]].
    apply size_t_mod_range; [|done].
    unfold wfTensor in Hwf. rewrite Hdims in Hwf. by inversion Hwf.
  - intros _. destruct (copyConsecutiveSlices _ _ _);
      [apply appends_setPayload|apply appends_abort].
Qed.

Lemma loadValueFromTensorSlice_ok v input c s s' :
  loadValueFromTensorSlice v input c s = (Ok tt, s') →
  ∃ id, v = Some id
    ∧ trace (proc s')
      = trace (proc s) ++ [EvCopyConsecutiveSlices id input (sliceIndex c input)]
    ∧ trainCounter (proc s') = trainCounter (proc s).
Proof.
  unfold loadValueFromTensorSlice, sliceIndex. unfold_engine. unfold_comp. cbn.
  destruct v as [id|]; cbn; [|done].
  destruct (variables (M_ (this s)) !! id) as [var|]; cbn; [|done].
  destruct (tdims (payload var)) as [|? tl_t]; cbn; [done|].
  destruct (tdims input) as [|d ds]; cbn; [done|].
  case_bool_decide; cbn; [|done].
  case_bool_decide; cbn; [done|].
  destruct (copyConsecutiveSlices _ _ _); cbn; [|done].
  intros [= <-]. cbn. by exists id.
Qed.

Lemma updateInputs_step_within vars inputs c i :
  Forall wfTensor inputs →
  appends (sliceWithin c) (updateInputs_step vars inputs c i).
Proof.
  intros Hwf. unfold updateInputs_step.
  apply appends_bind; [apply appends_index|]. intros v.
  apply appends_index_bind. intros input Hin.
  apply loadValueFromTensorSlice_within.
  eapply Forall_lookup_1; eauto.
Qed.

Lemma doForwardPass_appends : appends (λ ev, ev = EvDoForwardPass) doForwardPass.
Proof.
  unfold doForwardPass.
  apply appends_bind; [apply appends_getEngine|]. intros e.
  apply appends_bind; [apply appends_derefIR|]. intros ir.
  apply appends_bind; [by apply appends_emit|]. intros _.
  destruct (backendForwardPass _ _ _). apply appends_putEngine.
Qed.

Lemma updateInputsAndRunNetwork_within vars inputs c :
  Forall wfTensor inputs →
  appends (sliceWithin c) (updateInputsAndRunNetwork vars inputs c).
Proof.
  intros Hwf. unfold updateInputsAndRunNetwork.
  apply appends_bind.
  - apply appends_forRange. intros i. by apply updateInputs_step_within.
  - intros _. eapply appends_weaken; [|apply doForwardPass_appends].
    by intros ev ->.
Qed.

Lemma doForwardPass_ok s s' :
  doForwardPass s = (Ok tt, s') →
  trace (proc s') = trace (proc s) ++ [EvDoForwardPass]
  ∧ trainCounter (proc s') = trainCounter (proc s).
Proof.
  unfold doForwardPass. unfold_engine. unfold_comp. cbn.
  destruct (IR_ (this s)); cbn; [|done].
  destruct (backendForwardPass _ _ _). by intros [= <-].
Qed.

Lemma updateInputs_loop_ok c vs : ∀ ts pre_v pre_t s s',
  length vs = length ts → length pre_v = length pre_t →
  forRange (length pre_v) (length vs)
    (updateInputs_step (pre_v ++ vs) (pre_t ++ ts) c) s = (Ok tt, s') →
  trace (proc s') = trace (proc s) ++ sliceEvents vs ts c
  ∧ trainCounter (proc s') = trainCounter (proc s).
Proof.
  induction vs as [|v vs IH]; intros [|t ts] pre_v pre_t s s' Hlen Hpre;
    try discriminate; cbn [length forRange sliceEvents].
  { intros [= <-]. by rewrite app_nil_r. }
  intros H. apply bind_ok_inv in H as ([] & s1 & Hstep & Hrest).
  unfold updateInputs_step in Hstep.
  unfold index in Hstep.
  rewrite list_lookup_middle in Hstep by done.
  rewrite list_lookup_middle in Hstep by done.
  change (loadValueFromTensorSlice v t c s = (Ok tt, s1)) in Hstep.
  apply loadValueFromTensorSlice_ok in Hstep as (id & -> & Htr & Hcur).
  specialize (IH ts (pre_v ++ [Some id]) (pre_t ++ [t]) s1 s').
  rewrite !length_app, <- !app_assoc in IH. cbn in IH.
  rewrite Nat.add_1_r in IH.
  destruct IH as [Htr' Hcur']; [by injection Hlen|lia|done|].
  split; [|congruence]. rewrite Htr', Htr. by rewrite <- app_assoc.
Qed.

Lemma updateInputsAndRunNetwork_ok vars inputs c s s' :
  length inputs = length vars →
  updateInputsAndRunNetwork vars inputs c s = (Ok tt, s') →
  trace (proc s')
  = trace (proc s) ++ sliceEvents vars inputs c ++ [EvDoForwardPass]
  ∧ trainCounter (proc s') = trainCounter (proc s).
Proof.
  intros Hlen H. unfold updateInputsAndRunNetwork in H.
  apply bind_ok_inv in H as ([] & s1 & Hloop & Hfp).
  apply (updateInputs_loop_ok c vars inputs [] []) in Hloop as [Htr Hcur];
    [|done..].
  apply doForwardPass_ok in Hfp as [Htr' Hcur'].
  split; [|congruence]. rewrite Htr', Htr. by rewrite <- app_assoc.
Qed.

(** *** The cursor *)

Lemma cursorAt_shift c B j : cursorAt (wrap (c + B)) B j = cursorAt c B (S j).
Proof. induction j as [|j IH]; [done|]. cbn [cursorAt] in *. by rewrite IH. Qed.

Lemma cursorAt_closed c B j :
  is_size_t c → cursorAt c B j = wrap (c + Z.of_nat j * B).
Proof.
  intros Hc. induction j as [|j IH]; cbn [cursorAt].
  - unfold wrap. rewrite Z.mod_small; [lia|]. unfold is_size_t in Hc. lia.
  - rewrite IH. unfold wrap. rewrite Zplus_mod_idemp_l. f_equal. lia.
Qed.

(** *** The loop of [runBatch] *)

Lemma runBatch_step_cases vars inputs B i s :
  let c := trainCounter (proc s) in
  let r := updateInputsAndRunNetwork vars inputs c s in
  (r.1 = Ok tt
   ∧ runBatch_step vars inputs B i s
     = (Ok tt, mkState (this r.2) (mkProcess (wrap (c + B)) (trace (proc r.2)))))
  ∨ (r.1 ≠ Ok tt
     ∧ is_ok (runBatch_step vars inputs B i s).1 = false
     ∧ (runBatch_step vars inputs B i s).2 = r.2).
Proof.
  cbn zeta. unfold runBatch_step, getTrainCounter, setTrainCounter.
  unfold_comp. cbn.
  destruct (updateInputsAndRunNetwork _ _ _ s) as [[[]| | |] s1]; cbn;
    [left|right..]; done.
Qed.

Lemma runBatch_loop_ok vars inputs B k : ∀ i s s',
  length inputs = length vars →
  forRange i k (runBatch_step vars inputs B) s = (Ok tt, s') →
  trace (proc s')
  = trace (proc s) ++ batchEvents vars inputs (trainCounter (proc s)) B k
  ∧ trainCounter (proc s') = cursorAt (trainCounter (proc s)) B k.
Proof.
  induction k as [|k IH]; intros i s s' Hlen; cbn [forRange batchEvents].
  { intros [= <-]. by rewrite app_nil_r. }
  intros H. apply bind_ok_inv in H as ([] & s1 & Hstep & Hrest).
  destruct (runBatch_step_cases vars inputs B i s) as [[Hok Heq]|(_ & Hf & _)].
  2:{ rewrite Hstep in Hf. done. }
  rewrite Hstep in Heq. injection Heq as ->.
  destruct (updateInputsAndRunNetwork _ _ _ s) as [o s2] eqn:Hup.
  cbn [fst snd] in *. subst o.
  apply updateInputsAndRunNetwork_ok in Hup as [Htr Hcur]; [|done].
  apply IH in Hrest as [Htr' Hcur']; [|done]. cbn [proc trace trainCounter] in *.
  split.
  - rewrite Htr', Htr. by rewrite <- !app_assoc.
  - rewrite Hcur'. apply cursorAt_shift.
Qed.

Lemma runBatch_loop_within vars inputs B k : ∀ i s,
  Forall wfTensor inputs →
  let r := forRange i k (runBatch_step vars inputs B) s in
  ∃ groups,
    trace (proc r.2) = trace (proc s) ++ mjoin groups
    ∧ (length groups ≤ k)%nat
    ∧ ∀ j g, groups !! j = Some g →
        Forall (sliceWithin (cursorAt (trainCounter (proc s)) B j)) g.
Proof.
  induction k as [|k IH]; intros i s Hwf; cbn zeta; cbn [forRange].
  { exists []. cbn. rewrite app_nil_r. split_and!; [done..|]. by intros ? ? [=]. }
  destruct (updateInputsAndRunNetwork_within vars inputs
              (trainCounter (proc s)) Hwf s) as (Hcur & g0 & Htr & HP).
  destruct (runBatch_step_cases vars inputs B i s) as [[Hok Heq]|(_ & Hf & Hst)].
  - rewrite (bind_ok _ _ _ _ _ Heq).
    destruct (IH (S i) (mkState
        (this (updateInputsAndRunNetwork vars inputs (trainCounter (proc s)) s).2)
        (mkProcess (wrap (trainCounter (proc s) + B))
           (trace (proc (updateInputsAndRunNetwork vars inputs
                           (trainCounter (proc s)) s).2)))) Hwf)
      as (groups & Htr' & Hlen & Hg).
    cbn [proc trace trainCounter] in *.
    exists (g0 :: groups). split_and!.
    + rewrite Htr', Htr. cbn. by rewrite <- app_assoc.
    + cbn. lia.
    + intros [|j] g Hl; cbn in Hl.
      * by injection Hl as <-.
      * rewrite <- cursorAt_shift. by apply Hg.
  - destruct (bind_not_ok _
                (λ _, forRange (S i) k (runBatch_step vars inputs B)) _ Hf)
      as [_ Hst'].
    exists [g0]. split_and!.
    + etrans; [by rewrite Hst', Hst|]. cbn. by rewrite app_nil_r.
    + cbn. lia.
    + intros [|j] g Hl; cbn in Hl; [|done]. by injection Hl as <-.
Qed.

Lemma runBatch_prelude k vars inputs s :
  (∃ B, length inputs = length vars
      ∧ batchSizeOf (M_ (this s)) vars = Some B
      ∧ runBatch k vars inputs s
        = forRange 0 k (runBatch_step vars inputs B) s)
  ∨ (is_ok (runBatch k vars inputs s).1 = false
     ∧ (runBatch k vars inputs s).2 = s).
Proof.
  unfold runBatch, batchSizeOf. unfold_engine. unfold_comp. cbn.
  case_bool_decide; cbn; [by right|].
  case_bool_decide; cbn; [|by right].
  destruct (IR_ (this s)) as [ir|]; cbn; [|by right].
  case_bool_decide; cbn; [by right|].
  destruct vars as [|[id|] vars]; cbn; [by right| |by right].
  destruct (variables (M_ (this s)) !! id) as [var|]; cbn; [|by right].
  destruct (dims (varType var)) as [|B ?]; cbn; [by right|].
  left. by exists B.
Qed.

Lemma runBatch_ok k vars inputs e p e1 p1 :
  is_size_t (trainCounter p) →
  call (runBatch k vars inputs) e p = (Ok tt, e1, p1) →
  ∃ B, batchSizeOf (M_ e) vars = Some B
    ∧ trainCounter p1 = wrap (trainCounter p + Z.of_nat k * B)
    ∧ trace p1 = trace p ++ batchEvents vars inputs (trainCounter p) B k.
Proof.
  intros Hc. unfold call. cbn zeta.
  destruct (runBatch_prelude k vars inputs (mkState e p))
    as [(B & Hlen & HB & Heq)|[Hf _]].
  2:{ intros [= Ho _ _]. rewrite Ho in Hf. done. }
  rewrite Heq. destruct (forRange _ _ _ _) as [o s'] eqn:Hloop. cbn [fst snd].
  intros [= -> <- <-].
  apply runBatch_loop_ok in Hloop as [Htr Hcur]; [|done].
  exists B. cbn [this proc trainCounter trace M_] in *.
  split_and!; [done| |done]. rewrite Hcur. by apply cursorAt_closed.
Qed.

(** *** The engine after the iterations *)










(** *** Windows of consecutive samples *)




(** *** [runBatch] *)

(** Claim C10. Whatever the outcome of [runBatch], the events it appends
    fall into one group per iteration started, and in the group of
    iteration [j] every slice copy is passed the cursor of that iteration
    reduced modulo the leading dimension of its input, an index that is
    non-negative and below that dimension. *)
Theorem runBatch_slice_index_within (k : nat) (vars : list VarPtr)
    (inputs : list Tensor) (e : Engine) (p : Process) :
  Forall wfTensor inputs →
  let r := call (runBatch k vars inputs) e p in
  ∃ groups : list (list Event),
    trace r.2 = trace p ++ mjoin groups
    ∧ (length groups ≤ k)%nat
    ∧ ∀ j g, groups !! j = Some g →
        ∃ B, batchSizeOf (M_ e) vars = Some B
           ∧ Forall (sliceWithin (cursorAt (trainCounter p) B j)) g.
Proof.
  intros Hwf. unfold call. cbn zeta. cbn [snd].
  destruct (runBatch_prelude k vars inputs (mkState e p))
    as [(B & Hlen & HB & Heq)|[_ Hst]].
  - rewrite Heq.
    destruct (runBatch_loop_within vars inputs B k 0 (mkState e p) Hwf)
      as (groups & Htr & Hlen' & Hg).
    exists groups. split_and!; [done..|]. intros j g Hl. exists B. eauto.
  - rewrite Hst. exists []. cbn. rewrite app_nil_r.
    split_and!; [done|lia|]. by intros ? ? [=].
Qed.

(** *** [reset] *)

(** Claim C5. [reset] leaves the Module as it is; on an engine whose IR
    container exists it succeeds, the container keeps no instruction and no
    declaration, and the backend is the one [createBackend] makes for the
    kind of the engine, whatever the backend was before. *)
Theorem reset_clears_IR_keeps_Module (e : Engine) (p : Process) :
  let r := reset (mkState e p) in
  M_ (this r.2) = M_ e
  ∧ backendKind_ (this r.2) = backendKind_ e
  ∧ ∀ ir, IR_ e = Some ir →
      r.1 = Ok tt
      ∧ IR_ (this r.2) = Some (clear ir)
      ∧ instrs (clear ir) = [] ∧ weights (clear ir) = []
      ∧ backend_ (this r.2) = createBackend (backendKind_ e) (clear ir)
      ∧ ∀ b, this (reset (mkState (mkEngine (backendKind_ e) (M_ e) (IR_ e) b) p)).2
             = this r.2.
Proof.
  cbn zeta. unfold reset. unfold_engine. unfold_comp.
  destruct e as [k m [ir|] b]; cbn.
  - split; [done|split; [done|]]. intros ? [= <-]. by split_and!.
  - split; [done|split; [done|]]. by intros ? [=].
Qed.

(** *** Running needs instructions *)

(** Claim C6. On an engine whose IR holds no instruction, [run] and
    [runBatch] fail on an assertion and leave the engine and the process as
    they were: no Variable was bound and no forward pass ran. *)
Theorem run_and_runBatch_need_instructions (k : nat) (vars : list VarPtr)
    (inputs : list Tensor) (e : Engine) (p : Process) (ir : IRFunction) :
  IR_ e = Some ir → instrs ir = [] →
  (∃ msg, run vars inputs (mkState e p) = (AssertionFailed msg, mkState e p))
  ∧ (∃ msg, runBatch k vars inputs (mkState e p)
            = (AssertionFailed msg, mkState e p)).
Proof.
  intros HIR Hi. destruct e as [kind m oir b]. cbn in HIR. subst oir. split.
  - unfold run. unfold_engine. unfold_comp. cbn.
    case_bool_decide; cbn; [|by eexists].
    rewrite bool_decide_eq_true_2 by done. cbn. by eexists.
  - unfold runBatch. unfold_engine. unfold_comp. cbn.
    case_bool_decide; cbn; [by eexists|].
    case_bool_decide; cbn; [|by eexists].
    rewrite bool_decide_eq_true_2 by done. cbn. by eexists.
Qed.

(** *** The cursor belongs to the process *)

Lemma reset_appends : appends anyEvent reset.
Proof. unfold reset. appends_any. Qed.

Lemma generateIR_appends mode F : appends anyEvent (generateIR mode F).
Proof.
  unfold generateIR, callVerify, callOptimizeGraph, callTransformPreLowering,
    callLower, callTransformPostLowering, callSetGraph, callGenerateIR,
    callOptimizeIR.
  apply appends_bind; [apply reset_appends|]. intros _.
  appends_any.
Qed.

Lemma compile_appends mode F : appends anyEvent (compile mode F).
Proof.
  unfold compile. apply appends_bind; [apply generateIR_appends|]. intros _.
  appends_any.
Qed.

Lemma save_appends mode F dir : appends anyEvent (save mode F dir).
Proof.
  unfold save. apply appends_bind; [apply generateIR_appends|]. intros _.
  appends_any.
Qed.

Lemma run_appends vars inputs : appends anyEvent (run vars inputs).
Proof.
  unfold run, run_step, loadValueFromTensor.
  do 4 (apply appends_bind; [appends_any|intros ?]).
  eapply appends_weaken; [|apply doForwardPass_appends]. done.
Qed.

(** Claim C9, as amended. [reset], [compile] and [run] leave the cursor as
    it is. The cursor belongs to the process, not to an engine: after a
    [runBatch] on one engine, a [runBatch] on any engine starts from the
    cursor the first call left. *)
Theorem trainCounter_is_process_wide :
  (∀ s, trainCounter (proc (reset s).2) = trainCounter (proc s))
  ∧ (∀ mode F s, trainCounter (proc (compile mode F s).2) = trainCounter (proc s))
  ∧ (∀ vars inputs s,
       trainCounter (proc (run vars inputs s).2) = trainCounter (proc s))
  ∧ ∀ (kA kB : nat) varsA inputsA varsB inputsB (eA eA' eB eB' : Engine)
      (p p' p'' : Process),
      is_size_t (trainCounter p) →
      call (runBatch kA varsA inputsA) eA p = (Ok tt, eA', p') →
      call (runBatch kB varsB inputsB) eB p' = (Ok tt, eB', p'') →
      ∃ BA BB,
        batchSizeOf (M_ eA) varsA = Some BA
        ∧ batchSizeOf (M_ eB) varsB = Some BB
        ∧ trainCounter p' = wrap (trainCounter p + Z.of_nat kA * BA)
        ∧ trace p'' = trace p' ++ batchEvents varsB inputsB (trainCounter p') BB kB
        ∧ trainCounter p''
          = wrap (trainCounter p + Z.of_nat kA * BA + Z.of_nat kB * BB).
Proof.
  split_and!.
  - intros s. apply (reset_appends s).
  - intros mode F s. apply (compile_appends mode F s).
  - intros vars inputs s. apply (run_appends vars inputs s).
  - intros kA kB varsA inputsA varsB inputsB eA eA' eB eB' p p' p'' Hc HA HB.
    destruct (runBatch_ok _ _ _ _ _ _ _ Hc HA) as (BA & HBA & HcA & _).
    assert (Hc' : is_size_t (trainCounter p')).
    { rewrite HcA. by apply Z.mod_pos_bound. }
    destruct (runBatch_ok _ _ _ _ _ _ _ Hc' HB) as (BB & HBB & HcB & HtrB).
    exists BA, BB. split_and!; try done.
    rewrite HcB, HcA. unfold wrap. by rewrite Zplus_mod_idemp_l.
Qed.

(** ** Further facts about the engine *)

(** *** What [generateIR] leaves behind *)

Lemma generateIR_result mode F k m ir b p :
  generateIR mode F (mkState (mkEngine k m (Some ir) b) p)
  = match verify F m with
    | Some msg =>
        (AssertionFailed msg,
         mkState (mkEngine k m (Some (clear ir)) (createBackend k (clear ir)))
                 (mkProcess (trainCounter p) (trace p ++ rejectedEvents k F)))
    | None =>
        let m1 := optimizeGraph F mode m in
        let pre := transformPreLowering (createBackend k (clear ir)) F mode m1 in
        let m2 := if pre.1.1 then optimizeGraph F mode pre.1.2 else pre.1.2 in
        let m3 := optimizeGraph F mode (lower F mode pre.2 m2) in
        let post := transformPostLowering pre.2 F mode m3 in
        let m4 := if post.1.1 then optimizeGraph F mode post.1.2 else post.1.2 in
        (Ok tt,
         mkState (mkEngine k m4
                    (Some (optimizeIR mode post.2
                             (irGenerate m4 (setGraph F (clear ir)))))
                    post.2)
                 (mkProcess (trainCounter p)
                    (trace p ++ pipelineEvents k mode F pre.1.1 post.1.1)))
    end.
Proof.
  unfold generateIR, reset, callVerify, callOptimizeGraph,
    callTransformPreLowering, callLower, callTransformPostLowering,
    callSetGraph, callGenerateIR, callOptimizeIR.
  unfold_engine. unfold_comp. cbn.
  destruct (verify F m) as [msg|]; cbn.
  { unfold rejectedEvents. by rewrite <- !app_assoc. }
  destruct (transformPreLowering _ F mode _) as [[pre m'] b']; cbn.
  destruct pre; cbn;
    destruct (transformPostLowering _ F mode _) as [[post m''] b'']; cbn;
    destruct post; cbn; unfold pipelineEvents; by rewrite <- !app_assoc.
Qed.

Lemma backend_step_result (ev : Event) (next : Backend → IRFunction → GlowModule → Backend)
    k m ir b c tr :
  (e ← getEngine; ir ← derefIR; emit ev;;
   setBackend_ (next (backend_ e) ir (M_ e)))
    (mkState (mkEngine k m (Some ir) b) (mkProcess c tr))
  = (Ok tt, mkState (mkEngine k m (Some ir) (next b ir m))
                    (mkProcess c (tr ++ [ev]))).
Proof. unfold_engine. unfold_comp. done. Qed.

(** Property X1. [compile] and [save] run one and the same pipeline and
    differ in the last call only: [init] for the one, [save] for the other,
    on the IR and the Module the pipeline produced. When verification fails
    neither is called. *)
Theorem compile_and_save_share_the_pipeline (mode : CompilationMode)
    (F : FunId) (outputDir : string) (e : Engine) (p : Process)
    (ir : IRFunction) :
  IR_ e = Some ir →
  let g := generateIR mode F (mkState e p) in
  let c := compile mode F (mkState e p) in
  let s := save mode F outputDir (mkState e p) in
  match verify F (M_ e) with
  | Some msg => c = (AssertionFailed msg, g.2) ∧ s = (AssertionFailed msg, g.2)
  | None =>
      ∃ ir', IR_ (this g.2) = Some ir'
        ∧ g.1 = Ok tt ∧ c.1 = Ok tt ∧ s.1 = Ok tt
        ∧ trace (proc c.2) = trace (proc g.2) ++ [EvBackendInit]
        ∧ trace (proc s.2) = trace (proc g.2) ++ [EvBackendSave outputDir]
        ∧ M_ (this c.2) = M_ (this g.2) ∧ M_ (this s.2) = M_ (this g.2)
        ∧ IR_ (this c.2) = Some ir' ∧ IR_ (this s.2) = Some ir'
        ∧ backend_ (this c.2) = backendInit (backend_ (this g.2)) ir' (M_ (this g.2))
        ∧ backend_ (this s.2)
          = backendSave (backend_ (this g.2)) ir' (M_ (this g.2)) outputDir
  end.
Proof.
  destruct e as [k m oir b], p as [cur tr]. cbn [IR_ M_]. intros ->. cbn zeta.
  pose proof (generateIR_result mode F k m ir b (mkProcess cur tr)) as Hg.
  unfold compile, save.
  destruct (verify F m) as [msg|].
  - rewrite Hg. cbn [snd]. split; by step_bind Hg.
  - cbv zeta in Hg. rewrite Hg. cbn [fst snd this proc IR_ M_ backend_ trace].
    eexists. split; [reflexivity|].
    step_bind Hg.
    rewrite (backend_step_result EvBackendInit backendInit).
    rewrite (backend_step_result (EvBackendSave outputDir)
               (λ b ir m, backendSave b ir m outputDir)).
    by split_and!.
Qed.

(** Property X2. A Function that fails verification leaves the Module as it
    was, but the engine reset: the IR container is empty, so a [run] that
    follows is rejected and changes nothing. *)
Theorem rejected_function_leaves_engine_reset (mode : CompilationMode)
    (F : FunId) (e : Engine) (p : Process) (ir : IRFunction) (msg : string)
    (vars : list VarPtr) (inputs : list Tensor) :
  IR_ e = Some ir → verify F (M_ e) = Some msg →
  let c := compile mode F (mkState e p) in
  c.1 = AssertionFailed msg
  ∧ M_ (this c.2) = M_ e
  ∧ IR_ (this c.2) = Some (clear ir)
  ∧ backend_ (this c.2) = createBackend (backendKind_ e) (clear ir)
  ∧ trace (proc c.2) = trace p ++ rejectedEvents (backendKind_ e) F
  ∧ ∃ msg', run vars inputs c.2 = (AssertionFailed msg', c.2).
Proof.
  destruct e as [k m oir b], p as [cur tr]. cbn [IR_ M_ backendKind_].
  intros -> Hv. cbn zeta.
  pose proof (generateIR_result mode F k m ir b (mkProcess cur tr)) as Hg.
  rewrite Hv in Hg. unfold compile. step_bind Hg.
  cbn [fst snd this proc IR_ M_ backend_ trace]. split_and!; try done.
  unfold run. unfold_engine. unfold_comp. cbn.
  case_bool_decide; cbn; by eexists.
Qed.

(** Property X3. [setBackend] changes the kind and the backend only, and the
    kind it sets is the one a later [reset] re-creates the backend for. *)
Theorem setBackend_swaps_the_backend (kind : BackendKind) (e : Engine)
    (p : Process) (ir : IRFunction) :
  IR_ e = Some ir →
  let r := setBackend kind (mkState e p) in
  let r' := reset r.2 in
  r.1 = Ok tt
  ∧ M_ (this r.2) = M_ e ∧ IR_ (this r.2) = Some ir
  ∧ backendKind_ (this r.2) = kind
  ∧ backend_ (this r.2) = createBackend kind ir
  ∧ trace (proc r.2) = trace p ++ [EvCreateBackend kind]
  ∧ trainCounter (proc r.2) = trainCounter p
  ∧ r'.1 = Ok tt
  ∧ backendKind_ (this r'.2) = kind
  ∧ backend_ (this r'.2) = createBackend kind (clear ir).
Proof.
  destruct e as [k m oir b], p as [cur tr]. cbn [IR_ M_]. intros ->.
  cbn zeta. unfold setBackend, reset. unfold_engine. unfold_comp. cbn.
  by split_and!.
Qed.

(** *** What [run] and [runBatch] never touch *)

#[local] Instance keepsCompiled_refl : Reflexive keepsCompiled.
Proof. by intros s. Qed.

#[local] Instance keepsCompiled_trans : Transitive keepsCompiled.
Proof. intros s1 s2 s3 [H1 H2] [H3 H4]. split; congruence. Qed.

Lemma keepsCompiled_silent {A} (c : Method A) :
  (∀ s, (c s).2 = s) → framed keepsCompiled c.
Proof. apply framed_silent; apply _. Qed.

Lemma keepsCompiled_bind {A B} (c : Method A) (f : A → Method B) :
  framed keepsCompiled c → (∀ a, framed keepsCompiled (f a)) →
  framed keepsCompiled (c ≫= f).
Proof. apply framed_bind; apply _. Qed.

Lemma keepsCompiled_index_bind {A B} (l : list A) i (f : A → Method B) :
  (∀ x, framed keepsCompiled (f x)) → framed keepsCompiled (index l i ≫= f).
Proof. apply framed_index_bind; apply _. Qed.

Lemma keepsCompiled_forRange n start (body : nat → Method unit) :
  (∀ i, framed keepsCompiled (body i)) →
  framed keepsCompiled (forRange start n body).
Proof. apply framed_forRange; apply _. Qed.

Lemma doForwardPass_keepsCompiled : framed keepsCompiled doForwardPass.
Proof.
  intros [[k m [ir|] b] p]; unfold keepsCompiled, doForwardPass;
    unfold_engine; unfold_comp; cbn; [|done].
  by destruct (backendForwardPass _ _ _).
Qed.

Lemma loadValueFromTensor_keepsCompiled v input :
  framed keepsCompiled (loadValueFromTensor v input).
Proof.
  intros s. unfold keepsCompiled, loadValueFromTensor.
  unfold_engine. unfold_comp. cbn.
  destruct v as [id|]; cbn; [|done].
  destruct (variables (M_ (this s)) !! id); cbn; [|done].
  by case_bool_decide.
Qed.

Lemma loadValueFromTensorSlice_keepsCompiled v input c :
  framed keepsCompiled (loadValueFromTensorSlice v input c).
Proof.
  intros s. unfold keepsCompiled, loadValueFromTensorSlice.
  unfold_engine. unfold_comp. cbn.
  destruct v as [id|]; cbn; [|done].
  destruct (variables (M_ (this s)) !! id) as [var|]; cbn; [|done].
  destruct (tdims (payload var)); cbn; [done|].
  destruct (tdims input); cbn; [done|].
  case_bool_decide; cbn; [|done].
  case_bool_decide; cbn; [done|].
  by destruct (copyConsecutiveSlices _ _ _).
Qed.

Lemma run_step_keepsCompiled vars inputs i :
  framed keepsCompiled (run_step vars inputs i).
Proof.
  unfold run_step. apply keepsCompiled_index_bind. intros v.
  apply keepsCompiled_bind.
  { apply keepsCompiled_silent. intros [[k m oir b] p]. unfold_engine. unfold_comp.
    cbn. destruct v as [id|]; [|done]. by destruct (variables m !! id). }
  intros [id var].
  apply keepsCompiled_bind.
  { apply keepsCompiled_silent. intros s. unfold_comp. by case_bool_decide. }
  intros _. apply keepsCompiled_index_bind. intros input.
  apply loadValueFromTensor_keepsCompiled.
Qed.

Lemma prelude_keepsCompiled {A} (c : bool) msg (f : Method A) :
  framed keepsCompiled f → framed keepsCompiled (assert c msg;; f).
Proof.
  intros Hf. apply keepsCompiled_bind; [|done].
  apply keepsCompiled_silent. intros s. unfold_comp. by destruct c.
Qed.

Lemma derefIR_bind_keepsCompiled {A} (f : IRFunction → Method A) :
  (∀ ir, framed keepsCompiled (f ir)) → framed keepsCompiled (derefIR ≫= f).
Proof.
  intros Hf. apply keepsCompiled_bind; [|done].
  apply keepsCompiled_silent. intros [[k m [ir|] b] p]; by unfold_engine.
Qed.

Lemma run_keepsCompiled vars inputs : framed keepsCompiled (run vars inputs).
Proof.
  unfold run. apply prelude_keepsCompiled, derefIR_bind_keepsCompiled.
  intros ir. apply prelude_keepsCompiled.
  apply keepsCompiled_bind; [|intros _; apply doForwardPass_keepsCompiled].
  apply keepsCompiled_forRange. intros i. apply run_step_keepsCompiled.
Qed.

Lemma updateInputsAndRunNetwork_keepsCompiled vars inputs c :
  framed keepsCompiled (updateInputsAndRunNetwork vars inputs c).
Proof.
  unfold updateInputsAndRunNetwork.
  apply keepsCompiled_bind; [|intros _; apply doForwardPass_keepsCompiled].
  apply keepsCompiled_forRange. intros i. unfold updateInputs_step.
  apply keepsCompiled_index_bind. intros v.
  apply keepsCompiled_index_bind. intros input.
  apply loadValueFromTensorSlice_keepsCompiled.
Qed.

Lemma runBatch_keepsCompiled k vars inputs :
  framed keepsCompiled (runBatch k vars inputs).
Proof.
  unfold runBatch. do 2 apply prelude_keepsCompiled.
  apply derefIR_bind_keepsCompiled. intros ir. apply prelude_keepsCompiled.
  apply keepsCompiled_index_bind. intros v0.
  apply keepsCompiled_bind.
  { apply keepsCompiled_silent. intros [[k' m oir b] p]. unfold_engine. unfold_comp.
    cbn. destruct v0 as [id|]; [|done]. by destruct (variables m !! id). }
  intros [id var0]. apply keepsCompiled_index_bind. intros B.
  apply keepsCompiled_forRange. intros i. unfold runBatch_step.
  apply keepsCompiled_bind.
  { by apply keepsCompiled_silent. }
  intros c. apply keepsCompiled_bind.
  { apply updateInputsAndRunNetwork_keepsCompiled. }
  intros _ s. done.
Qed.

(** Property X4. Whatever their outcome, [run] and [runBatch] leave the IR
    container and the kind of the backend exactly as they were: running
    never undoes a compilation. *)
Theorem running_keeps_the_compiled_IR (k : nat) (vars : list VarPtr)
    (inputs : list Tensor) (s : State) :
  IR_ (this (run vars inputs s).2) = IR_ (this s)
  ∧ backendKind_ (this (run vars inputs s).2) = backendKind_ (this s)
  ∧ IR_ (this (runBatch k vars inputs s).2) = IR_ (this s)
  ∧ backendKind_ (this (runBatch k vars inputs s).2) = backendKind_ (this s).
Proof.
  destruct (run_keepsCompiled vars inputs s) as [H1 H2].
  destruct (runBatch_keepsCompiled k vars inputs s) as [H3 H4].
  by split_and!.
Qed.

(** Property X5. The IR container of an engine is never null: the
    constructor makes one and every method of the engine, whatever its
    outcome, leaves one. *)
Theorem IR_is_never_null :
  (∀ kind, is_Some (IR_ (construct kind)))
  ∧ ∀ (s : State), is_Some (IR_ (this s)) →
      is_Some (IR_ (this (reset s).2))
      ∧ (∀ kind, is_Some (IR_ (this (setBackend kind s).2)))
      ∧ (∀ mode F, is_Some (IR_ (this (generateIR mode F s).2)))
      ∧ (∀ mode F, is_Some (IR_ (this (compile mode F s).2)))
      ∧ (∀ mode F dir, is_Some (IR_ (this (save mode F dir s).2)))
      ∧ (∀ vars inputs, is_Some (IR_ (this (run vars inputs s).2)))
      ∧ (∀ k vars inputs, is_Some (IR_ (this (runBatch k vars inputs s).2))).
Proof.
  split; [by eexists|].
  intros [[k m oir b] [cur tr]] [ir Hir]. cbn in Hir. subst oir.
  assert (Hgen : ∀ mode F, is_Some (IR_ (this
            (generateIR mode F
               (mkState (mkEngine k m (Some ir) b) (mkProcess cur tr))).2))).
  { intros mode F. rewrite generateIR_result.
    destruct (verify F m); cbn; by eexists. }
  split_and!.
  - unfold reset. unfold_engine. unfold_comp. cbn. by eexists.
  - intros kind. unfold setBackend. unfold_engine. unfold_comp. cbn. by eexists.
  - done.
  - intros mode F. unfold compile.
    pose proof (generateIR_result mode F k m ir b (mkProcess cur tr)) as Hg.
    destruct (verify F m); cbv zeta in Hg; step_bind Hg; [by eexists|].
    rewrite (backend_step_result EvBackendInit backendInit). by eexists.
  - intros mode F dir. unfold save.
    pose proof (generateIR_result mode F k m ir b (mkProcess cur tr)) as Hg.
    destruct (verify F m); cbv zeta in Hg; step_bind Hg; [by eexists|].
    rewrite (backend_step_result (EvBackendSave dir)
               (λ b ir m, backendSave b ir m dir)). by eexists.
  - intros vars inputs.
    destruct (run_keepsCompiled vars inputs
                (mkState (mkEngine k m (Some ir) b) (mkProcess cur tr)))
      as [-> _]. by eexists.
  - intros n vars inputs.
    destruct (runBatch_keepsCompiled n vars inputs
                (mkState (mkEngine k m (Some ir) b) (mkProcess cur tr)))
      as [-> _]. by eexists.
Qed.

(** *** What binding changes *)

Lemma bindInputs_functions vs : ∀ ts m,
  functions (bindInputs vs ts m) = functions m.
Proof.
  induction vs as [|[id|] vs IH]; intros [|t ts] m; cbn [bindInputs]; try done.
  by rewrite IH.
Qed.

Lemma bindInputs_keeps_declarations vs : ∀ ts m id,
  visibility <$> variables (bindInputs vs ts m) !! id
  = visibility <$> variables m !! id
  ∧ varType <$> variables (bindInputs vs ts m) !! id
    = varType <$> variables m !! id.
Proof.
  induction vs as [|[id'|] vs IH]; intros [|t ts] m id; cbn [bindInputs];
    try done.
  destruct (IH ts (withPayload id' t m) id) as [-> ->].
  rewrite lookup_withPayload.
  destruct (variables m !! id) as [var|]; cbn; [|done].
  by destruct (decide (id' = id)).
Qed.

Lemma bindInputs_other vs : ∀ ts m id,
  Some id ∉ vs → variables (bindInputs vs ts m) !! id = variables m !! id.
Proof.
  induction vs as [|[id'|] vs IH]; intros [|t ts] m id Hn; cbn [bindInputs];
    try done.
  apply not_elem_of_cons in Hn as [Hne Hn]. rewrite IH by done.
  rewrite lookup_withPayload.
  destruct (variables m !! id); cbn; [|done].
  rewrite decide_False; [done|congruence].
Qed.

(** Property X6. Whatever its outcome, the binding loop of [run] changes
    payloads only, and only of the Variables it is given: every Variable
    keeps its visibility and its type, no Variable appears or disappears,
    the Variables that are not among [vars] are untouched, and so are the
    Functions, the IR container and the backend. *)
Theorem binding_changes_named_payloads_only (vars : list VarPtr)
    (inputs : list Tensor) (s : State) :
  length inputs = length vars →
  let s' := (forRange 0 (length vars) (run_step vars inputs) s).2 in
  let m := M_ (this s) in
  let m' := M_ (this s') in
  (∀ id, visibility <$> variables m' !! id = visibility <$> variables m !! id
         ∧ varType <$> variables m' !! id = varType <$> variables m !! id)
  ∧ (∀ id, Some id ∉ vars → variables m' !! id = variables m !! id)
  ∧ functions m' = functions m
  ∧ IR_ (this s') = IR_ (this s)
  ∧ backend_ (this s') = backend_ (this s)
  ∧ backendKind_ (this s') = backendKind_ (this s).
Proof.
  intros Hlen. destruct s as [[k m ir b] [c tr]]. cbn zeta.
  destruct (run_loop vars inputs [] [] k m ir b c tr (eq_sym Hlen) eq_refl)
    as (n & Hn & Hst & _).
  cbn [app length] in Hst. rewrite Hst. cbn [this M_ IR_ backend_ backendKind_].
  split_and!; try done.
  - intros id. apply bindInputs_keeps_declarations.
  - intros id Hid. apply bindInputs_other. intros Hin. apply Hid.
    rewrite <- (take_drop n vars). apply elem_of_app. by left.
  - apply bindInputs_functions.
Qed.

(** *** A run that is rejected half way *)

Lemma run_loop_stops v t post ipost pre : ∀ ipre done_v done_t k m ir b c tr,
  length done_v = length done_t →
  Forall2 (bindable m) pre ipre → ¬ bindable m v t →
  let r := forRange (length done_v) (length (pre ++ v :: post))
             (run_step (done_v ++ pre ++ v :: post)
                       (done_t ++ ipre ++ t :: ipost))
             (mkState (mkEngine k m ir b) (mkProcess c tr)) in
  is_ok r.1 = false
  ∧ r.2 = mkState (mkEngine k (bindInputs pre ipre m) ir b)
                  (mkProcess c (tr ++ copyEvents pre ipre)).
Proof.
  induction pre as [|u pre IH];
    intros ipre done_v done_t k m ir b c tr Hdone HF Hnb; cbn zeta.
  - inversion HF; subst. cbn [app length forRange bindInputs copyEvents].
    assert (Hv : (done_v ++ v :: post) !! length done_v = Some v)
      by (by apply list_lookup_middle).
    assert (Ht : (done_t ++ t :: ipost) !! length done_v = Some t)
      by (by apply list_lookup_middle).
    destruct (run_step_not_bindable _ _ _ v t
                (mkState (mkEngine k m ir b) (mkProcess c tr)) Hv Ht Hnb)
      as [Hne Hsame].
    assert (Hf : is_ok (run_step (done_v ++ v :: post) (done_t ++ t :: ipost)
                   (length done_v)
                   (mkState (mkEngine k m ir b) (mkProcess c tr))).1 = false).
    { destruct (is_ok _) eqn:E; [|done]. by apply is_ok_unit in E. }
    destruct (bind_not_ok _
                (λ _, forRange (S (length done_v)) (length post)
                        (run_step (done_v ++ v :: post) (done_t ++ t :: ipost)))
                _ Hf) as [Hf' Hst].
    split; [exact Hf'|]. rewrite app_nil_r. etrans; [exact Hst|done].
  - inversion HF as [|? w ? ipre' Hb HF']; subst.
    cbn [app length forRange bindInputs copyEvents].
    assert (Hv : (done_v ++ u :: pre ++ v :: post) !! length done_v = Some u)
      by (by apply list_lookup_middle).
    assert (Ht : (done_t ++ w :: ipre' ++ t :: ipost) !! length done_v = Some w)
      by (by apply list_lookup_middle).
    destruct (run_step_bindable _ _ _ _ _ k m ir b c tr Hv Ht Hb)
      as (id & -> & Hstep).
    rewrite (bind_ok _ _ _ _ _ Hstep).
    specialize (IH ipre' (done_v ++ [Some id]) (done_t ++ [w]) k
                  (withPayload id w m) ir b c (tr ++ [EvCopyFrom id w])).
    assert (Hl : length (done_v ++ [Some id]) = S (length done_v))
      by (rewrite length_app; cbn; lia).
    rewrite Hl, <- !app_assoc in IH. cbn [app] in IH.
    destruct IH as [Hf Hst].
    + rewrite length_app. cbn. lia.
    + by apply Forall2_bindable_withPayload.
    + intros Hb'. apply Hnb. by apply (bindable_withPayload m id w).
    + split; [exact Hf|]. by rewrite Hst.
Qed.

(** Property X7. [run] is not atomic: when the Variable at some position is
    the first that cannot be bound (private, absent, null, or of another
    shape), the call is rejected there, but the Variables before it have
    already received their inputs. No forward pass runs. *)
Theorem run_rejected_half_way_keeps_earlier_bindings
    (pre post : list VarPtr) (ipre ipost : list Tensor) (v : VarPtr)
    (t : Tensor) (e : Engine) (p : Process) (ir : IRFunction) :
  IR_ e = Some ir → instrs ir ≠ [] →
  length pre = length ipre → length post = length ipost →
  Forall2 (bindable (M_ e)) pre ipre → ¬ bindable (M_ e) v t →
  let r := run (pre ++ v :: post) (ipre ++ t :: ipost) (mkState e p) in
  is_ok r.1 = false
  ∧ M_ (this r.2) = bindInputs pre ipre (M_ e)
  ∧ (∀ i u w, pre !! i = Some u → ipre !! i = Some w → u ∉ drop (S i) pre →
       payloadOf (M_ (this r.2)) u = Some w)
  ∧ trace (proc r.2) = trace p ++ copyEvents pre ipre
  ∧ IR_ (this r.2) = IR_ e ∧ backend_ (this r.2) = backend_ e.
Proof.
  destruct e as [k m oir b], p as [c tr]. cbn [IR_ M_ backend_].
  intros -> Hi Hpre Hpost HF Hnb. cbn zeta.
  pose proof (run_loop_stops v t post ipost pre ipre [] [] k m (Some ir) b c tr
                eq_refl HF Hnb) as [Hf Hst].
  cbn [app length] in Hf, Hst.
  unfold run.
  set (loop := forRange 0 (length (pre ++ v :: post))
                 (run_step (pre ++ v :: post) (ipre ++ t :: ipost))) in *.
  assert (Hrun : ∀ f : Method unit,
    (assert (bool_decide (length (ipre ++ t :: ipost) = length (pre ++ v :: post)))
       "The number of inputs does not match the number of variables";;
     ir ← derefIR;
     assert (negb (bool_decide (instrs ir = [])))
       "Running a function with no instructions.";;
     f) (mkState (mkEngine k m (Some ir) b) (mkProcess c tr))
    = f (mkState (mkEngine k m (Some ir) b) (mkProcess c tr))).
  { intros f. unfold_engine. unfold_comp. cbn.
    rewrite bool_decide_eq_true_2
      by (rewrite !length_app; cbn; rewrite Hpre, Hpost; done).
    cbn. by rewrite bool_decide_eq_false_2. }
  rewrite Hrun.
  destruct (loop _) as [o s'] eqn:Hloop. cbn [fst snd] in Hf, Hst. subst s'.
  unfold mbind, Comp_bind, comp_bind. rewrite Hloop.
  destruct o as [[]| | |]; [done|..];
    cbn [fst snd this proc M_ IR_ backend_ trace is_ok];
    (split_and!; try done;
     intros i u w Hu Hw Hnotin;
     by apply (bindInputs_payload m pre ipre i u w HF Hu Hw)).
Qed.

(** *** What [runBatch] checks, and what it does not *)

(** Property X8. The path of [runBatch] never looks at the visibility of a
    Variable: it binds a slice to a Private Variable, which [run] rejects,
    and it accepts an input whose leading dimension differs from the
    Variable's, as long as the other dimensions agree. *)
Theorem runBatch_binds_private_variables (vars : list VarPtr)
    (inputs : list Tensor) (c : Z) (i : nat) (id : VarId) (var : Var)
    (t t' : Tensor) (d d' : Z) (ds : list Z) (s : State) :
  vars !! i = Some (Some id : VarPtr) → inputs !! i = Some t →
  variables (M_ (this s)) !! id = Some var →
  visibility var = Private →
  tdims (payload var) = d' :: ds → tdims t = d :: ds → d ≠ 0%Z →
  copyConsecutiveSlices (payload var) t (c `mod` d)%Z = Some t' →
  updateInputs_step vars inputs c i s
  = (Ok tt,
     mkState (mkEngine (backendKind_ (this s)) (withPayload id t' (M_ (this s)))
                (IR_ (this s)) (backend_ (this s)))
             (mkProcess (trainCounter (proc s))
                (trace (proc s) ++ [EvCopyConsecutiveSlices id t (c `mod` d)%Z])))
  ∧ run_step vars inputs i s
    = (AssertionFailed "Trying to update a private variable", s).
Proof.
  intros Hv Ht Hl Hp Hdv Hdt Hd Hcopy.
  destruct s as [[k m ir b] [cur tr]]. cbn [this M_ IR_ backend_ backendKind_
    proc trainCounter trace] in *.
  split.
  - unfold updateInputs_step, loadValueFromTensorSlice.
    unfold_engine. rewrite Hv, Ht. unfold_comp. cbn. rewrite Hl. cbn.
    rewrite Hdv, Hdt. cbn. rewrite bool_decide_eq_true_2 by done. cbn.
    rewrite bool_decide_eq_false_2 by done. cbn. by rewrite Hcopy.
  - unfold run_step. unfold_engine. rewrite Hv. unfold_comp. cbn.
    rewrite Hl. cbn. rewrite bool_decide_eq_false_2; [done|].
    rewrite Hp. done.
Qed.

(** Property X9. [runBatch] with no iteration changes nothing, and it
    succeeds exactly when there is an input, as many inputs as Variables, an
    IR with instructions and a first Variable with a leading dimension: the
    shapes of the inputs are not looked at. *)
Theorem runBatch_without_iterations (vars : list VarPtr)
    (inputs : list Tensor) (s : State) :
  (runBatch 0 vars inputs s).2 = s
  ∧ ((runBatch 0 vars inputs s).1 = Ok tt ↔
       inputs ≠ [] ∧ length inputs = length vars
       ∧ (∃ ir, IR_ (this s) = Some ir ∧ instrs ir ≠ [])
       ∧ is_Some (batchSizeOf (M_ (this s)) vars)).
Proof.
  destruct s as [[k m oir b] [cur tr]].
  unfold runBatch, batchSizeOf. unfold_engine. unfold_comp.
  cbn -[bool_decide].
  case_bool_decide as H1; cbn -[bool_decide].
  { split; [done|]. split; [done|]. by intros (? & _). }
  case_bool_decide as H2; cbn -[bool_decide].
  2:{ split; [done|]. split; [done|]. by intros (_ & ? & _). }
  destruct oir as [ir|]; cbn -[bool_decide].
  2:{ split; [done|]. split; [done|]. by intros (_ & _ & (? & [=] & _) & _). }
  case_bool_decide as H3; cbn -[bool_decide].
  { split; [done|]. split; [done|]. by intros (_ & _ & (? & [= <-] & ?) & _). }
  destruct vars as [|[id|] vars]; cbn.
  - split; [done|]. split; [done|]. by intros (_ & _ & _ & [? [=]]).
  - destruct (variables m !! id) as [var|]; cbn.
    + destruct (dims (varType var)) as [|B ?]; cbn.
      * split; [done|]. split; [done|]. by intros (_ & _ & _ & [? [=]]).
      * split; [done|]. split; [|done]. intros _. split_and!; eauto.
    + split; [done|]. split; [done|]. by intros (_ & _ & _ & [? [=]]).
  - split; [done|]. split; [done|]. by intros (_ & _ & _ & [? [=]]).
Qed.

(** *** The cursor of a [runBatch] that does not finish *)

Lemma forwardPasses_app evs1 evs2 :
  forwardPasses (evs1 ++ evs2) = (forwardPasses evs1 + forwardPasses evs2)%nat.
Proof. unfold forwardPasses. by rewrite List.filter_app, length_app. Qed.

Lemma forwardPasses_sliceEvents vars : ∀ inputs c,
  forwardPasses (sliceEvents vars inputs c) = 0%nat.
Proof.
  induction vars as [|[id|] vars IH]; intros [|t inputs] c; cbn; try done.
  apply IH.
Qed.

Lemma loadValueFromTensorSlice_no_pass v input c :
  appends (λ ev, isForwardPass ev = false) (loadValueFromTensorSlice v input c).
Proof.
  unfold loadValueFromTensorSlice.
  apply appends_bind; [apply appends_assert|]. intros _.
  apply appends_bind; [apply appends_derefVar|]. intros [id var].
  apply appends_bind; [apply appends_drop_front|]. intros tl_t.
  apply appends_bind; [apply appends_drop_front|]. intros tl_dim.
  apply appends_bind; [apply appends_assert|]. intros _.
  apply appends_bind; [apply appends_index|]. intros dim0.
  apply appends_bind.
  { case_bool_decide; [apply appends_undefined|apply appends_ret]. }
  intros _.
  apply appends_bind; [by apply appends_emit|]. intros _.
  destruct (copyConsecutiveSlices _ _ _);
    [apply appends_setPayload|apply appends_abort].
Qed.

Lemma updateInputs_loop_no_pass vars inputs c n start :
  appends (λ ev, isForwardPass ev = false)
    (forRange start n (updateInputs_step vars inputs c)).
Proof.
  apply appends_forRange. intros i. unfold updateInputs_step.
  apply appends_bind; [apply appends_index|]. intros v.
  apply appends_bind; [apply appends_index|]. intros input.
  apply loadValueFromTensorSlice_no_pass.
Qed.

Lemma forwardPasses_none evs :
  Forall (λ ev, isForwardPass ev = false) evs → forwardPasses evs = 0%nat.
Proof.
  unfold forwardPasses. induction 1 as [|ev evs Hev _ IH]; cbn; [done|].
  by rewrite Hev.
Qed.

(** An iteration that does not complete appends no forward pass. *)
Lemma updateInputsAndRunNetwork_failed vars inputs c s :
  let r := updateInputsAndRunNetwork vars inputs c s in
  r.1 ≠ Ok tt →
  trainCounter (proc r.2) = trainCounter (proc s)
  ∧ ∃ evs, trace (proc r.2) = trace (proc s) ++ evs ∧ forwardPasses evs = 0%nat.
Proof.
  cbn zeta. unfold updateInputsAndRunNetwork.
  destruct (updateInputs_loop_no_pass vars inputs c (length vars) 0 s)
    as (Hcur & evs & Htr & Hev).
  unfold mbind, Comp_bind, comp_bind.
  destruct (forRange _ _ _ s) as [[[]|msg| |code] s1]; cbn [fst snd] in *;
    try (intros _; split; [done|]; exists evs; split; [done|];
         by apply forwardPasses_none).
  unfold doForwardPass. unfold_engine. unfold_comp. cbn.
  destruct (IR_ (this s1)) as [ir|]; cbn.
  - destruct (backendForwardPass _ _ _). cbn. done.
  - intros _. split; [done|]. exists evs. split; [done|].
    by apply forwardPasses_none.
Qed.

Lemma runBatch_loop_progress vars inputs B k : ∀ i s,
  length inputs = length vars →
  let r := forRange i k (runBatch_step vars inputs B) s in
  ∃ evs, trace (proc r.2) = trace (proc s) ++ evs
    ∧ (forwardPasses evs ≤ k)%nat
    ∧ trainCounter (proc r.2)
      = cursorAt (trainCounter (proc s)) B (forwardPasses evs)
    ∧ (r.1 = Ok tt → forwardPasses evs = k)
    ∧ (r.1 ≠ Ok tt → (forwardPasses evs < k)%nat).
Proof.
  induction k as [|k IH]; intros i s Hlen; cbn zeta; cbn [forRange].
  { exists []. rewrite app_nil_r. by split_and!. }
  destruct (runBatch_step_cases vars inputs B i s) as [[Hok Heq]|(Hno & Hf & Hst)].
  - rewrite (bind_ok _ _ _ _ _ Heq).
    destruct (updateInputsAndRunNetwork _ _ _ s) as [o s2] eqn:Hup.
    cbn [fst snd] in *. subst o.
    apply updateInputsAndRunNetwork_ok in Hup as [Htr Hcur]; [|done].
    destruct (IH (S i) (mkState (this s2)
                (mkProcess (wrap (trainCounter (proc s) + B)) (trace (proc s2))))
                Hlen)
      as (evs & Htr' & Hle & Hc & Hok' & Hno').
    cbn [proc trainCounter trace] in *.
    exists ((sliceEvents vars inputs (trainCounter (proc s)) ++ [EvDoForwardPass])
            ++ evs).
    assert (Hn : forwardPasses
                   ((sliceEvents vars inputs (trainCounter (proc s))
                     ++ [EvDoForwardPass]) ++ evs)
                 = S (forwardPasses evs)).
    { rewrite !forwardPasses_app, forwardPasses_sliceEvents. done. }
    rewrite Hn. split_and!.
    + rewrite Htr', Htr. by rewrite <- !app_assoc.
    + lia.
    + rewrite Hc. apply cursorAt_shift.
    + intros Hr. f_equal. by apply Hok'.
    + intros Hr. apply Hno' in Hr. lia.
  - destruct (bind_not_ok _
                (λ _, forRange (S i) k (runBatch_step vars inputs B)) _ Hf)
      as [Hf' Hst'].
    destruct (updateInputsAndRunNetwork_failed vars inputs
                (trainCounter (proc s)) s Hno) as (Hcur & evs & Htr & Hev).
    exists evs. rewrite Hev. split_and!.
    + by rewrite Hst', Hst.
    + lia.
    + by rewrite Hst', Hst.
    + intros Hr. apply is_ok_unit in Hr. congruence.
    + intros _. lia.
Qed.

(** Property X10. A [runBatch] that fails in some iteration keeps the cursor
    where the iterations it completed left it: it is not rolled back. The
    iterations completed are the forward passes it appended to the trace:
    as many as asked for on success, fewer on failure, and the cursor has
    advanced by the batch size once for each. Whatever the outcome, the
    cursor stays a [size_t] value. *)
Theorem runBatch_keeps_cursor_progress (k : nat) (vars : list VarPtr)
    (inputs : list Tensor) (e : Engine) (p : Process) :
  is_size_t (trainCounter p) →
  let r := call (runBatch k vars inputs) e p in
  is_size_t (trainCounter r.2)
  ∧ ∃ evs, trace r.2 = trace p ++ evs
      ∧ (forwardPasses evs ≤ k)%nat
      ∧ (r.1.1 = Ok tt → forwardPasses evs = k)
      ∧ (r.1.1 ≠ Ok tt → (0 < k)%nat → (forwardPasses evs < k)%nat)
      ∧ (forwardPasses evs = 0%nat → trainCounter r.2 = trainCounter p)
      ∧ ((0 < forwardPasses evs)%nat →
         ∃ B, batchSizeOf (M_ e) vars = Some B
            ∧ trainCounter r.2
              = wrap (trainCounter p + Z.of_nat (forwardPasses evs) * B)).
Proof.
  intros Hc. unfold call. cbn zeta. cbn [fst snd].
  destruct (runBatch_prelude k vars inputs (mkState e p))
    as [(B & Hlen & HB & Heq)|[Hf Hst]].
  - rewrite Heq.
    destruct (runBatch_loop_progress vars inputs B k 0 (mkState e p) Hlen)
      as (evs & Htr & Hle & Hcur & Hok & Hno).
    cbn [proc trainCounter trace] in Hcur, Htr.
    split.
    + rewrite Hcur, cursorAt_closed by done. by apply Z.mod_pos_bound.
    + exists evs. split_and!; try done.
      * intros Hr _. by apply Hno.
      * intros Hz. by rewrite Hcur, Hz.
      * intros _. exists B. split; [done|]. by rewrite Hcur, cursorAt_closed.
  - rewrite Hst. cbn. split; [done|]. exists []. rewrite app_nil_r.
    split_and!; try done.
    + cbn. lia.
    + intros Hr. rewrite Hr in Hf. done.
    + cbn. lia.
Qed.

(** *** One pass over the dataset *)

(** Property X11. When the batch size divides the number of samples and the
    cursor does not overflow, a [runBatch] of [N / B] iterations goes once
    through the dataset: the next call selects again the slices this call
    started from. *)
Theorem runBatch_wraps_to_the_first_slice (q : nat) (vars : list VarPtr)
    (inputs : list Tensor) (e e1 : Engine) (p p1 : Process) (B N : Z) :
  is_size_t (trainCounter p) →
  call (runBatch q vars inputs) e p = (Ok tt, e1, p1) →
  batchSizeOf (M_ e) vars = Some B →
  (0 < N)%Z → (Z.of_nat q * B = N)%Z →
  (trainCounter p + N < size_t_modulus)%Z →
  Forall (λ t, tdims t !! 0%nat = Some N) inputs →
  trainCounter p1 = (trainCounter p + N)%Z
  ∧ (∀ t, t ∈ inputs → sliceIndex (trainCounter p1) t = sliceIndex (trainCounter p) t)
  ∧ sliceEvents vars inputs (trainCounter p1) = sliceEvents vars inputs (trainCounter p).
Proof.
  intros Hc Hrun HB HN Hq Hno Hin.
  destruct (runBatch_ok _ _ _ _ _ _ _ Hc Hrun) as (B' & HB' & Hcur & _).
  rewrite HB in HB'. injection HB' as <-.
  assert (Hp1 : trainCounter p1 = (trainCounter p + N)%Z).
  { rewrite Hcur, Hq. unfold wrap. apply Z.mod_small.
    unfold is_size_t in Hc. lia. }
  assert (Hslice : ∀ t, t ∈ inputs →
            sliceIndex (trainCounter p1) t = sliceIndex (trainCounter p) t).
  { intros t Ht. rewrite Forall_forall in Hin. unfold sliceIndex.
    rewrite (Hin t Ht), Hp1. cbn.
    rewrite <- (Z.mul_1_l N) at 1. apply Z_mod_plus_full. }
  split_and!; [done..|].
  clear Hrun Hin HB. revert inputs Hslice.
  induction vars as [|[id|] vars IH]; intros [|t inputs] Hslice;
    cbn [sliceEvents]; try done.
  rewrite Hslice by (apply elem_of_cons; by left).
  f_equal. apply IH. intros t' Ht'. apply Hslice. apply elem_of_cons. by right.
Qed.

End Facts.

(** ** The theorems on the reference instantiation *)

Section OnReference.
Import Reference.

(** Claim C1 on the reference backend. *)
Lemma generateIR_sequence_witness :
  let e := freshEngine CPU in
  let r := generateIR Infer 0%nat (mkState e initialProcess) in
  IR_ e = Some (mkIR None [] [])
  ∧ r.1 = Ok tt
  ∧ trace (proc r.2) = pipelineEvents CPU Infer 0%nat true false.
Proof.
  cbn zeta. split; [reflexivity|].
  generalize (generateIR_sequence Infer 0%nat (freshEngine CPU) initialProcess
                (mkIR None [] []) eq_refl).
  vm_compute. intros (H1 & H2 & _). exact (conj H1 H2).
Defined.

(** Claim C2 on the reference backend. *)
Lemma run_binds_inputs_then_runs_witness :
  let e := compiledEngine Interpreter in
  let r := run [Some 0%nat] [batch x05 x06] (mkState e initialProcess) in
  r.1 = Ok tt
  ∧ trace (proc r.2)
    = trace initialProcess ++ copyEvents [Some 0%nat] [batch x05 x06]
      ++ [EvDoForwardPass].
Proof.
  cbn zeta.
  destruct (run_binds_inputs_then_runs [Some 0%nat] [batch x05 x06]
              (compiledEngine Interpreter) initialProcess) as (_ & Hok & _).
  assert (Hr : (run [Some 0%nat] [batch x05 x06]
                  (mkState (compiledEngine Interpreter) initialProcess)).1
               = Ok tt) by (vm_compute; reflexivity).
  split; [exact Hr|]. exact (proj1 (Hok Hr)).
Defined.


(** Claim C10 on the reference backend. *)
Lemma runBatch_slice_index_within_witness :
  let r := call (runBatch 3 [Some 0%nat] [dataset])
             (compiledEngine Interpreter) initialProcess in
  Forall wfTensor [dataset]
  ∧ ∃ groups : list (list Event),
      trace r.2 = trace initialProcess ++ mjoin groups
      ∧ (length groups ≤ 3)%nat
      ∧ ∀ j g, groups !! j = Some g →
          ∃ B, batchSizeOf (M_ (compiledEngine Interpreter)) [Some 0%nat] = Some B
             ∧ Forall (sliceWithin (cursorAt (trainCounter initialProcess) B j)) g.
Proof.
  cbn zeta.
  assert (Hwf : Forall wfTensor [dataset]).
  { repeat constructor; done. }
  split; [exact Hwf|].
  exact (runBatch_slice_index_within 3 [Some 0%nat] [dataset]
           (compiledEngine Interpreter) initialProcess Hwf).
Defined.

(** Claim C5 on the reference backend. *)
Lemma reset_clears_IR_keeps_Module_witness :
  let e := compiledEngine CPU in
  let r := reset (mkState e initialProcess) in
  IR_ e = Some (mkIR (Some 0%nat) [3; 5]%nat [1; 0]%nat)
  ∧ M_ (this r.2) = M_ e
  ∧ IR_ (this r.2) = Some (mkIR (Some 0%nat) [] []).
Proof.
  cbn zeta.
  assert (HIR : IR_ (compiledEngine CPU)
                = Some (mkIR (Some 0%nat) [3; 5]%nat [1; 0]%nat))
    by (vm_compute; reflexivity).
  destruct (reset_clears_IR_keeps_Module (compiledEngine CPU) initialProcess)
    as (HM & _ & Hir).
  destruct (Hir _ HIR) as (_ & Hclear & _).
  exact (conj HIR (conj HM Hclear)).
Defined.

(** Claim C6 on the reference backend. *)
Lemma run_and_runBatch_need_instructions_witness :
  let e := freshEngine Interpreter in
  IR_ e = Some (mkIR None [] []) ∧ instrs (mkIR None [] []) = []
  ∧ ∃ msg, run [Some 0%nat] [batch x05 x06] (mkState e initialProcess)
           = (AssertionFailed msg, mkState e initialProcess).
Proof.
  cbn zeta. split; [reflexivity|]. split; [reflexivity|].
  exact (proj1 (run_and_runBatch_need_instructions 1 [Some 0%nat]
                  [batch x05 x06] (freshEngine Interpreter) initialProcess
                  (mkIR None [] []) eq_refl eq_refl)).
Defined.

(** Claim C9, as amended, on the reference backend. *)
Lemma trainCounter_is_process_wide_witness :
  let rA := batchOnce (compiledEngine Interpreter) initialProcess in
  let rB := batchOnce (compiledEngine CPU) rA.2 in
  is_size_t (trainCounter initialProcess)
  ∧ batchOnce (compiledEngine Interpreter) initialProcess = (Ok tt, rA.1.2, rA.2)
  ∧ batchOnce (compiledEngine CPU) rA.2 = (Ok tt, rB.1.2, rB.2)
  ∧ ∃ BA BB, trainCounter rB.2
             = wrap (trainCounter initialProcess + Z.of_nat 1 * BA + Z.of_nat 1 * BB).
Proof.
  cbn zeta.
  assert (H1 : is_size_t (trainCounter initialProcess)) by (split; done).
  assert (H2 : batchOnce (compiledEngine Interpreter) initialProcess
               = (Ok tt, (batchOnce (compiledEngine Interpreter) initialProcess).1.2,
                  (batchOnce (compiledEngine Interpreter) initialProcess).2))
    by (vm_compute; reflexivity).
  assert (H3 : batchOnce (compiledEngine CPU)
                 (batchOnce (compiledEngine Interpreter) initialProcess).2
               = (Ok tt,
                  (batchOnce (compiledEngine CPU)
                     (batchOnce (compiledEngine Interpreter) initialProcess).2).1.2,
                  (batchOnce (compiledEngine CPU)
                     (batchOnce (compiledEngine Interpreter) initialProcess).2).2))
    by (vm_compute; reflexivity).
  split; [exact H1|]. split; [exact H2|]. split; [exact H3|].
  destruct (trainCounter_is_process_wide (GO := refOps)) as (_ & _ & _ & Hshared).
  destruct (Hshared 1%nat 1%nat _ _ _ _ _ _ _ _ _ _ _ H1 H2 H3)
    as (BA & BB & _ & _ & _ & _ & Hc).
  exists BA, BB. exact Hc.
Defined.

(** Claim C9, as stated, fails: the first batch of an engine starts at
    slice 0 on a fresh process, and at slice 2 when another engine ran one
    batch before. *)
Lemma trainCounter_shared_between_engines :
  let pA := (batchOnce (compiledEngine Interpreter) initialProcess).2 in
  let alone := batchOnce (compiledEngine CPU) initialProcess in
  let afterA := batchOnce (compiledEngine CPU) pA in
  alone.1.1 = Ok tt ∧ afterA.1.1 = Ok tt
  ∧ trace alone.2 = [EvCopyConsecutiveSlices 0%nat dataset 0; EvDoForwardPass]
  ∧ drop (length (trace pA)) (trace afterA.2)
    = [EvCopyConsecutiveSlices 0%nat dataset 2; EvDoForwardPass]
  ∧ drop (length (trace pA)) (trace afterA.2) ≠ trace alone.2.
Proof.
  vm_compute. split_and!; [done..|]. intros H. discriminate H.
Qed.

(** Property X1 on the reference backend. *)
Lemma compile_and_save_share_the_pipeline_witness :
  let s := mkState (freshEngine CPU) initialProcess in
  IR_ (freshEngine CPU) = Some (mkIR None [] [])
  ∧ (compile Infer 0%nat s).1 = Ok tt
  ∧ (save Infer 0%nat "bundle" s).1 = Ok tt
  ∧ trace (proc (save Infer 0%nat "bundle" s).2)
    = trace (proc (generateIR Infer 0%nat s).2) ++ [EvBackendSave "bundle"].
Proof.
  cbn zeta.
  assert (HIR : IR_ (freshEngine CPU) = Some (mkIR None [] [])) by reflexivity.
  assert (Hv : verify 0%nat (M_ (freshEngine CPU)) = None) by reflexivity.
  pose proof (compile_and_save_share_the_pipeline Infer 0%nat "bundle"
                (freshEngine CPU) initialProcess _ HIR) as H.
  cbn zeta in H. rewrite Hv in H.
  destruct H as (ir' & _ & _ & Hc & Hs & _ & Htr & _).
  exact (conj HIR (conj Hc (conj Hs Htr))).
Defined.

(** Property X2 on the reference backend: no Function has the key 7. *)
Lemma rejected_function_leaves_engine_reset_witness :
  let e := freshEngine Interpreter in
  let c := compile Infer 7%nat (mkState e initialProcess) in
  IR_ e = Some (mkIR None [] [])
  ∧ verify 7%nat (M_ e) = Some "No such function"
  ∧ c.1 = AssertionFailed "No such function"
  ∧ M_ (this c.2) = M_ e.
Proof.
  cbn zeta.
  assert (HIR : IR_ (freshEngine Interpreter) = Some (mkIR None [] []))
    by reflexivity.
  assert (Hv : verify 7%nat (M_ (freshEngine Interpreter))
               = Some "No such function") by reflexivity.
  destruct (rejected_function_leaves_engine_reset Infer 7%nat
              (freshEngine Interpreter) initialProcess _ _
              [Some 0%nat] [batch x05 x06] HIR Hv) as (Hc & HM & _).
  exact (conj HIR (conj Hv (conj Hc HM))).
Defined.

(** Property X3 on the reference backend. *)
Lemma setBackend_swaps_the_backend_witness :
  let e := freshEngine Interpreter in
  let r := setBackend CPU (mkState e initialProcess) in
  IR_ e = Some (mkIR None [] [])
  ∧ r.1 = Ok tt
  ∧ backendKind_ (this r.2) = CPU
  ∧ M_ (this r.2) = M_ e.
Proof.
  cbn zeta.
  assert (HIR : IR_ (freshEngine Interpreter) = Some (mkIR None [] []))
    by reflexivity.
  destruct (setBackend_swaps_the_backend (GO := refOps) CPU (freshEngine Interpreter)
              initialProcess _ HIR) as (Hok & HM & _ & Hk & _).
  exact (conj HIR (conj Hok (conj Hk HM))).
Defined.

(** Property X5 on the reference backend. *)
Lemma IR_is_never_null_witness :
  let s := mkState (freshEngine CPU) initialProcess in
  is_Some (IR_ (this s))
  ∧ is_Some (IR_ (this (compile Infer 0%nat s).2))
  ∧ is_Some (IR_ (this (run [Some 0%nat] [batch x05 x06] s).2)).
Proof.
  cbn zeta.
  assert (Hs : is_Some (IR_ (this (mkState (freshEngine CPU) initialProcess))))
    by (exists (mkIR None [] []); reflexivity).
  destruct (IR_is_never_null (GO := refOps)) as [_ H].
  destruct (H _ Hs) as (_ & _ & _ & Hc & _ & Hr & _).
  exact (conj Hs (conj (Hc Infer 0%nat) (Hr [Some 0%nat] [batch x05 x06]))).
Defined.

(** Property X6 on the reference backend. *)
Lemma binding_changes_named_payloads_only_witness :
  let s := mkState (compiledEngine Interpreter) initialProcess in
  let s' := (forRange 0 1 (run_step [Some 0%nat] [batch x05 x06]) s).2 in
  length [batch x05 x06] = length [Some 0%nat]
  ∧ variables (M_ (this s')) !! 1%nat = variables (M_ (this s)) !! 1%nat
  ∧ functions (M_ (this s')) = functions (M_ (this s)).
Proof.
  cbn zeta.
  assert (Hlen : length [batch x05 x06] = length [Some 0%nat :> VarPtr])
    by reflexivity.
  destruct (binding_changes_named_payloads_only [Some 0%nat] [batch x05 x06]
              (mkState (compiledEngine Interpreter) initialProcess) Hlen)
    as (_ & Hother & Hf & _).
  split; [exact Hlen|]. split; [|exact Hf].
  apply Hother. intros Hin.
  apply elem_of_cons in Hin as [Hin|Hin]; [discriminate Hin|inversion Hin].
Defined.

(** Property X7 on the reference backend: Variable 0 is Public, Variable 1
    is Private. *)
Lemma run_rejected_half_way_keeps_earlier_bindings_witness :
  let e := compiledEngine Interpreter in
  let r := run [Some 0%nat; Some 1%nat] [batch x05 x06; batch x05 x06]
             (mkState e initialProcess) in
  bindable (M_ e) (Some 0%nat) (batch x05 x06)
  ∧ ¬ bindable (M_ e) (Some 1%nat) (batch x05 x06)
  ∧ is_ok r.1 = false
  ∧ payloadOf (M_ (this r.2)) (Some 0%nat) = Some (batch x05 x06)
  ∧ trace (proc r.2) = trace initialProcess ++ [EvCopyFrom 0%nat (batch x05 x06)].
Proof.
  cbn zeta.
  assert (HIR : IR_ (compiledEngine Interpreter)
                = Some (mkIR (Some 0%nat) [3; 5]%nat [1; 0]%nat))
    by (vm_compute; reflexivity).
  assert (Hb0 : bindable (M_ (compiledEngine Interpreter)) (Some 0%nat)
                  (batch x05 x06)).
  { exists 0%nat, inputVar. split; [reflexivity|].
    split; [vm_compute; reflexivity|]. split; reflexivity. }
  assert (Hb1 : ¬ bindable (M_ (compiledEngine Interpreter)) (Some 1%nat)
                    (batch x05 x06)).
  { intros (id & var & Hid & Hl & Hv & _). injection Hid as <-.
    vm_compute in Hl. injection Hl as <-. discriminate Hv. }
  destruct (run_rejected_half_way_keeps_earlier_bindings
              [Some 0%nat] [] [batch x05 x06] [] (Some 1%nat) (batch x05 x06)
              (compiledEngine Interpreter) initialProcess _ HIR)
    as (Hno & _ & Hpay & Htr & _).
  { discriminate. } { reflexivity. } { reflexivity. }
  { constructor; [exact Hb0|constructor]. } { exact Hb1. }
  split; [exact Hb0|]. split; [exact Hb1|]. split; [exact Hno|].
  split; [|exact Htr].
  apply (Hpay 0%nat); [reflexivity..|]. intros Hin. inversion Hin.
Defined.

(** Property X8 on the reference backend: the Private Variable 1 receives
    the first two samples of the dataset. *)
Lemma runBatch_binds_private_variables_witness :
  let s := mkState (compiledEngine Interpreter) initialProcess in
  visibility weightVar = Private
  ∧ (updateInputs_step [Some 1%nat] [dataset] 0 0 s).1 = Ok tt
  ∧ payloadOf (M_ (this (updateInputs_step [Some 1%nat] [dataset] 0 0 s).2))
      (Some 1%nat) = Some (batch x01 x02)
  ∧ run_step [Some 1%nat] [dataset] 0 s
    = (AssertionFailed "Trying to update a private variable", s).
Proof.
  cbn zeta.
  assert (Hl : variables (M_ (this (mkState (compiledEngine Interpreter)
                                       initialProcess))) !! 1%nat
               = Some weightVar) by (vm_compute; reflexivity).
  assert (Hc : copyConsecutiveSlices (payload weightVar) dataset (0 `mod` 4)%Z
               = Some (batch x01 x02)) by (vm_compute; reflexivity).
  destruct (runBatch_binds_private_variables [Some 1%nat] [dataset] 0 0 1%nat
              weightVar dataset (batch x01 x02) 4 2 [1%Z]
              (mkState (compiledEngine Interpreter) initialProcess)
              eq_refl eq_refl Hl eq_refl eq_refl eq_refl)
    as [Hstep Hrun]; [discriminate|exact Hc|].
  split; [reflexivity|]. rewrite Hstep. split; [reflexivity|].
  split; [vm_compute; reflexivity|exact Hrun].
Defined.

(** Property X9 on the reference backend. *)
Lemma runBatch_without_iterations_witness :
  let s := mkState (compiledEngine Interpreter) initialProcess in
  (runBatch 0 [Some 0%nat] [dataset] s).2 = s
  ∧ (runBatch 0 [Some 0%nat] [dataset] s).1 = Ok tt.
Proof.
  cbn zeta.
  destruct (runBatch_without_iterations [Some 0%nat] [dataset]
              (mkState (compiledEngine Interpreter) initialProcess))
    as [Hst Hok].
  split; [exact Hst|]. apply Hok.
  split; [discriminate|]. split; [reflexivity|]. split.
  - eexists. split; [vm_compute; reflexivity|cbn; discriminate].
  - exists 2%Z. vm_compute. reflexivity.
Defined.

(** Property X10 on the reference backend with the slice copy that does
    not wrap: of three iterations over three samples, two at a time, the
    first completes and the second fails in its copy. *)
Lemma runBatch_keeps_cursor_progress_witness :
  let r := call (runBatch (GO := refOpsNoWrap) 3 [Some 0%nat] [dataset3])
             (compiledEngine Interpreter) initialProcess in
  is_size_t (trainCounter initialProcess)
  ∧ r.1.1 = AssertionFailed "copyConsecutiveSlices"
  ∧ ∃ evs, trace r.2 = trace initialProcess ++ evs
      ∧ forwardPasses evs = 1%nat
      ∧ trainCounter r.2 = wrap (trainCounter initialProcess + Z.of_nat 1 * 2).
Proof.
  cbn zeta.
  assert (H1 : is_size_t (trainCounter initialProcess)) by (split; done).
  split; [exact H1|]. split; [vm_compute; reflexivity|].
  destruct (runBatch_keeps_cursor_progress (GO := refOpsNoWrap) 3 [Some 0%nat]
              [dataset3] (compiledEngine Interpreter) initialProcess H1)
    as (_ & evs & Htr & _ & _ & _ & _ & Hpos).
  exists evs. split; [exact Htr|].
  change (trace initialProcess ++ evs) with evs in Htr.
  assert (Hj : forwardPasses evs = 1%nat)
    by (rewrite <- Htr; vm_compute; reflexivity).
  split; [exact Hj|].
  rewrite Hj in Hpos. destruct (Hpos (le_n 1)) as (B & HB & Hcur).
  assert (HB2 : Some 2%Z = Some B) by (rewrite <- HB; vm_compute; reflexivity).
  injection HB2 as <-. exact Hcur.
Defined.

(** Property X11 on the reference backend: two batches of two samples go
    once through the four samples of the dataset. *)
Lemma runBatch_wraps_to_the_first_slice_witness :
  let r := call (runBatch 2 [Some 0%nat] [dataset])
             (compiledEngine Interpreter) initialProcess in
  is_size_t (trainCounter initialProcess)
  ∧ r.1.1 = Ok tt
  ∧ batchSizeOf (M_ (compiledEngine Interpreter)) [Some 0%nat] = Some 2%Z
  ∧ trainCounter r.2 = (trainCounter initialProcess + 4)%Z
  ∧ sliceEvents [Some 0%nat] [dataset] (trainCounter r.2)
    = sliceEvents [Some 0%nat] [dataset] (trainCounter initialProcess).
Proof.
  cbn zeta.
  assert (H1 : is_size_t (trainCounter initialProcess)) by (split; done).
  assert (H2 : call (runBatch 2 [Some 0%nat] [dataset])
                 (compiledEngine Interpreter) initialProcess
               = (Ok tt,
                  (call (runBatch 2 [Some 0%nat] [dataset])
                     (compiledEngine Interpreter) initialProcess).1.2,
                  (call (runBatch 2 [Some 0%nat] [dataset])
                     (compiledEngine Interpreter) initialProcess).2))
    by (vm_compute; reflexivity).
  assert (H3 : batchSizeOf (M_ (compiledEngine Interpreter)) [Some 0%nat]
               = Some 2%Z) by (vm_compute; reflexivity).
  assert (H4 : Forall (λ t, tdims t !! 0%nat = Some 4%Z) [dataset])
    by (repeat constructor).
  destruct (runBatch_wraps_to_the_first_slice 2 [Some 0%nat] [dataset]
              _ _ _ _ 2 4 H1 H2 H3) as (Hc & _ & Hev);
    [reflexivity|reflexivity|reflexivity|exact H4|].
  split; [exact H1|]. split; [by rewrite H2|]. split; [exact H3|].
  split; [exact Hc|exact Hev].
Defined.

(** Runs of the engine on the reference backend. *)

Example compile_on_interpreter :
  trace (call (compile Infer 0%nat) (freshEngine Interpreter) initialProcess).2
  = [ EvClearIR; EvCreateBackend Interpreter; EvVerify 0%nat;
      EvOptimizeGraph 0%nat Infer; EvTransformPreLowering 0%nat Infer false;
      EvLower 0%nat Infer; EvOptimizeGraph 0%nat Infer;
      EvTransformPostLowering 0%nat Infer false;
      EvSetGraph 0%nat; EvGenerateIR; EvOptimizeIR Infer; EvBackendInit ].
Proof. vm_compute. reflexivity. Qed.

Example run_rejects_private_variable :
  (call (run [Some 1%nat] [batch x05 x06]) (compiledEngine Interpreter)
     initialProcess).1.1
  = AssertionFailed "Trying to update a private variable".
Proof. vm_compute. reflexivity. Qed.

Example run_rejects_other_shape :
  (call (run [Some 0%nat] [dataset]) (compiledEngine Interpreter)
     initialProcess).1.1
  = AssertionFailed "Invalid slice size".
Proof. vm_compute. reflexivity. Qed.

Example run_binds_payload :
  payloadOf
    (M_ (call (run [Some 0%nat] [batch x05 x06]) (compiledEngine Interpreter)
           initialProcess).1.2) (Some 0%nat)
  = Some (batch x05 x06).
Proof. vm_compute. reflexivity. Qed.

Example runBatch_three_iterations :
  let r := call (runBatch 3 [Some 0%nat] [dataset])
             (compiledEngine Interpreter) initialProcess in
  trainCounter r.2 = 6%Z
  ∧ trace r.2 = [ EvCopyConsecutiveSlices 0%nat dataset 0; EvDoForwardPass;
                  EvCopyConsecutiveSlices 0%nat dataset 2; EvDoForwardPass;
                  EvCopyConsecutiveSlices 0%nat dataset 0; EvDoForwardPass ]
  ∧ payloadOf (M_ r.1.2) (Some 0%nat) = Some (batch x01 x02).
Proof. vm_compute. done. Qed.

Example runBatch_on_empty_dataset_is_undefined :
  (call (runBatch 1 [Some 0%nat] [mkTensor (mkType FloatTy [0; 1]%Z) []])
     (compiledEngine Interpreter) initialProcess).1.1
  = Undefined.
Proof. vm_compute. reflexivity. Qed.

End OnReference.

End EngineFacts.

(** * Facts about the standalone bundle consumer *)

Module StandaloneFacts.
Import Standalone CompFacts.

Ltac unfold_prog :=
  unfold calloc, memcpy, emit, free, parseCommandLineOptions in *.

(** *** Blocks of memory *)

Lemma overwrite_whole (contents : list byte) :
  overwrite (replicate (Z.to_nat (Z.of_nat (length contents))) x00) 0 contents
    (Z.of_nat (length contents)) = contents.
Proof.
  unfold overwrite. rewrite Z.add_0_l, Nat2Z.id. cbn [Z.to_nat take app].
  rewrite firstn_all, drop_ge by (by rewrite length_replicate).
  apply app_nil_r.
Qed.

Lemma length_overwrite dst off src n :
  (0 ≤ off)%Z → (0 ≤ n)%Z → (off + n ≤ Z.of_nat (length dst))%Z →
  (n ≤ Z.of_nat (length src))%Z →
  length (overwrite dst off src n) = length dst.
Proof.
  intros. unfold overwrite. rewrite !length_app, !length_take, length_drop. lia.
Qed.

(** *** Steps that only append to the output *)

#[local] Instance keepsAll_refl : Reflexive keepsAll.
Proof. by intros s. Qed.

#[local] Instance keepsAll_trans : Transitive keepsAll.
Proof. by intros s1 s2 s3 _ _. Qed.

Lemma prog_appends_ret P {A} (a : A) : appends P (mret a).
Proof. apply appendsOn_ret; apply _. Qed.

Lemma prog_appends_bind P {A B} (c : Prog A) (f : A → Prog B) :
  appends P c → (∀ a, appends P (f a)) → appends P (c ≫= f).
Proof. apply appendsOn_bind; apply _. Qed.

Lemma prog_appends_abort P {A} msg : appends P (abort msg : Prog A).
Proof. apply appendsOn_abort; apply _. Qed.

Lemma prog_appends_undefined P {A} : appends P (undefined : Prog A).
Proof. apply appendsOn_undefined; apply _. Qed.

Lemma prog_appends_exit P {A} code : appends P (exit code : Prog A).
Proof. apply appendsOn_exit; apply _. Qed.

Lemma prog_appends_assert P b msg : appends P (assert b msg : Prog unit).
Proof. apply appendsOn_assert; apply _. Qed.

Lemma prog_appends_get P : appends P (get : Prog Machine).
Proof. apply appendsOn_get; apply _. Qed.

Lemma prog_appends_emit (P : Event → Prop) ev : P ev → appends P (emit ev).
Proof.
  intros HP. apply appendsOn_modify. intros s. split; [done|].
  exists [ev]. split; [done|]. by constructor.
Qed.

Ltac appends_step :=
  first
    [ apply prog_appends_ret | apply prog_appends_abort | apply prog_appends_undefined
    | apply prog_appends_exit | apply prog_appends_assert | apply prog_appends_get
    | apply prog_appends_emit; by intros []
    | apply prog_appends_bind; [|intros ?]
    | match goal with
      | |- appends _ (match ?x with _ => _ end) => destruct x
      | |- appends _ (if ?x then _ else _) => destruct x
      | |- appends _ (let '(_, _) := ?x in _) => destruct x
      end ].

Ltac appends_auto := repeat appends_step.

Lemma calloc_appends size : appends notEntryPoint (calloc size).
Proof. unfold calloc. appends_auto. Qed.

Lemma memcpy_appends dst off src n : appends notEntryPoint (memcpy dst off src n).
Proof. unfold memcpy. appends_auto. Qed.

Lemma free_appends block : appends notEntryPoint (free block).
Proof. unfold free. appends_auto. Qed.

Section Facts.
Context {float : Type}.
Variable decodeFloat : list byte → float.
Variable float_zero : float.
Variable float_gt : float → float → bool.
Variable lenet_mnist_config : BundleConfig.
Variable lenet_mnist :
  list byte → list byte → list byte → list byte * list byte * list byte.
Variable files : string → option (list byte).
Variable decodedImages : list string → ImageResult.

#[local] Abbreviation config := lenet_mnist_config.
#[local] Abbreviation theMain :=
  (main decodeFloat float_zero float_gt config lenet_mnist files decodedImages).
#[local] Abbreviation weightsFile := "lenet_mnist.weights"%string.

(** *** Loading the constant weights *)

Lemma initConstantWeights_spec name cfg s :
  let r := initConstantWeights files name cfg s in
  match files name with
  | None => r = (Exited 1, logged s [ErrCouldNotOpen name])
  | Some contents =>
      let n := Z.of_nat (length contents) in
      if decide (n = constantWeightVarsMemSize cfg)
      then ∃ readMsg,
             r = (Ok contents,
                  logged s [EvCalloc n; OutAllocatedWeights n; readMsg])
             ∧ notEntryPoint readMsg
      else r = (AssertionFailed "Wrong weights file size",
                logged s [EvCalloc n; OutAllocatedWeights n])
  end.
Proof.
  cbn zeta. unfold initConstantWeights, logged.
  destruct (files name) as [contents|]; [|done].
  unfold_prog. unfold_comp. cbn.
  destruct (decide _) as [Heq|Hne].
  - rewrite bool_decide_eq_true_2 by done. cbn.
    rewrite overwrite_whole.
    case_bool_decide; cbn; rewrite <- !app_assoc; eexists; (split; [done|]);
      by intros [].
  - rewrite bool_decide_eq_false_2 by done. cbn. by rewrite <- !app_assoc.
Qed.

(** *** The mutable region *)

Lemma loadImagesAndPreprocess_appends names :
  appends notEntryPoint (loadImagesAndPreprocess decodedImages names).
Proof. unfold loadImagesAndPreprocess. appends_auto. Qed.

Lemma initMutableWeightVars_appends cfg :
  appends notEntryPoint (initMutableWeightVars decodedImages cfg).
Proof.
  unfold initMutableWeightVars, allocateMutableWeightVars.
  repeat first [ apply calloc_appends | apply memcpy_appends
               | apply loadImagesAndPreprocess_appends | appends_step ].
Qed.

Lemma initMutableWeightVars_ok cfg s m s' :
  initMutableWeightVars decodedImages cfg s = (Ok m, s') →
  let size := mutableWeightVarsMemSize cfg in
  ∃ inputT loadedBytes imageBytes,
    s' = logged s [ EvCalloc size; OutAllocatedMutable size;
                    OutLoadedImages loadedBytes;
                    OutCopyingImageData imageBytes;
                    EvMemcpy 0 imageBytes; EvMemcpy imageBytes imageBytes ]
    ∧ m = overwrite (overwrite (replicate (Z.to_nat size) x00) 0 inputT imageBytes)
            imageBytes inputT imageBytes
    ∧ length m = Z.to_nat size.
Proof.
  unfold initMutableWeightVars, allocateMutableWeightVars,
    loadImagesAndPreprocess, logged.
  unfold_prog. unfold_comp. cbn.
  case_bool_decide; cbn; [|done].
  destruct (decodedImages _) as [pixels| | | |]; cbn; [|done..].
  case_bool_decide as Hb1; cbn; [|done].
  case_bool_decide as Hb2; cbn; [|done].
  intros [= <- <-].
  eexists _, _, _. split_and!; [by rewrite <- !app_assoc|done|].
  destruct Hb1 as (? & ? & ? & ?), Hb2 as (? & ? & ? & ?).
  rewrite !length_overwrite by done. apply length_replicate.
Qed.

(** *** Reporting the results *)

Lemma findMax_state block off n : ∀ i acc s,
  (findMax decodeFloat float_gt block off i n acc s).2 = s.
Proof.
  induction n as [|n IH]; intros i acc s; cbn [findMax]; [done|].
  unfold readFloat. unfold_comp. case_bool_decide; cbn; [|done]. apply IH.
Qed.

(** [dumpInferenceResults] looks at nothing but the bytes from
    [resultsOffset] on: two mutable regions of one size that agree there
    give the same report, whatever the rest holds. *)
Lemma readFloat_tail_only (b1 b2 : list byte) off i s :
  (0 ≤ off)%Z → length b1 = length b2 →
  drop (Z.to_nat off) b1 = drop (Z.to_nat off) b2 →
  readFloat decodeFloat b1 off i s = readFloat decodeFloat b2 off i s.
Proof.
  intros Hoff Hlen Hdrop. unfold readFloat. rewrite Hlen.
  case_bool_decide; [|done]. do 3 f_equal.
  replace (Z.to_nat (off + sizeof_float * Z.of_nat i))
    with (Z.to_nat off + Z.to_nat (sizeof_float * Z.of_nat i))%nat
    by (unfold sizeof_float; lia).
  by rewrite <- !drop_drop, Hdrop.
Qed.

Lemma findMax_tail_only (b1 b2 : list byte) off n : ∀ i acc s,
  (0 ≤ off)%Z → length b1 = length b2 →
  drop (Z.to_nat off) b1 = drop (Z.to_nat off) b2 →
  findMax decodeFloat float_gt b1 off i n acc s
  = findMax decodeFloat float_gt b2 off i n acc s.
Proof.
  induction n as [|n IH]; intros i acc s Hoff Hlen Hdrop; cbn [findMax]; [done|].
  unfold_comp. rewrite (readFloat_tail_only b1 b2) by done.
  destruct (readFloat decodeFloat b2 off i s) as [[r| | |] s']; try done.
  by apply IH.
Qed.

Lemma dumpInferenceResults_tail_only cfg (b1 b2 : list byte) s :
  (0 ≤ resultsOffset cfg)%Z → length b1 = length b2 →
  drop (Z.to_nat (resultsOffset cfg)) b1 = drop (Z.to_nat (resultsOffset cfg)) b2 →
  dumpInferenceResults decodeFloat float_zero float_gt cfg b1 s
  = dumpInferenceResults decodeFloat float_zero float_gt cfg b2 s.
Proof.
  intros Hoff Hlen Hdrop. unfold dumpInferenceResults. unfold_comp.
  by rewrite (findMax_tail_only b1 b2).
Qed.

Lemma dumpInferenceResults_appends cfg block :
  appends notEntryPoint
    (dumpInferenceResults decodeFloat float_zero float_gt cfg block).
Proof.
  unfold dumpInferenceResults. apply prog_appends_bind.
  - apply silent; [apply _|]. intros s. apply findMax_state.
  - intros [maxIdx ?]. appends_auto.
Qed.

(** *** [main] *)

Lemma entryPointCalls_none evs :
  Forall notEntryPoint evs → entryPointCalls evs = [].
Proof.
  unfold entryPointCalls. induction 1 as [|ev evs Hev _ IH]; [done|].
  rewrite filter_cons_False; done.
Qed.

Lemma setupEvents_notEntryPoint cfg readMsg loadedBytes imageBytes :
  notEntryPoint readMsg →
  Forall notEntryPoint (setupEvents cfg readMsg loadedBytes imageBytes).
Proof. intros H. unfold setupEvents. repeat constructor; try done; by intros []. Qed.

Lemma main_tail_appends c m a :
  appends notEntryPoint
    (let '(c', m', a') := lenet_mnist c m a in
     dumpInferenceResults decodeFloat float_zero float_gt config m';;
     free a';; free c';; free m';; mret 0%Z).
Proof.
  destruct (lenet_mnist c m a) as [[c' m'] a'].
  repeat first [ apply dumpInferenceResults_appends | apply free_appends
               | appends_step ].
Qed.

Lemma main_cases argv s :
  let r := theMain argv s in
  ∃ evs, output r.2 = output s ++ evs ∧
    match files weightsFile with
    | None => r.1 = Exited 1 ∧ evs = [ErrCouldNotOpen weightsFile]
    | Some contents =>
        let n := Z.of_nat (length contents) in
        if decide (n = constantWeightVarsMemSize config)
        then (is_ok r.1 = false ∧ Forall notEntryPoint evs)
             ∨ ∃ readMsg loadedBytes imageBytes inputT m post,
                 evs = setupEvents config readMsg loadedBytes imageBytes
                       ++ [EvEntryPoint contents m
                             (replicate (Z.to_nat (activationsMemSize config)) x00)]
                       ++ post
                 ∧ notEntryPoint readMsg ∧ Forall notEntryPoint post
                 ∧ m = overwrite
                         (overwrite
                            (replicate (Z.to_nat (mutableWeightVarsMemSize config)) x00)
                            0 inputT imageBytes)
                         imageBytes inputT imageBytes
                 ∧ length m = Z.to_nat (mutableWeightVarsMemSize config)
        else r.1 = AssertionFailed "Wrong weights file size"
             ∧ evs = [EvCalloc n; OutAllocatedWeights n]
    end.
Proof.
  cbn zeta. unfold main.
  set (s0 := mkMachine (inputImageFilenames s ++ drop 1 argv) (output s)).
  assert (Hp : parseCommandLineOptions argv s = (Ok tt, s0)) by done.
  step_bind Hp.
  pose proof (initConstantWeights_spec weightsFile config s0) as Hc.
  cbn zeta in Hc.
  destruct (files weightsFile) as [contents|].
  2:{ step_bind Hc. by exists [ErrCouldNotOpen weightsFile]. }
  destruct (decide _) as [Hn|Hn].
  2:{ step_bind Hc. by eexists. }
  destruct Hc as (readMsg & Hc & HreadMsg).
  step_bind Hc.
  set (n := Z.of_nat (length contents)) in *.
  set (s1 := logged s0 _).
  destruct (initMutableWeightVars_appends config s1) as (_ & evs2 & Hout2 & Hno2).
  destruct (initMutableWeightVars decodedImages config s1) as [o s2] eqn:Hm.
  cbn [snd] in Hout2.
  destruct o as [m|msg| |code].
  2-4: unfold mbind, Comp_bind, comp_bind; rewrite Hm; cbn [fst snd];
       exists ([EvCalloc n; OutAllocatedWeights n; readMsg] ++ evs2);
       (split; [by rewrite Hout2, app_assoc|]); left; (split; [done|]);
       apply Forall_app; (split; [|done]);
       repeat constructor; try done; by intros [].
  step_bind Hm.
  destruct (initMutableWeightVars_ok _ _ _ _ Hm)
    as (inputT & loadedBytes & imageBytes & -> & Hmeq & Hmlen).
  set (a := replicate (Z.to_nat (activationsMemSize config)) x00).
  set (s2 := logged s1 _) in *.
  pose (s3 := logged s2 [EvCalloc (activationsMemSize config)]).
  assert (Ha : initActivations config s2 = (Ok a, s3)) by done.
  step_bind Ha.
  pose (s4 := logged s3 [EvEntryPoint contents m a]).
  assert (He : emit (EvEntryPoint contents m a) s3 = (Ok tt, s4)) by done.
  step_bind He.
  destruct (main_tail_appends contents m a s4) as (_ & post & Hpost & Hnopost).
  eexists. split.
  - rewrite Hpost. unfold s4, s3, s2, s1, s0, logged. cbn [output].
    rewrite <- !app_assoc. reflexivity.
  - right. exists readMsg, loadedBytes, imageBytes, inputT, m, post.
    split_and!; try done. unfold setupEvents. rewrite <- Hn. by fold n.
Qed.

Lemma main_not_ok_cases argv s contents :
  files weightsFile = Some contents →
  Z.of_nat (length contents) ≠ constantWeightVarsMemSize config →
  (theMain argv s).1 = AssertionFailed "Wrong weights file size"
  ∧ ∃ evs, output (theMain argv s).2 = output s ++ evs
           ∧ Forall notEntryPoint evs.
Proof.
  intros Hf Hne. destruct (main_cases argv s) as (evs & Hout & Hcase).
  rewrite Hf in Hcase. cbn zeta in Hcase.
  rewrite decide_False in Hcase by done. destruct Hcase as [Hr ->].
  split; [done|]. eexists. split; [done|].
  repeat constructor; by intros [].
Qed.

(** Claim C4. With the weights file on disk: when its length differs from
    [constantWeightVarsMemSize], [main] aborts on the assertion
    "Wrong weights file size" and the entry point is never called; when the
    length is the configured one, [initConstantWeights] returns a block
    that is byte for byte the file, and it is that block the entry point
    receives. *)
Theorem weights_file_length_checked (argv : list string) (s : Machine)
    (contents : list byte) :
  files weightsFile = Some contents →
  let r := theMain argv s in
  let n := Z.of_nat (length contents) in
  (n ≠ constantWeightVarsMemSize config →
     r.1 = AssertionFailed "Wrong weights file size"
     ∧ ∃ evs, output r.2 = output s ++ evs ∧ entryPointCalls evs = [])
  ∧ (n = constantWeightVarsMemSize config →
     (∀ s0, (initConstantWeights files weightsFile config s0).1 = Ok contents)
     ∧ ∃ evs, output r.2 = output s ++ evs
              ∧ ∀ c m a, EvEntryPoint c m a ∈ evs → c = contents).
Proof.
  intros Hf. cbn zeta. split.
  - intros Hne.
    destruct (main_not_ok_cases argv s contents Hf Hne) as (Hr & evs & Hout & Hno).
    split; [done|]. exists evs. split; [done|]. by apply entryPointCalls_none.
  - intros Heq. split.
    + intros s0. pose proof (initConstantWeights_spec weightsFile config s0) as Hc.
      rewrite Hf in Hc. cbn zeta in Hc. rewrite decide_True in Hc by done.
      destruct Hc as (readMsg & -> & _). done.
    + destruct (main_cases argv s) as (evs & Hout & Hcase).
      rewrite Hf in Hcase. cbn zeta in Hcase.
      rewrite decide_True in Hcase by done.
      exists evs. split; [done|]. intros c m a Hin.
      destruct Hcase as [[_ Hno]|(readMsg & lb & ib & inputT & m' & post
                                  & -> & Hrm & Hpost & _)].
      * rewrite Forall_forall in Hno. by destruct (Hno _ Hin).
      * pose proof (setupEvents_notEntryPoint config readMsg lb ib Hrm) as Hsetup.
        rewrite Forall_forall in Hsetup, Hpost.
        apply elem_of_app in Hin as [Hin|Hin]; [by destruct (Hsetup _ Hin)|].
        apply elem_of_cons in Hin as [Hin|Hin]; [congruence|].
        by destruct (Hpost _ Hin).
Qed.

(** Claim C8. In every run of [main], either the run fails before the entry
    point is called, or the entry point is called exactly once, after the
    events of [setupEvents]: the constant block has the configured size, the
    mutable block has the configured size and is the zeroed block with the
    image data written over it twice, and the activations block is the
    zeroed block of the configured size. A run that succeeds called the
    entry point exactly once. *)
Theorem consumer_allocates_and_zeroes (argv : list string) (s : Machine) :
  let r := theMain argv s in
  ∃ evs, output r.2 = output s ++ evs
    ∧ ((is_ok r.1 = false ∧ entryPointCalls evs = [])
       ∨ ∃ c m a readMsg loadedBytes imageBytes inputT post,
           evs = setupEvents config readMsg loadedBytes imageBytes
                 ++ [EvEntryPoint c m a] ++ post
           ∧ entryPointCalls evs = [EvEntryPoint c m a]
           ∧ Z.of_nat (length c) = constantWeightVarsMemSize config
           ∧ length m = Z.to_nat (mutableWeightVarsMemSize config)
           ∧ length a = Z.to_nat (activationsMemSize config)
           ∧ a = replicate (Z.to_nat (activationsMemSize config)) x00
           ∧ m = overwrite
                   (overwrite
                      (replicate (Z.to_nat (mutableWeightVarsMemSize config)) x00)
                      0 inputT imageBytes)
                   imageBytes inputT imageBytes)
    ∧ (is_ok r.1 = true → length (entryPointCalls evs) = 1%nat).
Proof.
  cbn zeta. destruct (main_cases argv s) as (evs & Hout & Hcase).
  exists evs. split; [done|].
  assert (Hnone : ∀ evs', Forall notEntryPoint evs' →
            is_ok (theMain argv s).1 = false →
            (is_ok (theMain argv s).1 = false ∧ entryPointCalls evs' = [])
            ∧ (is_ok (theMain argv s).1 = true
               → length (entryPointCalls evs') = 1%nat)).
  { intros evs' Hno Hr. split; [split; [done|by apply entryPointCalls_none]|].
    intros Hr'. congruence. }
  destruct (files weightsFile) as [contents|].
  2:{ destruct Hcase as [Hr ->].
      destruct (Hnone [ErrCouldNotOpen weightsFile]) as [H1 H2];
        [repeat constructor; by intros [] | by rewrite Hr | by split; [left|]]. }
  cbn zeta in Hcase. destruct (decide _) as [Heq|Hne].
  2:{ destruct Hcase as [Hr ->].
      destruct (Hnone [EvCalloc (Z.of_nat (length contents));
                       OutAllocatedWeights (Z.of_nat (length contents))])
        as [H1 H2];
        [repeat constructor; by intros [] | by rewrite Hr | by split; [left|]]. }
  destruct Hcase as [[Hr Hno]|(readMsg & lb & ib & inputT & m & post
                               & -> & Hrm & Hpost & Hm & Hlen)].
  { destruct (Hnone evs Hno Hr) as [H1 H2]. by split; [left|]. }
  assert (Hcalls :
    entryPointCalls (setupEvents config readMsg lb ib
       ++ [EvEntryPoint contents m
             (replicate (Z.to_nat (activationsMemSize config)) x00)] ++ post)
    = [EvEntryPoint contents m
         (replicate (Z.to_nat (activationsMemSize config)) x00)]).
  { unfold entryPointCalls. rewrite !filter_app.
    fold (entryPointCalls (setupEvents config readMsg lb ib)).
    fold (entryPointCalls post).
    rewrite (entryPointCalls_none post Hpost).
    rewrite (entryPointCalls_none _
               (setupEvents_notEntryPoint config readMsg lb ib Hrm)).
    rewrite filter_cons_True by done. done. }
  split.
  - right. eexists contents, m, _, readMsg, lb, ib, inputT, post.
    split_and!; try done. apply length_replicate.
  - intros _. by rewrite Hcalls.
Qed.

(** ** Further facts about the consumer *)

(** *** Indexing *)

Lemma mul64_wrap a a' b : a = wrap a' → mul64 a b = wrap (a' * b).
Proof. intros ->. unfold mul64, wrap. apply Zmult_mod_idemp_l. Qed.

Lemma add64_wrap_l a a' b : a = wrap a' → add64 a b = wrap (a' + b).
Proof. intros ->. unfold add64, wrap. apply Zplus_mod_idemp_l. Qed.

Lemma add64_wrap a a' b b' :
  a = wrap a' → b = wrap b' → add64 a b = wrap (a' + b').
Proof. intros -> ->. unfold add64, wrap. symmetry. apply Zplus_mod. Qed.

Ltac size_t_arith :=
  repeat first [ reflexivity | apply add64_wrap_l | apply add64_wrap
               | apply mul64_wrap ].

Lemma wrap_small a : (0 ≤ a < size_t_modulus)%Z → wrap a = a.
Proof. apply Z.mod_small. Qed.

Lemma quotient_remainder_unique (d q r q' r' : Z) :
  (0 ≤ r < d)%Z → (0 ≤ r' < d)%Z → (q * d + r = q' * d + r')%Z →
  q = q' ∧ r = r'.
Proof. intros Hr Hr' Heq. assert (q = q') by nia. subst. lia. Qed.

Lemma row_major_bound (n d q r : Z) :
  (0 ≤ q < n)%Z → (0 ≤ r < d)%Z → (0 ≤ q * d + r < n * d)%Z.
Proof.
  intros Hq Hr.
  assert (q * d ≤ (n - 1) * d)%Z by (apply Z.mul_le_mono_nonneg_r; lia).
  assert (0 ≤ q * d)%Z by (apply Z.mul_nonneg_nonneg; lia).
  lia.
Qed.

Lemma row_major_bound3 (d0 d1 d2 a b c : Z) :
  (0 ≤ a < d0)%Z → (0 ≤ b < d1)%Z → (0 ≤ c < d2)%Z →
  (0 ≤ a * d1 * d2 + b * d2 + c < d0 * d1 * d2)%Z.
Proof.
  intros Ha Hb Hc.
  pose proof (row_major_bound d0 d1 a b Ha Hb) as H1.
  pose proof (row_major_bound (d0 * d1) d2 (a * d1 + b) c H1 Hc) as H2.
  lia.
Qed.

Lemma row_major_bound4 (d0 d1 d2 d3 a b c e : Z) :
  (0 ≤ a < d0)%Z → (0 ≤ b < d1)%Z → (0 ≤ c < d2)%Z → (0 ≤ e < d3)%Z →
  (0 ≤ a * d1 * d2 * d3 + b * d2 * d3 + c * d3 + e < d0 * d1 * d2 * d3)%Z.
Proof.
  intros Ha Hb Hc He.
  pose proof (row_major_bound3 d0 d1 d2 a b c Ha Hb Hc) as H1.
  pose proof (row_major_bound (d0 * d1 * d2) d3 _ e H1 He) as H2.
  lia.
Qed.

Lemma getXYZ_wrap (d0 d1 d2 a b c : Z) :
  getXYZ [d0; d1; d2] a b c = Some (wrap (a * d1 * d2 + b * d2 + c)).
Proof. unfold getXYZ. cbn. f_equal. size_t_arith. Qed.

Lemma getXYZW_wrap (d0 d1 d2 d3 a b c e : Z) :
  getXYZW [d0; d1; d2; d3] a b c e
  = Some (wrap (a * d1 * d2 * d3 + b * d2 * d3 + c * d3 + e)).
Proof. unfold getXYZW. cbn. f_equal. size_t_arith. Qed.

Lemma getXYZ_exact (d0 d1 d2 a b c : Z) :
  (0 ≤ a < d0)%Z → (0 ≤ b < d1)%Z → (0 ≤ c < d2)%Z →
  (d0 * d1 * d2 < size_t_modulus)%Z →
  getXYZ [d0; d1; d2] a b c = Some (a * d1 * d2 + b * d2 + c)%Z.
Proof.
  intros Ha Hb Hc Hfit. rewrite getXYZ_wrap, wrap_small; [done|].
  pose proof (row_major_bound3 d0 d1 d2 a b c Ha Hb Hc). lia.
Qed.

Lemma getXYZW_exact (d0 d1 d2 d3 a b c e : Z) :
  (0 ≤ a < d0)%Z → (0 ≤ b < d1)%Z → (0 ≤ c < d2)%Z → (0 ≤ e < d3)%Z →
  (d0 * d1 * d2 * d3 < size_t_modulus)%Z →
  getXYZW [d0; d1; d2; d3] a b c e
  = Some (a * d1 * d2 * d3 + b * d2 * d3 + c * d3 + e)%Z.
Proof.
  intros Ha Hb Hc He Hfit. rewrite getXYZW_wrap, wrap_small; [done|].
  pose proof (row_major_bound4 d0 d1 d2 d3 a b c e Ha Hb Hc He). lia.
Qed.

(** Property X12. [getXYZ] is the row-major index modulo [2^64]; within an
    array that fits in memory it is the row-major index itself, it stays
    below the number of elements and distinct positions get distinct
    indices. *)
Theorem getXYZ_is_row_major (d0 d1 d2 x y z : Z) :
  getXYZ [d0; d1; d2] x y z = Some (wrap (x * d1 * d2 + y * d2 + z))
  ∧ ((0 ≤ x < d0)%Z → (0 ≤ y < d1)%Z → (0 ≤ z < d2)%Z →
     (d0 * d1 * d2 < size_t_modulus)%Z →
     getXYZ [d0; d1; d2] x y z = Some (x * d1 * d2 + y * d2 + z)%Z
     ∧ (0 ≤ x * d1 * d2 + y * d2 + z < d0 * d1 * d2)%Z
     ∧ ∀ x' y' z', (0 ≤ x' < d0)%Z → (0 ≤ y' < d1)%Z → (0 ≤ z' < d2)%Z →
         getXYZ [d0; d1; d2] x' y' z' = getXYZ [d0; d1; d2] x y z →
         x' = x ∧ y' = y ∧ z' = z).
Proof.
  split; [apply getXYZ_wrap|]. intros Hx Hy Hz Hfit.
  split; [by apply getXYZ_exact|].
  split; [by apply row_major_bound3|].
  intros x' y' z' Hx' Hy' Hz'.
  rewrite !getXYZ_exact by done. intros [= Heq].
  pose proof (row_major_bound d0 d1 x y Hx Hy).
  pose proof (row_major_bound d0 d1 x' y' Hx' Hy').
  destruct (quotient_remainder_unique d2 (x' * d1 + y') z' (x * d1 + y) z)
    as [Hq ->]; [done..|lia|].
  destruct (quotient_remainder_unique d1 x' y' x y) as [-> ->]; done.
Qed.

(** Property X13. [getXYZW] is the row-major index of a four-dimensional
    array, with the same guarantees, and the index of an element of slice
    [x] is the start of that slice plus the [getXYZ] index within it. *)
Theorem getXYZW_is_row_major (d0 d1 d2 d3 x y z w : Z) :
  getXYZW [d0; d1; d2; d3] x y z w
  = Some (wrap (x * d1 * d2 * d3 + y * d2 * d3 + z * d3 + w))
  ∧ ((0 ≤ x < d0)%Z → (0 ≤ y < d1)%Z → (0 ≤ z < d2)%Z → (0 ≤ w < d3)%Z →
     (d0 * d1 * d2 * d3 < size_t_modulus)%Z →
     getXYZW [d0; d1; d2; d3] x y z w
     = Some (x * d1 * d2 * d3 + y * d2 * d3 + z * d3 + w)%Z
     ∧ (0 ≤ x * d1 * d2 * d3 + y * d2 * d3 + z * d3 + w < d0 * d1 * d2 * d3)%Z
     ∧ (∃ k, getXYZ [d1; d2; d3] y z w = Some k
             ∧ (0 ≤ k < d1 * d2 * d3)%Z
             ∧ getXYZW [d0; d1; d2; d3] x y z w = Some (x * (d1 * d2 * d3) + k)%Z)
     ∧ ∀ x' y' z' w', (0 ≤ x' < d0)%Z → (0 ≤ y' < d1)%Z → (0 ≤ z' < d2)%Z →
         (0 ≤ w' < d3)%Z →
         getXYZW [d0; d1; d2; d3] x' y' z' w' = getXYZW [d0; d1; d2; d3] x y z w →
         x' = x ∧ y' = y ∧ z' = z ∧ w' = w).
Proof.
  split; [apply getXYZW_wrap|]. intros Hx Hy Hz Hw Hfit.
  pose proof (row_major_bound3 d1 d2 d3 y z w Hy Hz Hw) as Hb3.
  pose proof (row_major_bound4 d0 d1 d2 d3 x y z w Hx Hy Hz Hw) as Hb.
  assert (Hfit3 : (d1 * d2 * d3 < size_t_modulus)%Z).
  { assert (1 * (d1 * d2 * d3) ≤ d0 * (d1 * d2 * d3))%Z
      by (apply Z.mul_le_mono_nonneg_r; lia). lia. }
  split; [by apply getXYZW_exact|]. split; [done|]. split.
  - exists (y * d2 * d3 + z * d3 + w)%Z.
    split; [by apply getXYZ_exact|]. split; [done|].
    rewrite getXYZW_exact by done. f_equal. lia.
  - intros x' y' z' w' Hx' Hy' Hz' Hw'.
    rewrite !getXYZW_exact by done. intros [= Heq].
    pose proof (row_major_bound3 d1 d2 d3 y' z' w' Hy' Hz' Hw') as Hb3'.
    destruct (quotient_remainder_unique (d1 * d2 * d3) x'
                (y' * d2 * d3 + z' * d3 + w') x (y * d2 * d3 + z * d3 + w))
      as [-> Hr]; [done..|lia|].
    pose proof (row_major_bound d1 d2 y z Hy Hz).
    pose proof (row_major_bound d1 d2 y' z' Hy' Hz').
    destruct (quotient_remainder_unique d3 (y' * d2 + z') w' (y * d2 + z) w)
      as [Hq ->]; [done..|lia|].
    destruct (quotient_remainder_unique d2 y' z' y z) as [-> ->]; done.
Qed.

(** *** The weights file *)

(** Property X14. Without the weights file [main] prints the message, exits
    with status 1 and does nothing else: nothing is allocated, no image is
    read, the entry point is not called, whatever the arguments. *)
Theorem main_exits_without_weights_file (argv : list string) (s : Machine) :
  files weightsFile = None →
  theMain argv s
  = (Exited 1, mkMachine (inputImageFilenames s ++ drop 1 argv)
                         (output s ++ [ErrCouldNotOpen weightsFile])).
Proof.
  intros Hf. unfold main, initConstantWeights. rewrite Hf. done.
Qed.

Lemma initConstantWeights_sized (name : string) (cfg : BundleConfig)
    (s : Machine) (contents : list byte) :
  files name = Some contents →
  Z.of_nat (length contents) = constantWeightVarsMemSize cfg →
  let n := Z.of_nat (length contents) in
  initConstantWeights files name cfg s
  = (Ok contents,
     logged s [EvCalloc n; OutAllocatedWeights n; readReport name contents]).
Proof.
  intros Hf Hn. cbn zeta. unfold initConstantWeights, logged, readReport.
  rewrite Hf. unfold_prog. unfold_comp. cbn.
  rewrite bool_decide_eq_true_2 by done. cbn. rewrite overwrite_whole.
  destruct contents as [|b contents]; cbn [length];
    repeat (case_bool_decide; try lia; try done); cbn;
    by rewrite <- !app_assoc.
Qed.

(** Property X15. A weights file of the configured size is returned byte for
    byte; the read is reported as failed exactly when the file is empty (the
    single item that [fread] is asked for has size zero), and the block is
    returned all the same. *)
Theorem empty_weights_file_is_reported_unread (name : string)
    (cfg : BundleConfig) (s : Machine) (contents : list byte) :
  files name = Some contents →
  Z.of_nat (length contents) = constantWeightVarsMemSize cfg →
  let n := Z.of_nat (length contents) in
  initConstantWeights files name cfg s
  = (Ok contents,
     logged s [EvCalloc n; OutAllocatedWeights n; readReport name contents])
  ∧ (readReport name contents = ErrCouldNotRead ↔ contents = []).
Proof.
  intros Hf Hn. split; [by apply initConstantWeights_sized|].
  unfold readReport. case_bool_decide; split; done.
Qed.

(** *** The image data in the mutable region *)

Lemma image_bytes (n : nat) :
  (Z.of_nat n * 784 < 2 ^ 32)%Z →
  (Z.of_nat n `mod` 2 ^ 32 = Z.of_nat n)%Z
  ∧ wrap ((Z.of_nat n * 1 * DEFAULT_HEIGHT * DEFAULT_WIDTH) `mod` 2 ^ 32
          * sizeof_float) = Z.of_nat (3136 * n)
  ∧ wrap (foldr Z.mul 1%Z [Z.of_nat n; 1%Z; DEFAULT_HEIGHT; DEFAULT_WIDTH]
          * sizeof_float) = Z.of_nat (3136 * n).
Proof.
  unfold wrap, size_t_modulus, DEFAULT_HEIGHT, DEFAULT_WIDTH, sizeof_float.
  cbn [foldr].
  change (2 ^ 32)%Z with 4294967296%Z.
  change (2 ^ 64)%Z with 18446744073709551616%Z.
  intros Hn. split_and!.
  - apply Z.mod_small. lia.
  - rewrite (Z.mod_small (_ * 28)) by lia. rewrite Z.mod_small by lia. lia.
  - rewrite Z.mod_small by lia. lia.
Qed.

Lemma overwrite_twice (M : nat) (src : list byte) :
  (2 * length src ≤ M)%nat →
  let n := Z.of_nat (length src) in
  overwrite (overwrite (replicate M x00) 0 src n) n src n
  = src ++ src ++ replicate (M - 2 * length src) x00.
Proof.
  intros HM. cbn zeta. unfold overwrite.
  rewrite Z.add_0_l, !Nat2Z.id.
  replace (Z.to_nat (Z.of_nat (length src) + Z.of_nat (length src)))
    with (length src + length src)%nat by lia.
  change (Z.to_nat 0) with 0%nat. rewrite !take_0. cbn [app].
  rewrite firstn_all.
  rewrite take_app_length. f_equal. f_equal.
  rewrite <- drop_drop, drop_app_length, !drop_replicate.
  f_equal. lia.
Qed.

Lemma memcpy_within dst off src n s :
  (0 ≤ off ∧ 0 ≤ n ∧ off + n ≤ Z.of_nat (length dst)
   ∧ n ≤ Z.of_nat (length src))%Z →
  memcpy dst off src n s
  = (Ok (overwrite dst off src n), logged s [EvMemcpy off n]).
Proof.
  intros H. unfold memcpy. unfold_prog. unfold_comp. cbn.
  by rewrite bool_decide_eq_true_2.
Qed.

Lemma memcpy_outside dst off src n s :
  ¬ (0 ≤ off ∧ 0 ≤ n ∧ off + n ≤ Z.of_nat (length dst)
     ∧ n ≤ Z.of_nat (length src))%Z →
  memcpy dst off src n s = (Undefined, logged s [EvMemcpy off n]).
Proof.
  intros H. unfold memcpy. unfold_prog. unfold_comp. cbn.
  by rewrite bool_decide_eq_false_2.
Qed.

Lemma allocateMutableWeightVars_spec cfg s :
  allocateMutableWeightVars cfg s
  = (Ok (replicate (Z.to_nat (mutableWeightVarsMemSize cfg)) x00),
     logged s [ EvCalloc (mutableWeightVarsMemSize cfg);
                OutAllocatedMutable (mutableWeightVarsMemSize cfg) ]).
Proof.
  unfold allocateMutableWeightVars, logged. unfold_prog. unfold_comp. cbn.
  by rewrite <- app_assoc.
Qed.

Lemma loadImagesAndPreprocess_decoded names pixels s :
  (0 < length names)%nat →
  (Z.of_nat (length names) * 784 < 2 ^ 32)%Z →
  decodedImages names = Decoded pixels →
  length pixels = (3136 * length names)%nat →
  loadImagesAndPreprocess decodedImages names s
  = (Ok (pixels, [Z.of_nat (length names); 1%Z; DEFAULT_HEIGHT; DEFAULT_WIDTH]),
     logged s [OutLoadedImages (Z.of_nat (3136 * length names))]).
Proof.
  intros Hpos Hn Hdec Hlen. destruct (image_bytes _ Hn) as (Hn32 & Hrs & _).
  unfold loadImagesAndPreprocess. rewrite Hdec, Hn32. cbn zeta. rewrite Hrs.
  rewrite bool_decide_eq_true_2 by done.
  rewrite Nat2Z.id, resize_all_alt by done. done.
Qed.

(** Property X16. With [n] images of 28 x 28 pixels, [n * 784 < 2^32], the
    pixel data takes [3136 * n] bytes. When the mutable region has room for
    two copies, [initMutableWeightVars] returns the region with the pixels
    at offset 0, the pixels again right behind them and zeros in the rest;
    when the region is smaller, one of the two [memcpy] writes past its end. *)
Theorem image_data_is_copied_twice (cfg : BundleConfig) (s : Machine)
    (pixels : list byte) :
  let names := inputImageFilenames s in
  let L := (3136 * length names)%nat in
  let M := Z.to_nat (mutableWeightVarsMemSize cfg) in
  (0 < length names)%nat →
  (Z.of_nat (length names) * 784 < 2 ^ 32)%Z →
  decodedImages names = Decoded pixels →
  length pixels = L →
  let r := initMutableWeightVars decodedImages cfg s in
  (2 * L ≤ M → r.1 = Ok (pixels ++ pixels ++ replicate (M - 2 * L) x00))%nat
  ∧ (M < 2 * L → r.1 = Undefined)%nat
  ∧ ∃ evs, output r.2
           = output s ++ [ EvCalloc (mutableWeightVarsMemSize cfg);
                           OutAllocatedMutable (mutableWeightVarsMemSize cfg);
                           OutLoadedImages (Z.of_nat L);
                           OutCopyingImageData (Z.of_nat L);
                           EvMemcpy 0 (Z.of_nat L) ] ++ evs.
Proof.
  cbn zeta. intros Hpos Hn Hdec Hlen.
  destruct (image_bytes _ Hn) as (_ & _ & Hib).
  set (L := (3136 * length (inputImageFilenames s))%nat) in *.
  set (M := Z.to_nat (mutableWeightVarsMemSize cfg)).
  unfold initMutableWeightVars.
  step_bind (allocateMutableWeightVars_spec cfg s).
  set (s1 := logged s _).
  assert (Hg : get s1 = (Ok s1, s1)) by done. step_bind Hg.
  pose proof (loadImagesAndPreprocess_decoded
                (inputImageFilenames s1) pixels s1 Hpos Hn Hdec Hlen) as Hl.
  step_bind Hl. cbn [inputImageFilenames s1 logged] in Hib |- *.
  rewrite Hib. fold L.
  set (s2 := logged s1 _).
  assert (He : emit (OutCopyingImageData (Z.of_nat L)) s2
               = (Ok tt, logged s2 [OutCopyingImageData (Z.of_nat L)])) by done.
  step_bind He. set (s3 := logged s2 _).
  fold M.
  destruct (decide (L ≤ M)%nat) as [HL|HL].
  - assert (Hm1 : memcpy (replicate M x00) 0 pixels (Z.of_nat L) s3
                  = (Ok (overwrite (replicate M x00) 0 pixels (Z.of_nat L)),
                     logged s3 [EvMemcpy 0 (Z.of_nat L)]))
      by (apply memcpy_within; rewrite length_replicate; lia).
    step_bind Hm1.
    assert (Hlen1 : length (overwrite (replicate M x00) 0 pixels (Z.of_nat L)) = M).
    { rewrite length_overwrite by (rewrite ?length_replicate; lia).
      apply length_replicate. }
    set (m1 := overwrite _ _ _ _) in *.
    destruct (decide (2 * L ≤ M)%nat) as [H2|H2].
    + assert (Hm2 : memcpy m1 (Z.of_nat L) pixels (Z.of_nat L)
                      (logged s3 [EvMemcpy 0 (Z.of_nat L)])
                    = (Ok (overwrite m1 (Z.of_nat L) pixels (Z.of_nat L)),
                       logged (logged s3 [EvMemcpy 0 (Z.of_nat L)])
                         [EvMemcpy (Z.of_nat L) (Z.of_nat L)]))
        by (apply memcpy_within; rewrite Hlen1; lia).
      step_bind Hm2.
      split_and!; [|lia|].
      * intros _. cbn [fst]. unfold mret, Comp_ret, comp_ret. cbn [fst].
        f_equal. unfold m1. rewrite <- Hlen. apply overwrite_twice. lia.
      * exists [EvMemcpy (Z.of_nat L) (Z.of_nat L)]. cbn.
        by rewrite <- !app_assoc.
    + assert (Hm2 : memcpy m1 (Z.of_nat L) pixels (Z.of_nat L)
                      (logged s3 [EvMemcpy 0 (Z.of_nat L)])
                    = (Undefined,
                       logged (logged s3 [EvMemcpy 0 (Z.of_nat L)])
                         [EvMemcpy (Z.of_nat L) (Z.of_nat L)]))
        by (apply memcpy_outside; rewrite Hlen1; lia).
      unfold mbind, Comp_bind, comp_bind. rewrite Hm2.
      split_and!; [lia|done|].
      exists [EvMemcpy (Z.of_nat L) (Z.of_nat L)]. cbn.
      by rewrite <- !app_assoc.
  - assert (Hm1 : memcpy (replicate M x00) 0 pixels (Z.of_nat L) s3
                  = (Undefined, logged s3 [EvMemcpy 0 (Z.of_nat L)]))
      by (apply memcpy_outside; rewrite length_replicate; lia).
    unfold mbind, Comp_bind, comp_bind. rewrite Hm1.
    split_and!; [lia|done|].
    exists []. cbn. by rewrite <- !app_assoc.
Qed.

(** *** Reporting the class *)

Lemma findMax_within (block : list byte) (off : Z) :
  (∀ x, float_gt x x = false) →
  (∀ x y z, float_gt x y = true → float_gt y z = true → float_gt x z = true) →
  ∀ n i acc s,
    (0 ≤ off)%Z →
    (off + sizeof_float * Z.of_nat (i + n) ≤ Z.of_nat (length block))%Z →
    maxOfFirst decodeFloat float_zero float_gt block off i acc →
    ∃ res, findMax decodeFloat float_gt block off i n acc s = (Ok res, s)
           ∧ maxOfFirst decodeFloat float_zero float_gt block off (i + n) res.
Proof.
  intros Hirr Htrans. unfold maxOfFirst, scoreAt, sizeof_float.
  induction n as [|n IH]; intros i acc s Hoff Hlen Hinv; cbn [findMax].
  { exists acc. by rewrite Nat.add_0_r. }
  unfold readFloat. unfold_comp. unfold sizeof_float.
  rewrite bool_decide_eq_true_2 by lia.
  replace (i + S n)%nat with (S i + n)%nat in * by lia.
  apply IH; [done|lia|].
  destruct acc as [idx M]. cbn [fst snd] in *.
  destruct Hinv as (Hidx & Hmax & Hval).
  set (score := λ j : nat,
         decodeFloat (take 4 (drop (Z.to_nat (off + 4 * Z.of_nat j)) block)))
    in *.
  change (decodeFloat (take 4 (drop (Z.to_nat (off + 4 * Z.of_nat i)) block)))
    with (score i).
  destruct (float_gt (score i) M) eqn:Hgt; cbn [fst snd].
  - split_and!.
    + right. lia.
    + intros j Hj. destruct (decide (j = i)) as [->|Hne]; [apply Hirr|].
      destruct (float_gt (score j) (score i)) eqn:Hji; [|done].
      assert (float_gt (score j) M = false) by (apply Hmax; lia).
      assert (float_gt (score j) M = true) by (by eapply Htrans).
      congruence.
    + right. split; [done|].
      destruct Hval as [[_ Hz]|[_ Hz]]; [by rewrite <- Hz|by eapply Htrans].
  - split_and!.
    + destruct Hidx; [by left|right; lia].
    + intros j Hj. destruct (decide (j = i)) as [->|Hne]; [done|].
      apply Hmax. lia.
    + done.
Qed.

Lemma findMax_index_below (block : list byte) (off : Z) :
  ∀ n i acc s,
    (0 ≤ off)%Z →
    (off + sizeof_float * Z.of_nat (i + n) ≤ Z.of_nat (length block))%Z →
    (acc.1 = 0 ∨ acc.1 < i)%nat →
    ∃ res, findMax decodeFloat float_gt block off i n acc s = (Ok res, s)
           ∧ (res.1 = 0 ∨ res.1 < i + n)%nat.
Proof.
  unfold sizeof_float.
  induction n as [|n IH]; intros i acc s Hoff Hlen Hidx; cbn [findMax].
  { exists acc. by rewrite Nat.add_0_r. }
  unfold readFloat. unfold_comp. unfold sizeof_float.
  rewrite bool_decide_eq_true_2 by lia.
  replace (i + S n)%nat with (S i + n)%nat in * by lia.
  apply IH; [done|lia|].
  destruct (float_gt _ _); cbn [fst]; lia.
Qed.

Lemma findMax_outside (block : list byte) (off : Z) :
  ∀ n i acc s,
    (0 < n)%nat →
    ¬ (0 ≤ off + sizeof_float * Z.of_nat i
       ∧ off + sizeof_float * Z.of_nat (i + n) ≤ Z.of_nat (length block))%Z →
    findMax decodeFloat float_gt block off i n acc s = (Undefined, s).
Proof.
  unfold sizeof_float.
  induction n as [|n IH]; intros i acc s Hn Hout; [lia|]. cbn [findMax].
  unfold readFloat. unfold_comp. unfold sizeof_float.
  case_bool_decide as Hin; [|done]. apply IH; lia.
Qed.

(** Property X17. [dumpInferenceResults] reads ten floats at
    [mutableWeightVarsMemSize - 40]: when they lie within the block it
    prints one class index below 10, no score is greater than the score of
    that class, and its score is greater than zero, unless no score is
    greater than zero, in which case class 0 is printed; when they do not
    lie within the block the read is out of bounds and nothing is printed.
    For an order on floats that is irreflexive and transitive. *)
Theorem reported_class_has_a_largest_score (cfg : BundleConfig)
    (block : list byte) (s : Machine) :
  (∀ x, float_gt x x = false) →
  (∀ x y z, float_gt x y = true → float_gt y z = true → float_gt x z = true) →
  let off := resultsOffset cfg in
  let score := scoreAt decodeFloat block off in
  let r := dumpInferenceResults decodeFloat float_zero float_gt cfg block s in
  ((0 ≤ off ∧ off + 40 ≤ Z.of_nat (length block))%Z →
     ∃ i, r = (Ok tt, logged s [OutResult i]) ∧ (i < 10)%nat
          ∧ ((float_gt (score i) float_zero = true
              ∧ ∀ j, (j < 10)%nat → float_gt (score j) (score i) = false)
             ∨ (i = 0%nat
                ∧ ∀ j, (j < 10)%nat → float_gt (score j) float_zero = false)))
  ∧ (¬ (0 ≤ off ∧ off + 40 ≤ Z.of_nat (length block))%Z → r = (Undefined, s)).
Proof.
  intros Hirr Htrans. cbn zeta. unfold dumpInferenceResults. split.
  - intros [Hoff Hlen].
    destruct (findMax_within block (resultsOffset cfg) Hirr Htrans
                10 0 (0%nat, float_zero) s) as ([i M] & Hrun & Hinv).
    { done. } { unfold sizeof_float. cbn. lia. }
    { split_and!; [by left|intros j Hj; lia|by left]. }
    exists i. unfold mbind, Comp_bind, comp_bind. rewrite Hrun.
    destruct Hinv as (Hidx & Hmax & Hval). cbn [fst snd] in *.
    split; [done|]. split; [destruct Hidx; lia|].
    destruct Hval as [[-> ->]|[-> Hpos]]; [by right|by left].
  - intros Hout. unfold mbind, Comp_bind, comp_bind.
    rewrite findMax_outside; [done|lia|]. unfold sizeof_float. cbn. lia.
Qed.

(** The loop over scores that lie within the block, as a fold. *)
Lemma findMax_fold (block : list byte) (off : Z) :
  ∀ n i acc s,
    (0 ≤ off)%Z →
    (off + sizeof_float * Z.of_nat (i + n) ≤ Z.of_nat (length block))%Z →
    findMax decodeFloat float_gt block off i n acc s
    = (Ok (foldl (λ acc i, let r := scoreAt decodeFloat block off i in
                           if float_gt r acc.2 then (i, r) else acc)
             acc (seq i n)), s).
Proof.
  unfold sizeof_float.
  induction n as [|n IH]; intros i acc s Hoff Hlen; cbn [findMax seq foldl].
  { done. }
  unfold readFloat. unfold_comp. unfold sizeof_float.
  rewrite bool_decide_eq_true_2 by lia.
  rewrite IH by lia. done.
Qed.

(** Claim C7, as amended. [dumpInferenceResults] takes the inference
    outputs from a fixed place: the ten floats in the last 40 bytes of the
    mutable region, at byte offset [mutableWeightVarsMemSize - 40].
    [BundleConfig] holds the three region sizes and nothing else, so there
    is no declared offset to go by. On a region of the configured size the
    class printed is the one its loop computes from those 40 bytes, and a
    region of the same size that ends in the same 40 bytes gives the same
    report, whatever the rest of it holds. *)
Theorem results_are_read_at_a_fixed_offset (cfg : BundleConfig)
    (region other : list byte) (s : Machine) :
  let size := mutableWeightVarsMemSize cfg in
  Z.of_nat (length region) = size → (40 ≤ size)%Z →
  resultsOffset cfg = (size - 40)%Z
  ∧ length (drop (Z.to_nat (size - 40)) region) = 40%nat
  ∧ dumpInferenceResults decodeFloat float_zero float_gt cfg region s
    = (Ok tt,
       logged s [OutResult (reportedClass decodeFloat float_zero float_gt
                              region (size - 40))])
  ∧ (length other = length region →
     drop (Z.to_nat (size - 40)) other = drop (Z.to_nat (size - 40)) region →
     dumpInferenceResults decodeFloat float_zero float_gt cfg other s
     = dumpInferenceResults decodeFloat float_zero float_gt cfg region s).
Proof.
  cbn zeta. intros Hlen Hsize. split_and!.
  - done.
  - rewrite length_drop. lia.
  - unfold dumpInferenceResults, reportedClass, resultsOffset.
    unfold mbind, Comp_bind, comp_bind.
    rewrite findMax_fold; [|lia|unfold sizeof_float; cbn; lia].
    by destruct (foldl _ _ _).
  - intros Hlen' Hdrop.
    apply dumpInferenceResults_tail_only; unfold resultsOffset; [lia|done..].
Qed.

(** *** Runs of [main] *)

Lemma main_after_weights (argv : list string) (s : Machine)
    (contents : list byte) :
  files weightsFile = Some contents →
  Z.of_nat (length contents) = constantWeightVarsMemSize config →
  theMain argv s
  = (mutableWeightVarsAddr ← initMutableWeightVars decodedImages config;
     activationsAddr ← initActivations config;
     emit (EvEntryPoint contents mutableWeightVarsAddr activationsAddr);;
     let '(c, m, a) := lenet_mnist contents mutableWeightVarsAddr activationsAddr in
     dumpInferenceResults decodeFloat float_zero float_gt config m;;
     free a;; free c;; free m;; mret 0%Z)
      (logged (mkMachine (inputImageFilenames s ++ drop 1 argv) (output s))
         [ EvCalloc (constantWeightVarsMemSize config);
           OutAllocatedWeights (constantWeightVarsMemSize config);
           readReport weightsFile contents ]).
Proof.
  intros Hf Hn. unfold main.
  set (s0 := mkMachine (inputImageFilenames s ++ drop 1 argv) (output s)).
  assert (Hp : parseCommandLineOptions argv s = (Ok tt, s0)) by done.
  step_bind Hp.
  pose proof (initConstantWeights_sized weightsFile config s0 contents Hf Hn)
    as Hc. cbn zeta in Hc. rewrite Hn in Hc.
  step_bind Hc. done.
Qed.

Lemma initMutableWeightVars_failure (cfg : BundleConfig) (s : Machine) msg :
  imageFailure decodedImages (inputImageFilenames s) = Some msg →
  initMutableWeightVars decodedImages cfg s
  = (AssertionFailed msg,
     logged s [ EvCalloc (mutableWeightVarsMemSize cfg);
                OutAllocatedMutable (mutableWeightVarsMemSize cfg) ]).
Proof.
  intros Hfail. unfold initMutableWeightVars.
  step_bind (allocateMutableWeightVars_spec cfg s).
  set (s1 := logged s _).
  assert (Hg : get s1 = (Ok s1, s1)) by done. step_bind Hg.
  assert (Hl : loadImagesAndPreprocess decodedImages (inputImageFilenames s1) s1
               = (AssertionFailed msg, s1)).
  { unfold loadImagesAndPreprocess, imageFailure in *.
    cbn [inputImageFilenames s1 logged] in *.
    destruct (inputImageFilenames s) as [|name names]; [by injection Hfail as <-|].
    rewrite bool_decide_eq_true_2 by (cbn; lia).
    destruct (decodedImages _); by try injection Hfail as <-. }
  by step_bind Hl.
Qed.

(** With the weights in place, a run whose images fail an assertion of the
    loader stops on it: by then the constant weights are loaded and the
    mutable region is allocated, nothing is copied and the entry point is
    not called. *)
Lemma main_stops_on_image_failure (argv : list string) (s : Machine)
    (contents : list byte) (msg : string) :
  files weightsFile = Some contents →
  Z.of_nat (length contents) = constantWeightVarsMemSize config →
  imageFailure decodedImages (inputImageFilenames s ++ drop 1 argv) = Some msg →
  theMain argv s
  = (AssertionFailed msg,
     mkMachine (inputImageFilenames s ++ drop 1 argv)
       (output s ++ [ EvCalloc (constantWeightVarsMemSize config);
                      OutAllocatedWeights (constantWeightVarsMemSize config);
                      readReport weightsFile contents;
                      EvCalloc (mutableWeightVarsMemSize config);
                      OutAllocatedMutable (mutableWeightVarsMemSize config) ])).
Proof.
  intros Hf Hn Hfail. rewrite (main_after_weights argv s contents Hf Hn).
  set (s1 := logged _ _).
  pose proof (initMutableWeightVars_failure config s1 msg Hfail) as Hm.
  step_bind Hm. unfold s1, logged. cbn. by rewrite <- !app_assoc.
Qed.

Lemma initMutableWeightVars_undefined (cfg : BundleConfig) (s : Machine) :
  inputImageFilenames s ≠ [] →
  decodedImages (inputImageFilenames s) = OutOfBounds →
  initMutableWeightVars decodedImages cfg s
  = (Undefined,
     logged s [ EvCalloc (mutableWeightVarsMemSize cfg);
                OutAllocatedMutable (mutableWeightVarsMemSize cfg) ]).
Proof.
  intros Hne Hout. unfold initMutableWeightVars.
  step_bind (allocateMutableWeightVars_spec cfg s).
  set (s1 := logged s _).
  assert (Hg : get s1 = (Ok s1, s1)) by done. step_bind Hg.
  assert (Hl : loadImagesAndPreprocess decodedImages (inputImageFilenames s1) s1
               = (Undefined, s1)).
  { unfold loadImagesAndPreprocess.
    cbn [inputImageFilenames s1 logged] in *. rewrite Hout.
    rewrite bool_decide_eq_true_2; [done|].
    destruct (inputImageFilenames s); [done|cbn; lia]. }
  by step_bind Hl.
Qed.

(** The same when an image is stored outside its block: the run is
    undefined from there. *)
Lemma main_undefined_on_image_overflow (argv : list string) (s : Machine)
    (contents : list byte) :
  files weightsFile = Some contents →
  Z.of_nat (length contents) = constantWeightVarsMemSize config →
  inputImageFilenames s ++ drop 1 argv ≠ [] →
  decodedImages (inputImageFilenames s ++ drop 1 argv) = OutOfBounds →
  theMain argv s
  = (Undefined,
     mkMachine (inputImageFilenames s ++ drop 1 argv)
       (output s ++ [ EvCalloc (constantWeightVarsMemSize config);
                      OutAllocatedWeights (constantWeightVarsMemSize config);
                      readReport weightsFile contents;
                      EvCalloc (mutableWeightVarsMemSize config);
                      OutAllocatedMutable (mutableWeightVarsMemSize config) ])).
Proof.
  intros Hf Hn Hne Hout. rewrite (main_after_weights argv s contents Hf Hn).
  set (s1 := logged _ _).
  pose proof (initMutableWeightVars_undefined config s1 Hne Hout) as Hm.
  step_bind Hm. unfold s1, logged. cbn. by rewrite <- !app_assoc.
Qed.

(** Property X19. A run of [main] that returns, returns 0, and its output is
    the setup, the one call of the entry point, one reported class below 10
    and then the three blocks freed in the order activations, constant
    weights, mutable region, each with the size the entry point left it
    with; the scores lay within the mutable region. *)
Theorem main_reports_then_frees (argv : list string) (s : Machine) (z : Z) :
  let r := theMain argv s in
  r.1 = Ok z →
  z = 0%Z
  ∧ ∃ contents m loadedBytes imageBytes i,
      files weightsFile = Some contents
      ∧ let a := replicate (Z.to_nat (activationsMemSize config)) x00 in
        let after := lenet_mnist contents m a in
        output r.2
        = output s
          ++ setupEvents config (readReport weightsFile contents)
               loadedBytes imageBytes
          ++ [ EvEntryPoint contents m a; OutResult i;
               EvFree (length after.2); EvFree (length after.1.1);
               EvFree (length after.1.2) ]
        ∧ (i < 10)%nat
        ∧ (0 ≤ resultsOffset config
           ∧ resultsOffset config + 40 ≤ Z.of_nat (length after.1.2))%Z.
Proof.
  cbn zeta. intros Hr.
  pose proof (initConstantWeights_spec weightsFile config
                (mkMachine (inputImageFilenames s ++ drop 1 argv) (output s)))
    as Hc. cbn zeta in Hc.
  destruct (files weightsFile) as [contents|] eqn:Hf.
  2:{ unfold main, initConstantWeights in Hr. by rewrite Hf in Hr. }
  destruct (decide _) as [Hn|Hn].
  2:{ unfold main in Hr.
      assert (Hp : parseCommandLineOptions argv s
                   = (Ok tt, mkMachine (inputImageFilenames s ++ drop 1 argv)
                               (output s))) by done.
      revert Hr. step_bind Hp. step_bind Hc. done. }
  clear Hc. revert Hr. rewrite (main_after_weights argv s contents Hf Hn).
  set (s1 := logged _ _).
  destruct (initMutableWeightVars decodedImages config s1) as [o s2] eqn:Hm.
  destruct o as [m|msg| |code];
    [|unfold mbind, Comp_bind, comp_bind; rewrite Hm; done..].
  step_bind Hm.
  destruct (initMutableWeightVars_ok _ _ _ _ Hm)
    as (inputT & loadedBytes & imageBytes & -> & _ & _).
  set (a := replicate (Z.to_nat (activationsMemSize config)) x00).
  set (s2 := logged s1 _).
  assert (Ha : initActivations config s2
               = (Ok a, logged s2 [EvCalloc (activationsMemSize config)])) by done.
  step_bind Ha.
  set (s3 := logged s2 _).
  assert (He : emit (EvEntryPoint contents m a) s3
               = (Ok tt, logged s3 [EvEntryPoint contents m a])) by done.
  step_bind He.
  set (s4 := logged s3 _).
  destruct (lenet_mnist contents m a) as [[c' m'] a'] eqn:Hrun.
  destruct (decide (0 ≤ resultsOffset config
                    ∧ resultsOffset config + 40 ≤ Z.of_nat (length m'))%Z)
    as [Hin|Hout].
  2:{ unfold dumpInferenceResults at 1.
      unfold mbind, Comp_bind, comp_bind.
      rewrite findMax_outside; [done|lia|]. unfold sizeof_float. cbn. lia. }
  destruct (findMax_index_below m' (resultsOffset config) 10 0
              (0%nat, float_zero) s4) as ([i Mx] & Hfind & Hi);
    [lia|unfold sizeof_float; cbn; lia|by left|].
  assert (Hd : dumpInferenceResults decodeFloat float_zero float_gt config m' s4
               = (Ok tt, logged s4 [OutResult i])).
  { unfold dumpInferenceResults. unfold mbind, Comp_bind, comp_bind.
    by rewrite Hfind. }
  step_bind Hd. cbn [fst snd] in Hi.
  intros [= <-]. split; [done|].
  exists contents, m, loadedBytes, imageBytes, i.
  split; [done|]. cbn zeta. fold a. rewrite Hrun. cbn [fst snd].
  split; [|split; [lia|done]].
  unfold free, emit, modify. unfold_comp. cbn. by rewrite <- !app_assoc.
Qed.

End Facts.

(** ** The theorems on the reference bundle *)

Section OnReference.
Import Reference.

(** Claim C4 on the reference bundle. *)
Lemma weights_file_length_checked_witness :
  refFiles "lenet_mnist.weights" = Some [x0a; x0b; x0c; x0d]
  ∧ Z.of_nat (length [x0a; x0b; x0c; x0d]) = constantWeightVarsMemSize refConfig
  ∧ ∀ s0, (initConstantWeights refFiles "lenet_mnist.weights" refConfig s0).1
          = Ok [x0a; x0b; x0c; x0d].
Proof.
  assert (Hf : refFiles "lenet_mnist.weights" = Some [x0a; x0b; x0c; x0d])
    by reflexivity.
  assert (Hn : Z.of_nat (length [x0a; x0b; x0c; x0d])
               = constantWeightVarsMemSize refConfig) by reflexivity.
  split; [exact Hf|]. split; [exact Hn|].
  exact (proj1 (proj2 (weights_file_length_checked refDecode 0%nat refGt
                         refConfig refEntry refFiles refImages argvOneImage
                         initialMachine _ Hf) Hn)).
Defined.

(** Claim C8 on the reference bundle. *)
Lemma consumer_allocates_and_zeroes_witness :
  let r := refMain argvOneImage initialMachine in
  is_ok r.1 = true
  ∧ ∃ evs, output r.2 = output initialMachine ++ evs
           ∧ length (entryPointCalls evs) = 1%nat.
Proof.
  cbn zeta.
  assert (Hr : is_ok (refMain argvOneImage initialMachine).1 = true)
    by (vm_compute; reflexivity).
  split; [exact Hr|].
  destruct (consumer_allocates_and_zeroes refDecode 0%nat refGt refConfig
              refEntry refFiles refImages argvOneImage initialMachine)
    as (evs & Hout & _ & Honce).
  exists evs. exact (conj Hout (Honce Hr)).
Defined.

(** Claim C7, as amended, on mutable regions of the reference size: one
    filled with image bytes and one that starts with the scores, both
    ending in the ten scores. *)
Lemma results_are_read_at_a_fixed_offset_witness :
  let region := replicate (2 * 3136) x11 ++ refScores in
  let other := refScores ++ replicate (2 * 3136 - 40) x00 ++ refScores in
  Z.of_nat (length region) = mutableWeightVarsMemSize refConfig
  ∧ (40 ≤ mutableWeightVarsMemSize refConfig)%Z
  ∧ length other = length region
  ∧ drop (Z.to_nat (2 * 3136)) other = drop (Z.to_nat (2 * 3136)) region
  ∧ resultsOffset refConfig = (2 * 3136)%Z
  ∧ dumpInferenceResults refDecode 0%nat refGt refConfig region initialMachine
    = (Ok tt, logged initialMachine [OutResult 3])
  ∧ dumpInferenceResults refDecode 0%nat refGt refConfig other initialMachine
    = dumpInferenceResults refDecode 0%nat refGt refConfig region initialMachine.
Proof.
  cbn zeta.
  set (region := replicate (2 * 3136) x11 ++ refScores).
  set (other := refScores ++ replicate (2 * 3136 - 40) x00 ++ refScores).
  assert (H1 : Z.of_nat (length region) = mutableWeightVarsMemSize refConfig)
    by (vm_compute; reflexivity).
  assert (H2 : (40 ≤ mutableWeightVarsMemSize refConfig)%Z)
    by (vm_compute; discriminate).
  assert (H3 : length other = length region) by (vm_compute; reflexivity).
  assert (H4 : drop (Z.to_nat (2 * 3136)) other
               = drop (Z.to_nat (2 * 3136)) region)
    by (vm_compute; reflexivity).
  destruct (results_are_read_at_a_fixed_offset refDecode 0%nat refGt refConfig
              region other initialMachine H1 H2) as (H5 & _ & H6 & H7).
  split_and!; [exact H1|exact H2|exact H3|exact H4|exact H5| |exact (H7 H3 H4)].
  refine (eq_trans H6 _). vm_compute. reflexivity.
Defined.

(** Claim C7, as stated, fails. The consumer has no offset to go by: the
    two reference bundles have the same [BundleConfig] and compute the
    same scores, whose largest is score 3, and the consumer reads the last
    40 bytes of the mutable region for both. Of the bundle that leaves the
    scores there it reports 3; of the bundle that leaves them at the start
    of the region it reports 0, since the last 40 bytes are then the zeros
    that [calloc] left behind the two copies of the image. *)
Lemma hard_coded_results_offset_misreads :
  let atEnd := refMain argvOneImage initialMachine in
  let first := refMainScoresFirst argvOneImage initialMachine in
  resultsOffset refConfig = (mutableWeightVarsMemSize refConfig - 40)%Z
  ∧ atEnd.1 = Ok 0%Z ∧ output atEnd.2 !! 11%nat = Some (OutResult 3)
  ∧ first.1 = Ok 0%Z ∧ output first.2 !! 11%nat = Some (OutResult 0)
  ∧ ∃ c m a, output first.2 !! 10%nat = Some (EvEntryPoint c m a)
      ∧ take 40 (refEntryScoresFirst c m a).1.2 = refScores
      ∧ drop (Z.to_nat (resultsOffset refConfig)) (refEntryScoresFirst c m a).1.2
        = replicate 40 x00.
Proof.
  cbn zeta. split_and!; try (vm_compute; reflexivity).
  eexists _, _, _. split_and!; vm_compute; reflexivity.
Qed.

(** Property X12 on the dimensions of a decoded 28 x 28 grayscale image. *)
Lemma getXYZ_is_row_major_witness :
  (0 ≤ 3 < 28)%Z ∧ (0 ≤ 4 < 28)%Z ∧ (0 ≤ 0 < 1)%Z
  ∧ (28 * 28 * 1 < size_t_modulus)%Z
  ∧ getXYZ [28; 28; 1]%Z 3 4 0 = Some (3 * 28 * 1 + 4 * 1 + 0)%Z.
Proof.
  assert (H1 : (0 ≤ 3 < 28)%Z) by lia.
  assert (H2 : (0 ≤ 4 < 28)%Z) by lia.
  assert (H3 : (0 ≤ 0 < 1)%Z) by lia.
  assert (H4 : (28 * 28 * 1 < size_t_modulus)%Z) by reflexivity.
  destruct (getXYZ_is_row_major 28 28 1 3 4 0) as [_ H].
  exact (conj H1 (conj H2 (conj H3 (conj H4 (proj1 (H H1 H2 H3 H4)))))).
Defined.

(** Property X13 on the dimensions of the result block of two images. *)
Lemma getXYZW_is_row_major_witness :
  (0 ≤ 1 < 2)%Z ∧ (0 ≤ 0 < 1)%Z ∧ (0 ≤ 3 < 28)%Z ∧ (0 ≤ 4 < 28)%Z
  ∧ (2 * 1 * 28 * 28 < size_t_modulus)%Z
  ∧ getXYZW [2; 1; 28; 28]%Z 1 0 3 4
    = Some (1 * 1 * 28 * 28 + 0 * 28 * 28 + 3 * 28 + 4)%Z.
Proof.
  assert (H1 : (0 ≤ 1 < 2)%Z) by lia.
  assert (H2 : (0 ≤ 0 < 1)%Z) by lia.
  assert (H3 : (0 ≤ 3 < 28)%Z) by lia.
  assert (H4 : (0 ≤ 4 < 28)%Z) by lia.
  assert (H5 : (2 * 1 * 28 * 28 < size_t_modulus)%Z) by reflexivity.
  destruct (getXYZW_is_row_major 2 1 28 28 1 0 3 4) as [_ H].
  exact (conj H1 (conj H2 (conj H3 (conj H4 (conj H5
           (proj1 (H H1 H2 H3 H4 H5))))))).
Defined.

(** Property X14 on the reference bundle without its weights file. *)
Lemma main_exits_without_weights_file_witness :
  (main refDecode 0%nat refGt refConfig refEntry (λ _, None) refImages
     argvOneImage initialMachine).1 = Exited 1.
Proof.
  exact (f_equal fst
           (main_exits_without_weights_file refDecode 0%nat refGt refConfig
              refEntry (λ _, None) refImages argvOneImage initialMachine
              eq_refl)).
Defined.

(** Property X15 on the reference bundle. *)
Lemma empty_weights_file_is_reported_unread_witness :
  refFiles "lenet_mnist.weights" = Some [x0a; x0b; x0c; x0d]
  ∧ (initConstantWeights refFiles "lenet_mnist.weights" refConfig
       initialMachine).1 = Ok [x0a; x0b; x0c; x0d]
  ∧ readReport "lenet_mnist.weights" [x0a; x0b; x0c; x0d]
    = OutLoadedWeights 4 "lenet_mnist.weights".
Proof.
  assert (Hf : refFiles "lenet_mnist.weights" = Some [x0a; x0b; x0c; x0d])
    by reflexivity.
  destruct (empty_weights_file_is_reported_unread refFiles
              "lenet_mnist.weights" refConfig initialMachine _ Hf eq_refl)
    as [Hr _].
  split; [exact Hf|]. split; [exact (f_equal fst Hr)|reflexivity].
Defined.

(** Property X16 on the reference bundle: one image, and a mutable region
    of two times 3136 bytes and 40 more. *)
Lemma image_data_is_copied_twice_witness :
  let s := mkMachine ["seven.png"] [] in
  let pixels := replicate 3136 x11 in
  refImages (inputImageFilenames s) = Decoded pixels
  ∧ (initMutableWeightVars refImages refConfig s).1
    = Ok (pixels ++ pixels ++ replicate 40 x00).
Proof.
  cbn zeta.
  assert (Hd : refImages (inputImageFilenames (mkMachine ["seven.png"] []))
               = Decoded (replicate 3136 x11)) by reflexivity.
  destruct (image_data_is_copied_twice refImages refConfig
              (mkMachine ["seven.png"] []) (replicate 3136 x11))
    as (Hok & _ & _); [cbn; lia|reflexivity|exact Hd|apply length_replicate|].
  split; [exact Hd|]. apply Hok.
  apply Nat.leb_le. vm_compute. reflexivity.
Defined.

(** Property X17 on the scores of the reference bundle, with floats read
    as natural numbers. *)
Lemma reported_class_has_a_largest_score_witness :
  let cfg := mkConfig 0 40 0 in
  (∀ x, refGt x x = false)
  ∧ (0 ≤ resultsOffset cfg
     ∧ resultsOffset cfg + 40 ≤ Z.of_nat (length refScores))%Z
  ∧ ∃ i, dumpInferenceResults refDecode 0%nat refGt cfg refScores initialMachine
         = (Ok tt, logged initialMachine [OutResult i])
         ∧ (i < 10)%nat.
Proof.
  cbn zeta.
  assert (Hirr : ∀ x, refGt x x = false).
  { intros x. unfold refGt. apply bool_decide_eq_false_2. lia. }
  assert (Htrans : ∀ x y z, refGt x y = true → refGt y z = true
                            → refGt x z = true).
  { intros x y z Hxy Hyz. unfold refGt in *.
    apply bool_decide_eq_true_1 in Hxy. apply bool_decide_eq_true_1 in Hyz.
    apply bool_decide_eq_true_2. lia. }
  assert (Hin : (0 ≤ resultsOffset (mkConfig 0 40 0)
                 ∧ resultsOffset (mkConfig 0 40 0) + 40
                   ≤ Z.of_nat (length refScores))%Z)
    by (vm_compute; split; discriminate).
  destruct (reported_class_has_a_largest_score refDecode 0%nat refGt
              (mkConfig 0 40 0) refScores initialMachine Hirr Htrans)
    as [H _].
  destruct (H Hin) as (i & Hr & Hi & _).
  split; [exact Hirr|]. split; [exact Hin|]. exists i. exact (conj Hr Hi).
Defined.

(** Property X19 on the reference bundle. *)
Lemma main_reports_then_frees_witness :
  (refMain argvOneImage initialMachine).1 = Ok 0%Z
  ∧ ∃ contents, refFiles "lenet_mnist.weights" = Some contents.
Proof.
  assert (Hr : (refMain argvOneImage initialMachine).1 = Ok 0%Z)
    by (vm_compute; reflexivity).
  split; [exact Hr|].
  destruct (main_reports_then_frees refDecode 0%nat refGt refConfig refEntry
              refFiles refImages argvOneImage initialMachine 0 Hr)
    as (_ & contents & m & lb & ib & i & Hf & _).
  exists contents. exact Hf.
Defined.

(** Runs of the consumer on the reference bundle. *)

Example main_on_reference_bundle :
  let r := refMain argvOneImage initialMachine in
  r.1 = Ok 0%Z
  ∧ take 10 (output r.2) = setupEvents refConfig
                             (OutLoadedWeights 4 "lenet_mnist.weights") 3136 3136
  ∧ output r.2 !! 11%nat = Some (OutResult 3).
Proof. vm_compute. done. Qed.

Example main_without_images :
  (refMain ["lenet_mnist_standalone"] initialMachine).1
  = AssertionFailed "There must be at least one filename in filenames".
Proof. vm_compute. reflexivity. Qed.

Example main_with_short_weights_file :
  let r := main refDecode 0%nat refGt refConfig refEntry
             (λ _, Some [x0a; x0b]) refImages argvOneImage initialMachine in
  r = (AssertionFailed "Wrong weights file size",
       mkMachine ["seven.png"] [EvCalloc 2; OutAllocatedWeights 2]).
Proof. vm_compute. reflexivity. Qed.

End OnReference.

End StandaloneFacts.


(** * Facts about the reading of the images *)

Module PixelFacts.
Import Standalone Pixels CompFacts StandaloneFacts.

Section Facts.
Context {float : Type}.
Variable float_zero float_one : float.
Variable pixelValue : float * float → byte → float.
Variable files : string → PngFile.
Variable indeterminate : nat → float.

(** *** Loads and stores *)

Lemma store_within (i : Z) (v : float) (block : list float) :
  (0 ≤ i < Z.of_nat (length block))%Z →
  store i v block = (Ok tt, <[Z.to_nat i := v]> block).
Proof. intros H. unfold store. by rewrite bool_decide_eq_true_2. Qed.

Lemma store_outside (i : Z) (v : float) (block : list float) :
  (Z.of_nat (length block) ≤ i)%Z → store i v block = (Undefined, block).
Proof. intros H. unfold store. rewrite bool_decide_eq_false_2; [done|lia]. Qed.

Lemma load_lookup {St A} (block : list A) (n : nat) (a : A) (s : St) :
  block !! n = Some a → load block (Z.of_nat n) s = (Ok a, s).
Proof.
  intros H. unfold load. rewrite bool_decide_eq_true_2 by lia.
  by rewrite Nat2Z.id, H.
Qed.

Lemma storeChannel_within range (w h C : Z) (row : list byte) (ptr : nat)
    (r c k : nat) (b : byte) (block : list float) :
  row !! (ptr + k)%nat = Some b →
  (Z.of_nat r * h * C + Z.of_nat c * C + Z.of_nat k < size_t_modulus)%Z →
  (0 ≤ h)%Z → (0 ≤ C)%Z →
  (Z.of_nat r * h * C + Z.of_nat c * C + Z.of_nat k < Z.of_nat (length block))%Z →
  storeChannel pixelValue range [w; h; C] row (Z.of_nat ptr) r c (Z.of_nat k) block
  = (Ok tt,
     <[Z.to_nat (Z.of_nat r * h * C + Z.of_nat c * C + Z.of_nat k)
       := pixelValue range b]> block).
Proof.
  intros Hb Hfit Hh HC Hin. unfold storeChannel.
  assert (Hl : load row (Z.of_nat ptr + Z.of_nat k) block = (Ok b, block)).
  { rewrite <- Nat2Z.inj_add. by apply load_lookup. }
  erewrite (bind_ok _ _ block _ _ Hl).
  rewrite getXYZ_wrap, wrap_small.
  2:{ split; [|done]. repeat apply Z.add_nonneg_nonneg;
        repeat apply Z.mul_nonneg_nonneg; lia. }
  unfold liftOpt. unfold mbind, mret, Comp_bind, Comp_ret, comp_bind, comp_ret.
  apply store_within. split; [|done].
  repeat apply Z.add_nonneg_nonneg; repeat apply Z.mul_nonneg_nonneg; lia.
Qed.

Lemma storeChannel_outside range (w h C : Z) (row : list byte) (ptr : nat)
    (r c k : nat) (b : byte) (block : list float) :
  row !! (ptr + k)%nat = Some b →
  (Z.of_nat r * h * C + Z.of_nat c * C + Z.of_nat k < size_t_modulus)%Z →
  (0 ≤ h)%Z → (0 ≤ C)%Z →
  (Z.of_nat (length block) ≤ Z.of_nat r * h * C + Z.of_nat c * C + Z.of_nat k)%Z →
  storeChannel pixelValue range [w; h; C] row (Z.of_nat ptr) r c (Z.of_nat k) block
  = (Undefined, block).
Proof.
  intros Hb Hfit Hh HC Hout. unfold storeChannel.
  assert (Hl : load row (Z.of_nat ptr + Z.of_nat k) block = (Ok b, block)).
  { rewrite <- Nat2Z.inj_add. by apply load_lookup. }
  erewrite (bind_ok _ _ block _ _ Hl).
  rewrite getXYZ_wrap, wrap_small.
  2:{ split; [|done]. repeat apply Z.add_nonneg_nonneg;
        repeat apply Z.mul_nonneg_nonneg; lia. }
  unfold liftOpt. unfold mbind, mret, Comp_bind, Comp_ret, comp_bind, comp_ret.
  by apply store_outside.
Qed.

(** *** One pixel *)

Lemma pixel_pointer (hasAlpha : bool) (C P c : nat) isGray :
  pixelLayout isGray hasAlpha C P → (Z.of_nat c < 2 ^ 31)%Z →
  mul64 (Z.of_nat c) (if hasAlpha then add64 (Z.of_nat C) 1 else Z.of_nat C)
  = Z.of_nat (c * P).
Proof.
  intros Hl Hc.
  assert (Hs : (if hasAlpha then add64 (Z.of_nat C) 1 else Z.of_nat C)
               = Z.of_nat P).
  { destruct Hl as [(_ & -> & -> & ->)|[(_ & -> & -> & ->)|(_ & -> & -> & ->)]];
      reflexivity. }
  rewrite Hs. unfold mul64. rewrite wrap_small; [lia|].
  assert (P ≤ 4)%nat by (destruct Hl as [?|[?|?]]; lia).
  unfold size_t_modulus.
  change (2 ^ 64)%Z with 18446744073709551616%Z.
  change (2 ^ 31)%Z with 2147483648%Z in Hc. nia.
Qed.

Lemma storePixel_within range (w h : Z) (isGray hasAlpha : bool) (C P : nat)
    (row : list byte) (r c base : nat) (block : list float) :
  pixelLayout isGray hasAlpha C P →
  (c * P + P ≤ length row)%nat → (Z.of_nat c < 2 ^ 31)%Z → (0 ≤ h)%Z →
  (Z.of_nat r * h * Z.of_nat C + Z.of_nat c * Z.of_nat C = Z.of_nat base)%Z →
  (Z.of_nat (base + C) ≤ size_t_modulus)%Z →
  (base + C ≤ length block)%nat →
  ∃ block',
    storePixel pixelValue range [w; h; Z.of_nat C] isGray hasAlpha (Z.of_nat C)
      row r c block = (Ok tt, block')
    ∧ length block' = length block
    ∧ (∀ k b, (k < C)%nat → row !! (c * P + k)%nat = Some b →
         block' !! (base + k)%nat = Some (pixelValue range b))
    ∧ (∀ j, (j < base ∨ base + C ≤ j)%nat → block' !! j = block !! j).
Proof.
  intros Hl Hrow Hc Hh Hbase Hfit Hin.
  unfold storePixel. cbn zeta. rewrite (pixel_pointer _ _ _ _ _ Hl Hc).
  assert (Hstore : ∀ (k : nat) blk, (k < C)%nat → length blk = length block →
            ∃ b, row !! (c * P + k)%nat = Some b
              ∧ storeChannel pixelValue range [w; h; Z.of_nat C] row
                  (Z.of_nat (c * P)) r c (Z.of_nat k) blk
                = (Ok tt, <[(base + k)%nat := pixelValue range b]> blk)).
  { intros k blk Hk Hlen.
    assert (P ≥ C)%nat by (destruct Hl as [?|[?|?]]; lia).
    destruct (lookup_lt_is_Some_2 row (c * P + k)%nat) as [b Hb]; [lia|].
    exists b. split; [done|].
    rewrite (storeChannel_within range w h (Z.of_nat C) row (c * P) r c k b blk);
      [|done|lia|done|lia|lia].
    do 2 f_equal. lia. }
  destruct Hl as [(-> & _ & HC & _)|[(-> & _ & HC & _)|(-> & _ & HC & _)]].
  - (* gray *)
    destruct (Hstore 0%nat block) as (b0 & Hb0 & H0); [lia|done|].
    eexists. split; [exact H0|]. split; [apply length_insert|]. split.
    + intros k b Hk Hb. assert (k = 0)%nat as -> by lia.
      rewrite Hb0 in Hb. injection Hb as <-.
      apply list_lookup_insert_eq. lia.
    + intros j Hj. apply list_lookup_insert_ne. lia.
  - (* RGB *)
    destruct (Hstore 0%nat block) as (b0 & Hb0 & H0); [lia|done|].
    destruct (Hstore 1%nat (<[(base + 0)%nat := pixelValue range b0]> block))
      as (b1 & Hb1 & H1); [lia|apply length_insert|].
    destruct (Hstore 2%nat
                (<[(base + 1)%nat := pixelValue range b1]>
                   (<[(base + 0)%nat := pixelValue range b0]> block)))
      as (b2 & Hb2 & H2); [lia|by rewrite !length_insert|].
    eexists. split.
    { erewrite (bind_ok _ _ block _ _ H0).
      erewrite (bind_ok _ _ _ _ _ H1). exact H2. }
    split; [by rewrite !length_insert|]. split.
    + intros k b Hk Hb.
      assert (k = 0 ∨ k = 1 ∨ k = 2)%nat as [-> | [-> | ->]] by lia.
      * rewrite Hb0 in Hb. injection Hb as <-.
        rewrite !list_lookup_insert_ne by lia.
        apply list_lookup_insert_eq. lia.
      * rewrite Hb1 in Hb. injection Hb as <-.
        rewrite list_lookup_insert_ne by lia.
        apply list_lookup_insert_eq. rewrite length_insert. lia.
      * rewrite Hb2 in Hb. injection Hb as <-.
        apply list_lookup_insert_eq. rewrite !length_insert. lia.
    + intros j Hj. rewrite !list_lookup_insert_ne by lia. done.
  - (* RGB with alpha *)
    destruct (Hstore 0%nat block) as (b0 & Hb0 & H0); [lia|done|].
    destruct (Hstore 1%nat (<[(base + 0)%nat := pixelValue range b0]> block))
      as (b1 & Hb1 & H1); [lia|apply length_insert|].
    destruct (Hstore 2%nat
                (<[(base + 1)%nat := pixelValue range b1]>
                   (<[(base + 0)%nat := pixelValue range b0]> block)))
      as (b2 & Hb2 & H2); [lia|by rewrite !length_insert|].
    eexists. split.
    { erewrite (bind_ok _ _ block _ _ H0).
      erewrite (bind_ok _ _ _ _ _ H1). exact H2. }
    split; [by rewrite !length_insert|]. split.
    + intros k b Hk Hb.
      assert (k = 0 ∨ k = 1 ∨ k = 2)%nat as [-> | [-> | ->]] by lia.
      * rewrite Hb0 in Hb. injection Hb as <-.
        rewrite !list_lookup_insert_ne by lia.
        apply list_lookup_insert_eq. lia.
      * rewrite Hb1 in Hb. injection Hb as <-.
        rewrite list_lookup_insert_ne by lia.
        apply list_lookup_insert_eq. rewrite length_insert. lia.
      * rewrite Hb2 in Hb. injection Hb as <-.
        apply list_lookup_insert_eq. rewrite !length_insert. lia.
    + intros j Hj. rewrite !list_lookup_insert_ne by lia. done.
Qed.

(** *** The rows of an image *)

Lemma accepted_layout (info : PngInfo) :
  acceptedHeader info →
  pixelLayout (bool_decide (color_type info = PNG_COLOR_TYPE_GRAY))
    (bool_decide (color_type info = PNG_COLOR_TYPE_RGB_ALPHA))
    (storedChannels info) (pixelBytes info).
Proof.
  intros (_ & Hcol & _). unfold pixelLayout, storedChannels, pixelBytes.
  destruct Hcol as [-> | [-> | ->]]; cbn; auto 10.
Qed.

Lemma storedChannels_bounds (info : PngInfo) :
  (1 ≤ storedChannels info ≤ 3)%nat.
Proof. unfold storedChannels. destruct (color_type info); lia. Qed.

(** The loop over [row_n], for a header that is accepted. *)
Lemma readPngImage_accepted (info : PngInfo) range (s : list float) :
  acceptedHeader info →
  let w := image_width info in
  let h := image_height info in
  let C := Z.of_nat (storedChannels info) in
  readPngImage float_zero pixelValue (Readable info) range s
  = (put (replicate
            (Z.to_nat (mul64 (mul64 (mul64 w h) C) sizeof_float / sizeof_float))
            float_zero);;
     forRange 0 (Z.to_nat h) (λ row_n,
       row ← load (row_pointers info) (Z.of_nat row_n);
       forRange 0 (Z.to_nat w)
         (storePixel pixelValue range [w; h; C]
            (bool_decide (color_type info = PNG_COLOR_TYPE_GRAY))
            (bool_decide (color_type info = PNG_COLOR_TYPE_RGB_ALPHA))
            C row row_n));;
     mret (Some [w; h; C])) s.
Proof.
  intros (Hbd & Hcol & Hp & Hrf). cbn zeta.
  unfold readPngImage, storedChannels. rewrite Hbd, Hp, Hrf.
  destruct Hcol as [-> | [-> | ->]]; reflexivity.
Qed.

Lemma block_size (w h : Z) (C : nat) :
  (0 ≤ w)%Z → (0 ≤ h)%Z → (C ≤ 3)%nat → (w * h * 12 < size_t_modulus)%Z →
  Z.to_nat (mul64 (mul64 (mul64 w h) (Z.of_nat C)) sizeof_float / sizeof_float)
  = (Z.to_nat w * Z.to_nat h * C)%nat.
Proof.
  intros Hw Hh HC Hfit. unfold mul64, sizeof_float.
  assert (0 ≤ w * h)%Z by (by apply Z.mul_nonneg_nonneg).
  assert (w * h * Z.of_nat C ≤ w * h * 3)%Z
    by (apply Z.mul_le_mono_nonneg_l; lia).
  assert (0 ≤ w * h * Z.of_nat C)%Z by (apply Z.mul_nonneg_nonneg; lia).
  rewrite (wrap_small (w * h)) by lia.
  rewrite (wrap_small (w * h * _)) by lia.
  rewrite wrap_small by lia.
  rewrite Z.div_mul by done. lia.
Qed.

(** One row whose pixels all lie within the block. *)
Lemma storeRow_within range (w h : Z) (isGray hasAlpha : bool) (C P : nat)
    (row : list byte) (r : nat) (block : list float) :
  let W := Z.to_nat w in
  let H := Z.to_nat h in
  pixelLayout isGray hasAlpha C P →
  (0 ≤ w < 2 ^ 31)%Z → (0 ≤ h)%Z → (w * h * 12 < size_t_modulus)%Z →
  length row = (W * P)%nat →
  length block = (W * H * C)%nat →
  (W = 0 ∨ r * H + W ≤ W * H)%nat →
  ∃ block',
    forRange 0 W
      (storePixel pixelValue range [w; h; Z.of_nat C] isGray hasAlpha
         (Z.of_nat C) row r) block = (Ok tt, block')
    ∧ length block' = length block
    ∧ (∀ c k b, (c < W)%nat → (k < C)%nat → row !! (c * P + k)%nat = Some b →
         block' !! ((r * H + c) * C + k)%nat = Some (pixelValue range b))
    ∧ (∀ j, (j < r * H * C ∨ (r * H + W) * C ≤ j)%nat → block' !! j = block !! j).
Proof.
  intros W H Hl Hw Hh Hfit Hrow Hlen Hin.
  assert (HC : (1 ≤ C ≤ 3)%nat) by (destruct Hl as [?|[?|?]]; lia).
  assert (HWH : (Z.of_nat (W * H * C) < size_t_modulus)%Z).
  { assert (Z.of_nat (W * H * C) ≤ w * h * 3)%Z; [|lia].
    replace (Z.of_nat (W * H * C)) with (w * h * Z.of_nat C)%Z by lia.
    apply Z.mul_le_mono_nonneg_l; [apply Z.mul_nonneg_nonneg|]; lia. }
  destruct (forRange_invariant
              (λ c blk,
                 length blk = length block
                 ∧ (∀ c' k b, (c' < c)%nat → (k < C)%nat →
                      row !! (c' * P + k)%nat = Some b →
                      blk !! ((r * H + c') * C + k)%nat = Some (pixelValue range b))
                 ∧ (∀ j, (j < r * H * C ∨ (r * H + c) * C ≤ j)%nat →
                      blk !! j = block !! j))
              (storePixel pixelValue range [w; h; Z.of_nat C] isGray hasAlpha
                 (Z.of_nat C) row r) W 0 block)
    as (block' & Hrun & Hlen' & Hcells & Hframe).
  { split; [done|]. split; [intros; lia|done]. }
  { intros c blk Hc (Hlen1 & Hcells1 & Hframe1).
    assert (HcW : (r * H + c + 1 ≤ W * H)%nat) by lia.
    assert (Hbase : ((r * H + c) * C + C ≤ W * H * C)%nat).
    { replace ((r * H + c) * C + C)%nat with ((r * H + c + 1) * C)%nat by lia.
      by apply Nat.mul_le_mono_r. }
    destruct (storePixel_within range w h isGray hasAlpha C P row r c
                ((r * H + c) * C)%nat blk Hl)
      as (blk' & Hstep & Hlen2 & Hnew & Hold).
    { replace (c * P + P)%nat with ((c + 1) * P)%nat by lia.
      rewrite Hrow. apply Nat.mul_le_mono_r. lia. }
    { lia. } { done. } { lia. } { lia. } { lia. }
    exists blk'. split; [done|]. split; [congruence|]. split.
    - intros c' k b Hc' Hk Hb.
      destruct (decide (c' = c)) as [->|Hne]; [by apply Hnew|].
      rewrite Hold; [apply Hcells1; [lia|done..]|]. left.
      assert ((r * H + c') * C + C ≤ (r * H + c) * C)%nat; [|lia].
      replace ((r * H + c') * C + C)%nat with ((r * H + c' + 1) * C)%nat by lia.
      apply Nat.mul_le_mono_r. lia.
    - intros j Hj. rewrite Hold; [apply Hframe1|].
      + destruct Hj as [Hj|Hj]; [by left|right].
        assert ((r * H + c) * C ≤ (r * H + S c) * C)%nat
          by (apply Nat.mul_le_mono_r; lia). lia.
      + destruct Hj as [Hj|Hj]; [left|right].
        * assert (r * H * C ≤ (r * H + c) * C)%nat
            by (apply Nat.mul_le_mono_r; lia). lia.
        * replace ((r * H + S c) * C)%nat with ((r * H + c) * C + C)%nat in Hj
            by lia. done. }
  exists block'. rewrite Nat.add_0_l in *. done.
Qed.

Lemma storePixel_outside range (w h : Z) (isGray hasAlpha : bool) (C P : nat)
    (row : list byte) (r c base : nat) (block : list float) :
  pixelLayout isGray hasAlpha C P →
  (c * P + P ≤ length row)%nat → (Z.of_nat c < 2 ^ 31)%Z → (0 ≤ h)%Z →
  (Z.of_nat r * h * Z.of_nat C + Z.of_nat c * Z.of_nat C = Z.of_nat base)%Z →
  (Z.of_nat base < size_t_modulus)%Z →
  (length block ≤ base)%nat →
  storePixel pixelValue range [w; h; Z.of_nat C] isGray hasAlpha (Z.of_nat C)
    row r c block = (Undefined, block).
Proof.
  intros Hl Hrow Hc Hh Hbase Hfit Hout.
  unfold storePixel. cbn zeta. rewrite (pixel_pointer _ _ _ _ _ Hl Hc).
  assert (P ≥ 1)%nat by (destruct Hl as [?|[?|?]]; lia).
  destruct (lookup_lt_is_Some_2 row (c * P + 0)%nat) as [b Hb]; [lia|].
  pose proof (storeChannel_outside range w h (Z.of_nat C) row (c * P) r c 0 b
                block Hb) as H0.
  change (Z.of_nat 0) with 0%Z in H0.
  destruct Hl as [(-> & _)|[(-> & _)|(-> & _)]].
  - apply H0; lia.
  - unfold mbind, Comp_bind, comp_bind. rewrite H0; [done|lia..].
  - unfold mbind, Comp_bind, comp_bind. rewrite H0; [done|lia..].
Qed.

Lemma row_lookup (info : PngInfo) (r : nat) :
  wellFormed info → (r < Z.to_nat (image_height info))%nat →
  ∃ row, row_pointers info !! r = Some row
    ∧ length row = (Z.to_nat (image_width info) * pixelBytes info)%nat.
Proof.
  intros (Hw & Hh & _ & Hrows & Hall) Hr.
  destruct (lookup_lt_is_Some_2 (row_pointers info) r) as [row Hrow]; [lia|].
  exists row. split; [done|].
  pose proof (Forall_lookup_1 _ _ _ _ Hall Hrow) as Hlen. cbn in Hlen. lia.
Qed.

Lemma channelByte_lookup (info : PngInfo) (P r c k : nat) row b :
  row_pointers info !! r = Some row → row !! (c * P + k)%nat = Some b →
  channelByte info P r c k = b.
Proof. intros Hr Hb. unfold channelByte. rewrite Hr. cbn. by rewrite Hb. Qed.

(** The rows below [R], when their pixels all lie within the block. In a
    square image no store overwrites an earlier one. *)
Lemma storeRows_within (info : PngInfo) range (R : nat) (block : list float) :
  let w := image_width info in
  let h := image_height info in
  let W := Z.to_nat w in
  let H := Z.to_nat h in
  let C := storedChannels info in
  acceptedHeader info → wellFormed info →
  length block = (W * H * C)%nat → (R ≤ H)%nat →
  (∀ r, (r < R)%nat → W = 0 ∨ r * H + W ≤ W * H)%nat →
  ∃ block',
    forRange 0 R (λ row_n,
      row ← load (row_pointers info) (Z.of_nat row_n);
      forRange 0 W
        (storePixel pixelValue range [w; h; Z.of_nat C]
           (bool_decide (color_type info = PNG_COLOR_TYPE_GRAY))
           (bool_decide (color_type info = PNG_COLOR_TYPE_RGB_ALPHA))
           (Z.of_nat C) row row_n)) block
    = (Ok tt, block')
    ∧ length block' = length block
    ∧ (W = H → ∀ r c k, (r < R)%nat → (c < W)%nat → (k < C)%nat →
         block' !! ((r * H + c) * C + k)%nat
         = Some (pixelValue range (channelByte info (pixelBytes info) r c k))).
Proof.
  intros w h W H C Hacc Hwf Hlen HR Hin.
  pose proof (accepted_layout info Hacc) as Hl.
  pose proof Hwf as (Hw & Hh & Hfit & _).
  destruct (forRange_invariant
              (λ r blk,
                 length blk = length block
                 ∧ (W = H → ∀ r' c k, (r' < r)%nat → (c < W)%nat → (k < C)%nat →
                      blk !! ((r' * H + c) * C + k)%nat
                      = Some (pixelValue range
                                (channelByte info (pixelBytes info) r' c k))))
              (λ row_n,
                 row ← load (row_pointers info) (Z.of_nat row_n);
                 forRange 0 W
                   (storePixel pixelValue range [w; h; Z.of_nat C]
                      (bool_decide (color_type info = PNG_COLOR_TYPE_GRAY))
                      (bool_decide (color_type info = PNG_COLOR_TYPE_RGB_ALPHA))
                      (Z.of_nat C) row row_n)) R 0 block)
    as (block' & Hrun & Hlen' & Hcells).
  { split; [done|]. intros; lia. }
  { intros r blk Hr (Hlen1 & Hcells1).
    destruct (row_lookup info r Hwf) as (row & Hrow & Hrowlen); [fold H; lia|].
    destruct (storeRow_within range w h _ _ C (pixelBytes info) row r blk Hl)
      as (blk' & Hstep & Hlen2 & Hnew & Hold);
      [lia|lia|done|done|by rewrite Hlen1| |].
    { apply Hin. lia. }
    exists blk'. split.
    - erewrite (bind_ok _ _ blk _ _ (load_lookup _ _ _ _ Hrow)). exact Hstep.
    - split; [congruence|]. intros Hsq r' c k Hr' Hc Hk.
      destruct (decide (r' = r)) as [->|Hne].
      + destruct (lookup_lt_is_Some_2 row (c * pixelBytes info + k)%nat)
          as [b Hb].
        { rewrite Hrowlen. fold W.
          assert (pixelBytes info ≥ C)%nat
            by (destruct Hl as [?|[?|?]]; lia).
          assert ((c + 1) * pixelBytes info ≤ W * pixelBytes info)%nat
            by (apply Nat.mul_le_mono_r; lia). lia. }
        rewrite (channelByte_lookup info _ r c k row b Hrow Hb).
        by apply Hnew.
      + rewrite Hold; [apply Hcells1; [done|lia|done..]|]. left.
        assert ((r' * H + c + 1) * C ≤ r * H * C)%nat; [|lia].
        apply Nat.mul_le_mono_r.
        assert ((r' + 1) * H ≤ r * H)%nat by (apply Nat.mul_le_mono_r; lia).
        lia. }
  exists block'. rewrite Nat.add_0_l in *. done.
Qed.

(** *** [readPngImage] *)

Lemma readPngImage_within (info : PngInfo) range (imageT0 : list float) :
  let w := image_width info in
  let h := image_height info in
  let W := Z.to_nat w in
  let H := Z.to_nat h in
  let C := storedChannels info in
  acceptedHeader info → wellFormed info →
  (H ≤ W ∨ W = 0)%nat →
  ∃ imageT,
    readPngImage float_zero pixelValue (Readable info) range imageT0
    = (Ok (Some [w; h; Z.of_nat C]), imageT)
    ∧ length imageT = (W * H * C)%nat
    ∧ (W = H → ∀ r c k, (r < H)%nat → (c < W)%nat → (k < C)%nat →
         imageT !! ((r * H + c) * C + k)%nat
         = Some (pixelValue range (channelByte info (pixelBytes info) r c k))).
Proof.
  intros w h W H C Hacc Hwf Hshape.
  pose proof Hwf as (Hw & Hh & Hfit & _).
  pose proof (storedChannels_bounds info) as HC.
  rewrite (readPngImage_accepted info range imageT0 Hacc). cbn zeta.
  fold w h W H C.
  assert (Hput : put (replicate
                        (Z.to_nat (mul64 (mul64 (mul64 w h) (Z.of_nat C)) sizeof_float
                                   / sizeof_float)) float_zero) imageT0
                 = (Ok tt, replicate (W * H * C) float_zero)).
  { unfold put. by rewrite block_size by (done || lia). }
  erewrite (bind_ok _ _ imageT0 _ _ Hput).
  destruct (storeRows_within info range H (replicate (W * H * C) float_zero)
              Hacc Hwf) as (imageT & Hrun & Hlen & Hcells).
  { apply length_replicate. } { done. }
  { intros r Hr. destruct Hshape as [Hshape|Hshape]; [|by left].
    right. fold W H.
    assert (r * H + H ≤ H * H)%nat.
    { replace (r * H + H)%nat with ((r + 1) * H)%nat by lia.
      apply Nat.mul_le_mono_r. lia. }
    assert (H * H + (W - H) ≤ W * H)%nat; [|lia].
    replace (W * H)%nat with (H * H + (W - H) * H)%nat by nia.
    assert (W - H ≤ (W - H) * H)%nat; [|lia].
    destruct (decide (H = 0)%nat) as [->|?]; [lia|nia]. }
  exists imageT. fold w h W H C in Hrun.
  erewrite (bind_ok _ _ _ _ _ Hrun).
  rewrite length_replicate in Hlen. done.
Qed.

Lemma readPngImage_tall (info : PngInfo) range (imageT0 : list float) :
  let W := Z.to_nat (image_width info) in
  let H := Z.to_nat (image_height info) in
  acceptedHeader info → wellFormed info →
  (0 < W < H)%nat →
  (readPngImage float_zero pixelValue (Readable info) range imageT0).1
  = Undefined.
Proof.
  intros W H Hacc Hwf Hshape.
  pose proof Hwf as (Hw & Hh & Hfit & _).
  pose proof (storedChannels_bounds info) as HC.
  pose proof (accepted_layout info Hacc) as Hl.
  set (w := image_width info) in *. set (h := image_height info) in *.
  set (C := storedChannels info) in *.
  rewrite (readPngImage_accepted info range imageT0 Hacc). cbn zeta.
  fold w h W H C.
  assert (Hput : put (replicate
                        (Z.to_nat (mul64 (mul64 (mul64 w h) (Z.of_nat C)) sizeof_float
                                   / sizeof_float)) float_zero) imageT0
                 = (Ok tt, replicate (W * H * C) float_zero)).
  { unfold put. by rewrite block_size by (done || lia). }
  erewrite (bind_ok _ _ imageT0 _ _ Hput).
  assert (HN : (Z.of_nat (W * H * C) < size_t_modulus)%Z).
  { assert (Z.of_nat (W * H * C) ≤ w * h * 3)%Z; [|lia].
    replace (Z.of_nat (W * H * C)) with (w * h * Z.of_nat C)%Z by lia.
    apply Z.mul_le_mono_nonneg_l; [apply Z.mul_nonneg_nonneg|]; lia. }
  match goal with
  | |- ((forRange 0 H ?body ≫= _) _).1 = _ =>
      pose proof (forRange_undefined
                    (λ (_ : nat) (blk : list float), length blk = (W * H * C)%nat)
                    body H 0 W (replicate (W * H * C) float_zero)) as Hloop
  end.
  unfold mbind at 1, Comp_bind, comp_bind.
  match goal with
  | |- (let (o, s') := ?run in _).1 = _ =>
      assert (Hrun : run.1 = Undefined); [|by destruct run as [[] ?]]
  end.
  apply Hloop; clear Hloop.
  - lia.
  - apply length_replicate.
  - intros r blk Hr Hlen.
    destruct (row_lookup info r Hwf) as (row & Hrow & Hrowlen); [fold H; lia|].
    destruct (storeRow_within range w h _ _ C (pixelBytes info) row r blk Hl)
      as (blk' & Hstep & Hlen2 & _); [lia|lia|done|done|done| |].
    { right. fold W H.
      assert ((r + 1) * H ≤ W * H)%nat by (apply Nat.mul_le_mono_r; lia).
      lia. }
    exists blk'. split; [|congruence].
    erewrite (bind_ok _ _ blk _ _ (load_lookup _ _ _ _ Hrow)). exact Hstep.
  - intros blk Hlen.
    destruct (row_lookup info W Hwf) as (row & Hrow & Hrowlen); [fold H; lia|].
    erewrite (bind_ok _ _ blk _ _ (load_lookup _ _ _ _ Hrow)).
    fold W in Hrowlen |- *. destruct W as [|W'] eqn:HW; [lia|].
    cbn [forRange]. unfold mbind, Comp_bind, comp_bind.
    rewrite (storePixel_outside range w h _ _ C (pixelBytes info) row
               (S W') 0 (S W' * H * C)%nat blk Hl); [done|lia|done|lia|lia|lia|lia].
Qed.

(** Property X20. For a header that [readPngImage] accepts, of an image
    whose rows libpng filled: the stores stay within the block of [width *
    height * numChannels] floats exactly when the image is not taller than
    wide (or has no column); for an image that is taller than wide a store
    goes past the end of the block, since a row is taken to be [height]
    pixels long. *)
Theorem tall_image_is_stored_past_the_block (info : PngInfo)
    (range : float * float) (imageT0 : list float) :
  acceptedHeader info → wellFormed info →
  let r := readPngImage float_zero pixelValue (Readable info) range imageT0 in
  let w := image_width info in
  let h := image_height info in
  ((h ≤ w ∨ w = 0)%Z →
     r.1 = Ok (Some [w; h; Z.of_nat (storedChannels info)])
     ∧ length r.2 = (Z.to_nat w * Z.to_nat h * storedChannels info)%nat)
  ∧ ((0 < w < h)%Z → r.1 = Undefined).
Proof.
  intros Hacc Hwf. cbn zeta. pose proof Hwf as (Hw & Hh & _). split.
  - intros Hshape.
    destruct (readPngImage_within info range imageT0 Hacc Hwf)
      as (imageT & -> & Hlen & _); [lia|done].
  - intros Hshape. apply readPngImage_tall; [done..|lia].
Qed.

(** Property X21. For an accepted header of a square image, [readPngImage]
    returns the dimensions [width, height, numChannels] and a block in which
    the float of channel [k] of the pixel in row [r] and column [c] is at
    index [(r * width + c) * numChannels + k]: every cell of the block is
    written, with the value of the byte that libpng delivered (the alpha
    bytes are skipped). *)
Theorem square_image_is_stored_row_by_row (info : PngInfo)
    (range : float * float) (imageT0 : list float) :
  acceptedHeader info → wellFormed info →
  image_width info = image_height info →
  let d := Z.to_nat (image_width info) in
  let C := storedChannels info in
  ∃ imageT,
    readPngImage float_zero pixelValue (Readable info) range imageT0
    = (Ok (Some [image_width info; image_height info; Z.of_nat C]), imageT)
    ∧ length imageT = (d * d * C)%nat
    ∧ ∀ r c k, (r < d)%nat → (c < d)%nat → (k < C)%nat →
        imageT !! ((r * d + c) * C + k)%nat
        = Some (pixelValue range (channelByte info (pixelBytes info) r c k)).
Proof.
  intros Hacc Hwf Hsq. cbn zeta.
  destruct (readPngImage_within info range imageT0 Hacc Hwf)
    as (imageT & Hrun & Hlen & Hcells); [rewrite Hsq; lia|].
  exists imageT. rewrite <- Hsq in Hlen, Hcells.
  split; [done|]. split; [done|].
  intros r c k Hr Hc Hk. by apply Hcells.
Qed.

(** Property X22. [readPngImage] reports success only for a file that opens,
    carries the signature and whose header it accepts: 8 bits a channel,
    gray, RGB or RGB with alpha, not interlaced, and read without an error
    of libpng; the dimensions it then reports are the width, the height and
    1 channel for gray, 3 otherwise. When it returns without success it has
    not touched the block. *)
Theorem readPngImage_success_means_accepted (file : PngFile)
    (range : float * float) (imageT0 imageT : list float)
    (result : option (list Z)) :
  readPngImage float_zero pixelValue file range imageT0 = (Ok result, imageT) →
  match file, result with
  | Readable info, Some dims =>
      acceptedHeader info
      ∧ dims = [image_width info; image_height info;
                Z.of_nat (storedChannels info)]
  | Readable info, None =>
      read_failed info = true ∧ imageT = imageT0
      ∧ bit_depth info = 8%Z ∧ number_of_passes info = 1%Z
  | _, Some _ => False
  | _, None => imageT = imageT0
  end.
Proof.
  destruct file as [| | | |info]; try (by intros [= <- <-]).
  unfold readPngImage. cbn zeta.
  rewrite assert_bind.
  destruct (bool_decide (bit_depth info = 8%Z)) eqn:Hbd; [|done].
  rewrite assert_bind.
  destruct (bool_decide (_ ∨ _) || _) eqn:Hcol; [|done].
  rewrite assert_bind.
  destruct (bool_decide (number_of_passes info = 1%Z)) eqn:Hp; [|done].
  apply bool_decide_eq_true_1 in Hbd, Hp.
  destruct (read_failed info) eqn:Hrf.
  { by intros [= <- <-]. }
  intros Hrun.
  apply bind_ok_inv in Hrun as ([] & s1 & _ & Hrun).
  apply bind_ok_inv in Hrun as ([] & s2 & _ & Hrun).
  injection Hrun as <- <-. split.
  - split; [done|]. split; [|done].
    apply orb_prop in Hcol as [Hcol|Hcol].
    + apply bool_decide_eq_true_1 in Hcol as [?|?]; auto.
    + apply bool_decide_eq_true_1 in Hcol. auto.
  - unfold storedChannels. do 3 f_equal.
    by destruct (color_type info).
Qed.

(** *** The conversion loops *)

Lemma copyPixel_within (N C n x y : nat) (imageT : list float) (v : float)
    (s : Loader) :
  (n < N)%nat → (x < 28)%nat → (y < 28)%nat → (1 ≤ C ≤ 3)%nat →
  (Z.of_nat N * 784 < 2 ^ 32)%Z →
  imageT !! ((x * 28 + y) * C)%nat = Some v →
  length (resultT s) = (N * 784)%nat →
  copyPixel [Z.of_nat N; 1; DEFAULT_HEIGHT; DEFAULT_WIDTH]%Z
    [28; 28; Z.of_nat C]%Z imageT 1 n 0 y x s
  = (Ok tt, mkLoader (<[(n * 784 + x * 28 + y)%nat := v]> (resultT s))
              (printed s)).
Proof.
  intros Hn Hx Hy HC HN Hv Hlen. unfold copyPixel, DEFAULT_HEIGHT, DEFAULT_WIDTH.
  change (2 ^ 32)%Z with 4294967296%Z in *.
  assert (Hsz : size_t_modulus = 18446744073709551616%Z) by reflexivity.
  assert (Hsrc : getXYZ [28; 28; Z.of_nat C]%Z (Z.of_nat x) (Z.of_nat y)
                   (Z.of_nat 0) = Some (Z.of_nat ((x * 28 + y) * C))).
  { rewrite getXYZ_exact by (rewrite ?Hsz; lia). f_equal. lia. }
  assert (Hdst : getXYZW [Z.of_nat N; 1; 28; 28]%Z (Z.of_nat n)
                   ((1 - 1 - Z.of_nat 0) `mod` 4294967296)%Z
                   (Z.of_nat x) (Z.of_nat y)
                 = Some (Z.of_nat (n * 784 + x * 28 + y))).
  { change ((1 - 1 - Z.of_nat 0) `mod` 4294967296)%Z with 0%Z.
    rewrite getXYZW_exact by (rewrite ?Hsz; lia). f_equal. lia. }
  rewrite Hsrc, Hdst. cbn [liftOpt].
  rewrite ret_bind.
  erewrite (bind_ok _ _ s _ _ (load_lookup _ _ _ _ Hv)).
  rewrite ret_bind.
  unfold storeResult. rewrite bool_decide_eq_true_2 by lia.
  by rewrite Nat2Z.id.
Qed.

(** The loops over [y] and [x] for image [n], from a block [imageT] that
    holds the pixel [pix x y] at index [(x * 28 + y) * C]. *)
Lemma convertImage_within (N C n : nat) (imageT : list float)
    (pix : nat → nat → float) (s0 : Loader) :
  (n < N)%nat → (1 ≤ C ≤ 3)%nat → (Z.of_nat N * 784 < 2 ^ 32)%Z →
  (∀ x y, (x < 28)%nat → (y < 28)%nat →
          imageT !! ((x * 28 + y) * C)%nat = Some (pix x y)) →
  length (resultT s0) = (N * 784)%nat →
  ∃ res,
    forRange 0 28 (λ y,
      forRange 0 28
        (copyPixel [Z.of_nat N; 1; DEFAULT_HEIGHT; DEFAULT_WIDTH]%Z
           [28; 28; Z.of_nat C]%Z imageT 1 n 0 y)) s0
    = (Ok tt, mkLoader res (printed s0))
    ∧ length res = (N * 784)%nat
    ∧ (∀ x y, (x < 28)%nat → (y < 28)%nat →
         res !! (n * 784 + x * 28 + y)%nat = Some (pix x y))
    ∧ (∀ j, (j < n * 784 ∨ (n + 1) * 784 ≤ j)%nat → res !! j = resultT s0 !! j).
Proof.
  intros Hn HC HN Hpix Hlen.
  set (J := λ (y x : nat) (s : Loader),
         printed s = printed s0
         ∧ length (resultT s) = (N * 784)%nat
         ∧ (∀ x' y', (x' < 28)%nat → (y' < 28)%nat →
              (y' < y ∨ (y' = y ∧ x' < x))%nat →
              resultT s !! (n * 784 + x' * 28 + y')%nat = Some (pix x' y'))
         ∧ (∀ j, (j < n * 784 ∨ (n + 1) * 784 ≤ j)%nat →
              resultT s !! j = resultT s0 !! j)).
  destruct (forRange_invariant (λ y s, J y 0%nat s)
              (λ y, forRange 0 28
                      (copyPixel [Z.of_nat N; 1; DEFAULT_HEIGHT; DEFAULT_WIDTH]%Z
                         [28; 28; Z.of_nat C]%Z imageT 1 n 0 y))
              28 0 s0) as (s' & Hrun & Hp & Hlen' & Hcells & Hframe).
  { split; [done|]. split; [done|]. split; [intros; lia|done]. }
  { intros y s Hy HJ.
    destruct (forRange_invariant (λ x s, J y x s)
                (copyPixel [Z.of_nat N; 1; DEFAULT_HEIGHT; DEFAULT_WIDTH]%Z
                   [28; 28; Z.of_nat C]%Z imageT 1 n 0 y) 28 0 s HJ)
      as (s1 & Hrun1 & Hp1 & Hlen1 & Hcells1 & Hframe1).
    { intros x s2 Hx (Hp2 & Hlen2 & Hcells2 & Hframe2).
      eexists. split.
      { apply (copyPixel_within N C n x y imageT (pix x y));
          [done|lia|lia|done|done|apply Hpix; lia|done]. }
      split; [done|]. cbn [resultT printed].
      split; [by rewrite length_insert|]. split.
      - intros x' y' Hx' Hy' Hord.
        destruct (decide (x' = x ∧ y' = y)) as [[-> ->]|Hne].
        + apply list_lookup_insert_eq. lia.
        + rewrite list_lookup_insert_ne by lia. apply Hcells2; lia.
      - intros j Hj. rewrite list_lookup_insert_ne by lia. by apply Hframe2. }
    exists s1. split; [done|]. split; [done|]. split; [done|].
    split; [|done]. intros x' y' Hx' Hy' Hord. apply Hcells1; lia. }
  destruct s' as [res out]. cbn [resultT printed] in *. subst out.
  exists res. split; [done|]. split; [done|]. split; [|done].
  intros x y Hx Hy. apply Hcells; lia.
Qed.

(** One image of the expected size. *)
Lemma loadImage_within (filenames : list string) (n : nat) (name : string)
    (info : PngInfo) (s0 : Loader) :
  let N := length filenames in
  let range := (float_zero, float_one) in
  filenames !! n = Some name → files name = Readable info → mnistImage info →
  (Z.of_nat N * 784 < 2 ^ 32)%Z →
  length (resultT s0) = (N * 784)%nat →
  ∃ res,
    loadImage float_zero pixelValue files filenames range
      [Z.of_nat N; 1; DEFAULT_HEIGHT; DEFAULT_WIDTH]%Z 1 n s0
    = (Ok tt, mkLoader res (printed s0))
    ∧ length res = (N * 784)%nat
    ∧ (∀ x y, (x < 28)%nat → (y < 28)%nat →
         res !! (n * 784 + x * 28 + y)%nat
         = Some (pixelValue range (channelByte info (pixelBytes info) x y 0)))
    ∧ (∀ j, (j < n * 784 ∨ (n + 1) * 784 ≤ j)%nat → res !! j = resultT s0 !! j).
Proof.
  intros N range Hname Hfile (Hacc & Hwf & Hw & Hh) HN Hlen.
  pose proof (storedChannels_bounds info) as HC.
  assert (Hn : (n < N)%nat) by (by eapply lookup_lt_Some).
  unfold loadImage.
  erewrite (bind_ok _ _ s0 _ _ (load_lookup _ _ _ _ Hname)).
  destruct (readPngImage_within info range [] Hacc Hwf)
    as (imageT & Hread & HlenT & Hcells).
  { rewrite Hw, Hh. left. done. }
  rewrite Hw, Hh in Hread, HlenT, Hcells.
  change (Z.to_nat DEFAULT_WIDTH) with 28%nat in *.
  change (Z.to_nat DEFAULT_HEIGHT) with 28%nat in *.
  assert (Hlocal : withLocal (St := Loader) []
                     (readPngImage float_zero pixelValue (files name) range) s0
                   = (Ok (Some [DEFAULT_WIDTH; DEFAULT_HEIGHT;
                                Z.of_nat (storedChannels info)], imageT), s0)).
  { unfold withLocal. by rewrite Hfile, Hread. }
  erewrite (bind_ok _ _ s0 _ _ Hlocal).
  cbn [lookup list_lookup liftOpt]. rewrite !ret_bind.
  rewrite assert_bind. rewrite bool_decide_eq_true_2 by done.
  change (Z.to_nat 1) with 1%nat. cbn [forRange].
  change (Z.to_nat DEFAULT_WIDTH) with 28%nat.
  change (Z.to_nat DEFAULT_HEIGHT) with 28%nat.
  destruct (convertImage_within N (storedChannels info) n imageT
              (λ x y, pixelValue range (channelByte info (pixelBytes info) x y 0))
              s0 Hn HC HN) as (res & Hrun & Hres).
  { intros x y Hx Hy.
    replace ((x * 28 + y) * storedChannels info)%nat
      with ((x * 28 + y) * storedChannels info + 0)%nat by lia.
    apply Hcells; [done|lia..]. }
  { done. }
  exists res. split; [|done].
  erewrite (bind_ok _ _ s0 _ _ Hrun). done.
Qed.

(** *** [loadImagesAndPreprocess] *)

Lemma loadImagesAndPreprocess_start (filenames : list string) (s : Loader) :
  (0 < length filenames)%nat →
  (Z.of_nat (length filenames) * 784 < 2 ^ 32)%Z →
  let N := length filenames in
  loadImagesAndPreprocess float_zero float_one pixelValue files indeterminate
    filenames s
  = (forRange 0 N
       (loadImage float_zero pixelValue files filenames (float_zero, float_one)
          [Z.of_nat N; 1; DEFAULT_HEIGHT; DEFAULT_WIDTH]%Z 1);;
     modify (λ s, mkLoader (resultT s)
                    (printed s ++ [OutLoadedImages (Z.of_nat (3136 * N))]));;
     mret [Z.of_nat N; 1; DEFAULT_HEIGHT; DEFAULT_WIDTH]%Z)
      (mkLoader (indeterminate <$> seq 0 (N * 784)) (printed s)).
Proof.
  intros Hpos HN. cbn zeta. unfold loadImagesAndPreprocess.
  destruct (image_bytes _ HN) as (Hn32 & Hrs & _).
  rewrite assert_bind, bool_decide_eq_true_2 by done.
  rewrite Hn32, Hrs, Nat2Z.id.
  replace (Z.to_nat (Z.of_nat (3136 * length filenames) / sizeof_float))
    with (length filenames * 784)%nat; [done|].
  unfold sizeof_float.
  replace (Z.of_nat (3136 * length filenames))
    with (Z.of_nat (length filenames * 784) * 4)%Z by lia.
  by rewrite Z.div_mul, Nat2Z.id.
Qed.

(** Property X23. With [n] files, [0 < n], [n * 784 < 2^32], that are all
    accepted images of 28 x 28 pixels, [loadImagesAndPreprocess] returns the
    dimensions [n, 1, 28, 28], prints the size [3136 * n] and leaves a block
    of [784 * n] floats in which the float at [i * 784 + x * 28 + y] is the
    value of the first channel of the pixel in row [x] and column [y] of
    image [i]: every cell of the block that [malloc] returned is written, so
    nothing of what the block held before is left, and of an RGB image the
    red channel alone is used. *)
Theorem every_cell_of_the_result_is_written (filenames : list string)
    (s : Loader) :
  let N := length filenames in
  let range := (float_zero, float_one) in
  (0 < N)%nat → (Z.of_nat N * 784 < 2 ^ 32)%Z →
  (∀ name, name ∈ filenames → ∃ info, files name = Readable info ∧ mnistImage info) →
  ∃ res,
    loadImagesAndPreprocess float_zero float_one pixelValue files indeterminate
      filenames s
    = (Ok [Z.of_nat N; 1; DEFAULT_HEIGHT; DEFAULT_WIDTH]%Z,
       mkLoader res (printed s ++ [OutLoadedImages (Z.of_nat (3136 * N))]))
    ∧ length res = (N * 784)%nat
    ∧ ∀ i name info x y,
        filenames !! i = Some name → files name = Readable info →
        (x < 28)%nat → (y < 28)%nat →
        res !! (i * 784 + x * 28 + y)%nat
        = Some (pixelValue range (channelByte info (pixelBytes info) x y 0)).
Proof.
  intros N range Hpos HN Hfiles.
  rewrite (loadImagesAndPreprocess_start filenames s Hpos HN). fold N range.
  set (s0 := mkLoader _ _).
  destruct (forRange_invariant
              (λ n (s1 : Loader),
                 printed s1 = printed s
                 ∧ length (resultT s1) = (N * 784)%nat
                 ∧ ∀ i name info x y,
                     (i < n)%nat →
                     filenames !! i = Some name → files name = Readable info →
                     (x < 28)%nat → (y < 28)%nat →
                     resultT s1 !! (i * 784 + x * 28 + y)%nat
                     = Some (pixelValue range
                               (channelByte info (pixelBytes info) x y 0)))
              (loadImage float_zero pixelValue files filenames range
                 [Z.of_nat N; 1; DEFAULT_HEIGHT; DEFAULT_WIDTH]%Z 1)
              N 0 s0) as (s' & Hrun & Hp & Hlen & Hcells).
  { split; [done|]. split; [|intros; lia].
    unfold s0. cbn [resultT]. by rewrite length_fmap, length_seq. }
  { intros n s1 Hn (Hp1 & Hlen1 & Hcells1).
    destruct (lookup_lt_is_Some_2 filenames n) as [name Hname]; [fold N; lia|].
    destruct (Hfiles name (list_elem_of_lookup_2 _ _ _ Hname))
      as (info & Hfile & Hmnist).
    destruct (loadImage_within filenames n name info s1 Hname Hfile Hmnist HN)
      as (res & Hstep & Hlen2 & Hnew & Hold); [done|].
    exists (mkLoader res (printed s1)). split; [done|].
    split; [done|]. split; [done|]. cbn [resultT].
    intros i name' info' x y Hi Hname' Hfile' Hx Hy.
    destruct (decide (i = n)) as [->|Hne].
    - rewrite Hname in Hname'. injection Hname' as <-.
      rewrite Hfile in Hfile'. injection Hfile' as <-. by apply Hnew.
    - rewrite Hold by lia. eapply Hcells1; [lia|done..]. }
  destruct s' as [res out]. cbn [resultT printed] in *. subst out.
  exists res. erewrite (bind_ok _ _ s0 _ _ Hrun).
  split; [done|]. split; [done|].
  intros i name info x y Hname Hfile Hx Hy.
  eapply Hcells; [|done..]. rewrite Nat.add_0_l.
  by eapply lookup_lt_Some.
Qed.

(** A header that fails an assertion stops [readPngImage] there. *)
Lemma readPngImage_rejected (info : PngInfo) range (s : list float) :
  rejectedHeader info →
  readPngImage float_zero pixelValue (Readable info) range s
  = (AssertionFailed "Invalid image", s).
Proof.
  intros Hrej. unfold readPngImage. cbn zeta.
  rewrite assert_bind.
  destruct (bool_decide (bit_depth info = 8%Z)) eqn:Hbd; [|done].
  rewrite assert_bind.
  destruct (bool_decide (_ ∨ _) || _) eqn:Hcol; [|done].
  rewrite assert_bind.
  destruct (bool_decide (number_of_passes info = 1%Z)) eqn:Hp; [|done].
  apply bool_decide_eq_true_1 in Hbd, Hp.
  destruct Hrej as [?|[Hc|[Hc|?]]]; try done;
    rewrite Hc in Hcol; by vm_compute in Hcol.
Qed.

(** An error of libpng while the data is read: no success, no store. *)
Lemma readPngImage_read_failed (info : PngInfo) range (s : list float) :
  ¬ rejectedHeader info → read_failed info = true →
  readPngImage float_zero pixelValue (Readable info) range s = (Ok None, s).
Proof.
  intros Hrej Hrf. unfold readPngImage, rejectedHeader in *. cbn zeta.
  rewrite assert_bind, bool_decide_eq_true_2
    by (destruct (decide (bit_depth info = 8%Z)); tauto).
  rewrite assert_bind.
  destruct (bool_decide (_ ∨ _) || _) eqn:Hcol.
  2:{ exfalso. apply Hrej. destruct (color_type info); vm_compute in Hcol; try done; auto. }
  rewrite assert_bind, bool_decide_eq_true_2
    by (destruct (decide (number_of_passes info = 1%Z)); tauto).
  by rewrite Hrf.
Qed.

(** What the first image makes of the run of [loadImagesAndPreprocess]. *)
Lemma first_image_outcome (name : string) (others : list string) (s : Loader) :
  let filenames := name :: others in
  let r := loadImagesAndPreprocess float_zero float_one pixelValue files
             indeterminate filenames s in
  (Z.of_nat (length filenames) * 784 < 2 ^ 32)%Z →
  match files name with
  | Readable info =>
      (rejectedHeader info → r.1 = AssertionFailed "Invalid image")
      ∧ (¬ rejectedHeader info → read_failed info = true →
         r.1 = AssertionFailed "Error reading input image.")
      ∧ (acceptedHeader info → wellFormed info →
         ((0 < image_width info < image_height info)%Z → r.1 = Undefined)
         ∧ ((image_height info ≤ image_width info ∨ image_width info = 0)%Z →
            ¬ (image_width info = DEFAULT_HEIGHT
               ∧ image_height info = DEFAULT_WIDTH) →
            r.1 = AssertionFailed
                    "All images must have the same Height and Width"))
  | _ => r.1 = AssertionFailed "Error reading input image."
  end.
Proof.
  cbn zeta. intros HN.
  rewrite (loadImagesAndPreprocess_start (name :: others) s) by (cbn; lia || done).
  set (s0 := mkLoader _ _). cbn [length forRange].
  set (range := (float_zero, float_one)).
  set (dims := [Z.of_nat (S (length others)); 1; DEFAULT_HEIGHT; DEFAULT_WIDTH]%Z).
  assert (Hname : load (St := Loader) (name :: others) (Z.of_nat 0) s0
                  = (Ok name, s0)) by done.
  assert (Hnone : ∀ imageT,
            readPngImage float_zero pixelValue (files name) range []
            = (Ok None, imageT) →
            (loadImage float_zero pixelValue files (name :: others) range dims
               1 0 s0).1 = AssertionFailed "Error reading input image.").
  { intros imageT Hread. unfold loadImage.
    erewrite (bind_ok _ _ s0 _ _ Hname).
    unfold mbind at 1, Comp_bind, comp_bind, withLocal. by rewrite Hread. }
  destruct (files name) as [| | | |info] eqn:Hfile;
    try (by do 2 apply bind_assertion_outcome; apply (Hnone [])).
  split; [|split].
  - intros Hrej. do 2 apply bind_assertion_outcome.
    unfold loadImage. erewrite (bind_ok _ _ s0 _ _ Hname).
    unfold mbind at 1, Comp_bind, comp_bind, withLocal.
    by rewrite Hfile, (readPngImage_rejected info range [] Hrej).
  - intros Hrej Hrf. do 2 apply bind_assertion_outcome.
    apply (Hnone []). by apply readPngImage_read_failed.
  - intros Hacc Hwf. pose proof Hwf as (Hw & Hh & _). split.
    + intros Htall. do 2 apply bind_undefined_outcome.
      pose proof (readPngImage_tall info range [] Hacc Hwf)
        as Hread.
      unfold loadImage. erewrite (bind_ok _ _ s0 _ _ Hname).
      unfold mbind at 1, Comp_bind, comp_bind, withLocal. rewrite Hfile.
      destruct (readPngImage _ _ _ _ _) as [o imageT]. cbn [fst] in Hread.
      rewrite Hread by lia. done.
    + intros Hshape Hsize. do 2 apply bind_assertion_outcome.
      destruct (readPngImage_within info range [] Hacc Hwf)
        as (imageT & Hread & _); [lia|].
      unfold loadImage. erewrite (bind_ok _ _ s0 _ _ Hname).
      assert (Hlocal : withLocal (St := Loader) []
                         (readPngImage float_zero pixelValue (files name) range) s0
                       = (Ok (Some [image_width info; image_height info;
                                    Z.of_nat (storedChannels info)], imageT), s0)).
      { unfold withLocal. by rewrite Hfile, Hread. }
      erewrite (bind_ok _ _ s0 _ _ Hlocal).
      cbn [lookup list_lookup liftOpt]. rewrite !ret_bind.
      rewrite assert_bind. by rewrite bool_decide_eq_false_2.
Qed.

(** Property X24. The first image decides before any other is opened: a file
    that cannot be read as a PNG stops the program on "Error reading input
    image."; an accepted image that is not taller than wide and not 28 x 28
    stops it on "All images must have the same Height and Width"; but an
    accepted image that is taller than wide is stored past the end of its
    block inside [readPngImage], before its size is looked at. *)
Theorem first_image_is_stored_before_its_size_is_checked (name : string)
    (others : list string) (s : Loader) :
  let filenames := name :: others in
  let r := loadImagesAndPreprocess float_zero float_one pixelValue files
             indeterminate filenames s in
  (Z.of_nat (length filenames) * 784 < 2 ^ 32)%Z →
  match files name with
  | Readable info =>
      acceptedHeader info → wellFormed info →
      ((0 < image_width info < image_height info)%Z → r.1 = Undefined)
      ∧ ((image_height info ≤ image_width info ∨ image_width info = 0)%Z →
         ¬ (image_width info = DEFAULT_HEIGHT ∧ image_height info = DEFAULT_WIDTH) →
         r.1 = AssertionFailed "All images must have the same Height and Width")
  | _ => r.1 = AssertionFailed "Error reading input image."
  end.
Proof.
  cbn zeta. intros HN.
  pose proof (first_image_outcome name others s HN) as Hfirst.
  cbn zeta in Hfirst.
  destruct (files name); try done. by destruct Hfirst as (_ & _ & ?).
Qed.

(** *** The ways in which reading the images stops *)

Lemma stopsWithin_liftOpt {St A} M (o : option A) :
  stopsWithin M (liftOpt o : Comp St A).
Proof. by destruct o. Qed.

Lemma stopsWithin_load {St A} M (block : list A) i :
  stopsWithin M (load block i : Comp St A).
Proof. unfold load. case_bool_decide; [apply stopsWithin_liftOpt|done]. Qed.

Lemma stopsWithin_withLocal {St L A} M (init : L) (c : Comp L A) :
  stopsWithin M c → stopsWithin M (withLocal init c : Comp St (A * L)).
Proof.
  intros Hc s. specialize (Hc init). unfold withLocal.
  by destruct (c init) as [[a|msg| |code] l].
Qed.

Lemma storeChannel_stops M range dims row ptr r c k :
  stopsWithin M (storeChannel pixelValue range dims row ptr r c k).
Proof.
  unfold storeChannel.
  apply stopsWithin_bind; [apply stopsWithin_load|]. intros b.
  apply stopsWithin_bind; [apply stopsWithin_liftOpt|]. intros i.
  intros s. unfold store. by case_bool_decide.
Qed.

Lemma readPngImage_stops file range :
  stopsWithin (λ msg, msg = "Invalid image"%string)
    (readPngImage float_zero pixelValue file range).
Proof.
  destruct file as [| | | |info]; try done.
  unfold readPngImage. cbn zeta.
  apply stopsWithin_bind; [by apply stopsWithin_assert|]. intros _.
  apply stopsWithin_bind; [by apply stopsWithin_assert|]. intros _.
  apply stopsWithin_bind; [by apply stopsWithin_assert|]. intros _.
  destruct (read_failed info); [done|].
  apply stopsWithin_bind; [done|]. intros _.
  apply stopsWithin_bind; [|done].
  apply stopsWithin_forRange. intros row_n.
  apply stopsWithin_bind; [apply stopsWithin_load|]. intros row.
  apply stopsWithin_forRange. intros col_n.
  unfold storePixel. destruct (bool_decide (color_type info = PNG_COLOR_TYPE_GRAY)).
  - apply storeChannel_stops.
  - repeat (apply stopsWithin_bind; [apply storeChannel_stops|intros _]).
    apply storeChannel_stops.
Qed.

Lemma loadImage_stops filenames range dims C n :
  stopsWithin loaderMessage
    (loadImage float_zero pixelValue files filenames range dims C n).
Proof.
  unfold loadImage, loaderMessage.
  apply stopsWithin_bind; [apply stopsWithin_load|]. intros name.
  apply stopsWithin_bind.
  { apply stopsWithin_withLocal.
    eapply stopsWithin_weaken; [|apply readPngImage_stops]. cbn. auto. }
  intros [[dims'|] imageT]; [|apply stopsWithin_abort; auto].
  apply stopsWithin_bind; [apply stopsWithin_liftOpt|]. intros d0.
  apply stopsWithin_bind; [apply stopsWithin_liftOpt|]. intros d1.
  apply stopsWithin_bind; [apply stopsWithin_assert; auto|]. intros _.
  do 3 (apply stopsWithin_forRange; intros ?).
  unfold copyPixel.
  apply stopsWithin_bind; [apply stopsWithin_liftOpt|]. intros src.
  apply stopsWithin_bind; [apply stopsWithin_load|]. intros v.
  apply stopsWithin_bind; [apply stopsWithin_liftOpt|]. intros dst.
  intros s. unfold storeResult. by case_bool_decide.
Qed.

#[local] Instance keepsPrinted_refl : Reflexive (keepsPrinted (float := float)).
Proof. by intros ?. Qed.

#[local] Instance keepsPrinted_trans :
  Transitive (keepsPrinted (float := float)).
Proof. unfold keepsPrinted. intros ? ? ? H1 H2. congruence. Qed.

Lemma keepsPrinted_silent {A} (c : Comp (Loader (float := float)) A) :
  (∀ s, (c s).2 = s) → framed keepsPrinted c.
Proof. apply framed_silent; apply _. Qed.

Lemma keepsPrinted_bind {A B} (c : Comp (Loader (float := float)) A) (f : A → Comp (Loader (float := float)) B) :
  framed keepsPrinted c → (∀ a, framed keepsPrinted (f a)) →
  framed keepsPrinted (c ≫= f).
Proof. apply framed_bind; apply _. Qed.

Lemma keepsPrinted_forRange n start (body : nat → Comp (Loader (float := float)) unit) :
  (∀ i, framed keepsPrinted (body i)) →
  framed keepsPrinted (forRange start n body).
Proof. apply framed_forRange; apply _. Qed.

Lemma loadImage_keeps_printed filenames range dims C n :
  framed keepsPrinted
    (loadImage float_zero pixelValue files filenames range dims C n).
Proof.
  unfold loadImage.
  apply keepsPrinted_bind.
  { apply keepsPrinted_silent. intros s. unfold load.
    case_bool_decide; [|done]. by destruct (_ !! _). }
  intros name. apply keepsPrinted_bind.
  { apply keepsPrinted_silent. intros s. unfold withLocal.
    by destruct (readPngImage _ _ _ _ _) as [[] ?]. }
  intros [[dims'|] imageT]; [|by apply keepsPrinted_silent].
  apply keepsPrinted_bind.
  { apply keepsPrinted_silent. intros s. by destruct (_ !! _). }
  intros d0. apply keepsPrinted_bind.
  { apply keepsPrinted_silent. intros s. by destruct (_ !! _). }
  intros d1. apply keepsPrinted_bind.
  { apply keepsPrinted_silent. intros s. by destruct (bool_decide _). }
  intros _.
  do 3 (apply keepsPrinted_forRange; intros ?).
  unfold copyPixel.
  apply keepsPrinted_bind.
  { apply keepsPrinted_silent. intros s. by destruct (getXYZ _ _ _ _). }
  intros src. apply keepsPrinted_bind.
  { apply keepsPrinted_silent. intros s. unfold load.
    case_bool_decide; [|done]. by destruct (_ !! _). }
  intros v. apply keepsPrinted_bind.
  { apply keepsPrinted_silent. intros s. by destruct (getXYZW _ _ _ _ _). }
  intros dst s. unfold storeResult. by case_bool_decide.
Qed.

(** *** The consumer on the images as they are read *)

Variable encodeFloat : float → list byte.

#[local] Abbreviation theImages :=
  (decodedImages float_zero float_one pixelValue files indeterminate encodeFloat).

Lemma loadImagesAndPreprocess_unfold (filenames : list string) :
  let n := (Z.of_nat (length filenames) `mod` 2 ^ 32)%Z in
  let size :=
    wrap ((n * 1 * DEFAULT_HEIGHT * DEFAULT_WIDTH) `mod` 2 ^ 32 * sizeof_float) in
  let dims := [n; 1%Z; DEFAULT_HEIGHT; DEFAULT_WIDTH] in
  let loop :=
    forRange 0 (Z.to_nat n)
      (loadImage float_zero pixelValue files filenames (float_zero, float_one)
         dims 1)
      (mkLoader (indeterminate <$> seq 0 (Z.to_nat (size / sizeof_float))) []) in
  Pixels.loadImagesAndPreprocess float_zero float_one pixelValue files
    indeterminate filenames (mkLoader [] [])
  = if bool_decide (0 < length filenames)
    then match loop.1 with
         | Ok _ =>
             (Ok dims,
              mkLoader (resultT loop.2) (printed loop.2 ++ [OutLoadedImages size]))
         | AssertionFailed msg => (AssertionFailed msg, loop.2)
         | Undefined => (Undefined, loop.2)
         | Exited code => (Exited code, loop.2)
         end
    else (AssertionFailed "There must be at least one filename in filenames",
          mkLoader [] []).
Proof.
  cbn zeta. unfold Pixels.loadImagesAndPreprocess. rewrite assert_bind.
  destruct (bool_decide (0 < length filenames)); [|done].
  unfold mbind, Comp_bind, comp_bind, modify, mret, Comp_ret, comp_ret.
  cbn [printed].
  by destruct (forRange _ _ _ _) as [[[]|msg| |code] s1].
Qed.

Lemma loadImagesAndPreprocess_coarse (images : list string → ImageResult)
    (filenames : list string) (s : Machine) :
  let n := (Z.of_nat (length filenames) `mod` 2 ^ 32)%Z in
  let size :=
    wrap ((n * 1 * DEFAULT_HEIGHT * DEFAULT_WIDTH) `mod` 2 ^ 32 * sizeof_float) in
  Standalone.loadImagesAndPreprocess images filenames s
  = if bool_decide (0 < length filenames)
    then match images filenames with
         | Decoded pixels =>
             (Ok (resize (Z.to_nat size) x00 pixels,
                  [n; 1%Z; DEFAULT_HEIGHT; DEFAULT_WIDTH]),
              logged s [OutLoadedImages size])
         | Unreadable => (AssertionFailed "Error reading input image.", s)
         | WrongSize =>
             (AssertionFailed "All images must have the same Height and Width", s)
         | InvalidImage => (AssertionFailed "Invalid image", s)
         | OutOfBounds => (Undefined, s)
         end
    else (AssertionFailed "There must be at least one filename in filenames", s).
Proof.
  cbn zeta. unfold Standalone.loadImagesAndPreprocess.
  destruct (bool_decide (0 < length filenames)); [|done].
  by destruct (images filenames).
Qed.

(** The consumer's loader on the images as they are read does what
    [loadImagesAndPreprocess] does store by store. *)
Lemma loadImagesAndPreprocess_agree (filenames : list string) (s : Machine) :
  let fine := Pixels.loadImagesAndPreprocess float_zero float_one pixelValue
                files indeterminate filenames (mkLoader [] []) in
  let coarse := Standalone.loadImagesAndPreprocess theImages filenames s in
  let size :=
    wrap ((Z.of_nat (length filenames) `mod` 2 ^ 32 * 1 * DEFAULT_HEIGHT
           * DEFAULT_WIDTH) `mod` 2 ^ 32 * sizeof_float) in
  match fine.1 with
  | Ok dims =>
      printed fine.2 = [OutLoadedImages size]
      ∧ coarse
        = (Ok (resize (Z.to_nat size) x00 (bytesOf encodeFloat (resultT fine.2)),
               dims),
           logged s (printed fine.2))
  | AssertionFailed msg => coarse = (AssertionFailed msg, s)
  | Undefined => coarse = (Undefined, s)
  | Exited _ => False
  end.
Proof.
  cbn zeta. rewrite loadImagesAndPreprocess_coarse. cbn zeta.
  unfold decodedImages.
  rewrite (loadImagesAndPreprocess_unfold filenames). cbn zeta.
  destruct (bool_decide (0 < length filenames)); [|done].
  set (size := wrap _). set (dims := [_; _; _; _]).
  set (s0 := mkLoader _ []).
  pose proof (stopsWithin_forRange loaderMessage
                (Z.to_nat (Z.of_nat (length filenames) `mod` 2 ^ 32)) 0
                (loadImage float_zero pixelValue files filenames
                   (float_zero, float_one) dims 1)
                (loadImage_stops _ _ _ _) s0) as Hstop.
  pose proof (keepsPrinted_forRange
                (Z.to_nat (Z.of_nat (length filenames) `mod` 2 ^ 32)) 0
                (loadImage float_zero pixelValue files filenames
                   (float_zero, float_one) dims 1)
                (loadImage_keeps_printed _ _ _ _) s0) as Hkeep.
  destruct (forRange _ _ _ s0) as [[[]|msg| |code] s1]; cbn [fst snd] in *.
  - unfold keepsPrinted in Hkeep. cbn in Hkeep. cbn. rewrite Hkeep. done.
  - by destruct Hstop as [-> | [-> | ->]].
  - done.
  - done.
Qed.

Lemma decodedImages_outcome (filenames : list string) :
  theImages filenames
  = match (loadImagesAndPreprocess float_zero float_one pixelValue files
             indeterminate filenames (mkLoader [] [])) with
    | (Ok _, s) => Decoded (bytesOf encodeFloat (resultT s))
    | (AssertionFailed msg, _) =>
        if bool_decide (msg = "Error reading input image."%string)
        then Unreadable
        else if bool_decide
                  (msg = "All images must have the same Height and Width"%string)
        then WrongSize
        else InvalidImage
    | _ => OutOfBounds
    end.
Proof. unfold decodedImages. by destruct (loadImagesAndPreprocess _ _ _ _ _ _ _) as [[] ?]. Qed.

Lemma decodedImages_failure (filenames : list string) (msg : string) :
  filenames ≠ [] →
  (loadImagesAndPreprocess float_zero float_one pixelValue files
     indeterminate filenames (mkLoader [] [])).1 = AssertionFailed msg →
  msg = "Error reading input image."%string
  ∨ msg = "All images must have the same Height and Width"%string
  ∨ msg = "Invalid image"%string →
  imageFailure theImages filenames = Some msg.
Proof.
  intros Hne Hrun Hmsg. unfold imageFailure, decodedImages.
  destruct filenames; [done|].
  destruct (loadImagesAndPreprocess _ _ _ _ _ _ _) as [o s1].
  cbn [fst] in Hrun. subst o.
  by destruct Hmsg as [-> | [-> | ->]].
Qed.

Lemma decodedImages_undefined (filenames : list string) :
  (loadImagesAndPreprocess float_zero float_one pixelValue files
     indeterminate filenames (mkLoader [] [])).1 = Undefined →
  theImages filenames = OutOfBounds.
Proof.
  intros Hrun. unfold decodedImages.
  destruct (loadImagesAndPreprocess _ _ _ _ _ _ _) as [o s1].
  cbn [fst] in Hrun. by subst o.
Qed.

Variable decodeFloat : list byte → float.
Variable float_gt : float → float → bool.
Variable lenet_mnist_config : BundleConfig.
Variable lenet_mnist :
  list byte → list byte → list byte → list byte * list byte * list byte.
Variable weightFiles : string → option (list byte).

#[local] Abbreviation config := lenet_mnist_config.
#[local] Abbreviation theProgram :=
  (Pixels.main float_zero float_one pixelValue files indeterminate encodeFloat
     decodeFloat float_gt config lenet_mnist weightFiles).
#[local] Abbreviation weightsFile := "lenet_mnist.weights"%string.

(** Property X18. [main] with the images read by [readPngImage] and the
    loops of [loadImagesAndPreprocess], the weights file being in place:
    without an image name it stops on "There must be at least one filename
    in filenames"; otherwise the first named file decides. A file that does
    not open as a PNG, or whose data libpng fails to read, stops it on
    "Error reading input image."; a header that is not 8 bits a channel,
    not gray, RGB or RGB with alpha, or interlaced, stops it on "Invalid
    image"; an accepted image that is taller than wide makes the run
    undefined, by a store past the end of its block; an accepted image that
    is not taller than wide and not 28 x 28 stops it on "All images must
    have the same Height and Width". In each case the constant weights are
    loaded and the mutable region is allocated by then, nothing is copied
    and the entry point is not called. *)
Theorem main_stops_on_bad_images (argv : list string) (s : Machine)
    (contents : list byte) :
  weightFiles weightsFile = Some contents →
  Z.of_nat (length contents) = constantWeightVarsMemSize config →
  let filenames := inputImageFilenames s ++ drop 1 argv in
  (Z.of_nat (length filenames) * 784 < 2 ^ 32)%Z →
  let r := theProgram argv s in
  let stopped :=
    mkMachine filenames
      (output s ++ [ EvCalloc (constantWeightVarsMemSize config);
                     OutAllocatedWeights (constantWeightVarsMemSize config);
                     readReport weightsFile contents;
                     EvCalloc (mutableWeightVarsMemSize config);
                     OutAllocatedMutable (mutableWeightVarsMemSize config) ]) in
  match filenames with
  | [] =>
      r = (AssertionFailed "There must be at least one filename in filenames",
           stopped)
  | name :: _ =>
      match files name with
      | Readable info =>
          (rejectedHeader info → r = (AssertionFailed "Invalid image", stopped))
          ∧ (¬ rejectedHeader info → read_failed info = true →
             r = (AssertionFailed "Error reading input image.", stopped))
          ∧ (acceptedHeader info → wellFormed info →
             ((0 < image_width info < image_height info)%Z →
              r = (Undefined, stopped))
             ∧ ((image_height info ≤ image_width info
                 ∨ image_width info = 0)%Z →
                ¬ (image_width info = DEFAULT_HEIGHT
                   ∧ image_height info = DEFAULT_WIDTH) →
                r = (AssertionFailed
                       "All images must have the same Height and Width",
                     stopped)))
      | _ => r = (AssertionFailed "Error reading input image.", stopped)
      end
  end.
Proof.
  intros Hf Hn filenames HN. cbn zeta. unfold Pixels.main.
  pose proof (main_stops_on_image_failure decodeFloat float_zero float_gt config
                lenet_mnist weightFiles theImages argv s contents) as Hstop.
  pose proof (main_undefined_on_image_overflow decodeFloat float_zero float_gt
                config lenet_mnist weightFiles theImages argv s contents Hf Hn)
    as Hundef.
  fold filenames in Hstop, Hundef |- *.
  destruct filenames as [|name others] eqn:Hnames.
  { by apply Hstop. }
  pose proof (first_image_outcome name others (mkLoader [] []) HN) as Hfirst.
  cbn zeta in Hfirst.
  assert (Hfail : ∀ msg,
            (loadImagesAndPreprocess float_zero float_one pixelValue files
               indeterminate (name :: others) (mkLoader [] [])).1
            = AssertionFailed msg →
            msg = "Error reading input image."%string
            ∨ msg = "All images must have the same Height and Width"%string
            ∨ msg = "Invalid image"%string →
            Standalone.main decodeFloat float_zero float_gt config lenet_mnist weightFiles
              theImages argv s
            = (AssertionFailed msg,
               mkMachine (name :: others)
                 (output s ++ [ EvCalloc (constantWeightVarsMemSize config);
                       OutAllocatedWeights (constantWeightVarsMemSize config);
                       readReport weightsFile contents;
                       EvCalloc (mutableWeightVarsMemSize config);
                       OutAllocatedMutable (mutableWeightVarsMemSize config) ]))).
  { intros msg Hrun Hmsg. apply Hstop; [done..|].
    by apply decodedImages_failure. }
  destruct (files name) as [| | | |info]; try (apply Hfail; [done|auto]).
  destruct Hfirst as (Hrej & Hrf & Hacc). split_and!.
  - intros H. apply Hfail; auto.
  - intros H1 H2. apply Hfail; auto.
  - intros H1 H2. destruct (Hacc H1 H2) as [Htall Hsize]. split.
    + intros H. apply Hundef; [done|]. apply decodedImages_undefined; auto.
    + intros H3 H4. apply Hfail; auto.
Qed.

End Facts.

(** ** The theorems on the reference images *)

Section OnReference.
Import Reference.

Lemma refPng_mnistImage : mnistImage refPng.
Proof.
  split; [by split_and!; auto|]. split; [|done].
  unfold wellFormed. split_and!; try done.
  apply Forall_forall. intros row Hin.
  apply elem_of_replicate in Hin as [-> _]. reflexivity.
Qed.

Lemma refTallPng_accepted : acceptedHeader refTallPng ∧ wellFormed refTallPng.
Proof.
  split; [by split_and!; auto|].
  unfold wellFormed. split_and!; try done. by repeat constructor.
Qed.

(** Property X20 on the reference image of one column and two rows. *)
Lemma tall_image_is_stored_past_the_block_witness :
  acceptedHeader refTallPng ∧ wellFormed refTallPng
  ∧ (0 < image_width refTallPng < image_height refTallPng)%Z
  ∧ (readPngImage 0%nat refPixelValue (Readable refTallPng) (0, 255)%nat []).1
    = Undefined.
Proof.
  destruct refTallPng_accepted as [Hacc Hwf].
  assert (Htall : (0 < image_width refTallPng < image_height refTallPng)%Z)
    by (cbn; lia).
  split; [exact Hacc|]. split; [exact Hwf|]. split; [exact Htall|].
  exact (proj2 (tall_image_is_stored_past_the_block 0%nat refPixelValue
                  refTallPng (0, 255)%nat [] Hacc Hwf) Htall).
Defined.

(** Property X21 on the gray reference image: the last pixel of row 3. *)
Lemma square_image_is_stored_row_by_row_witness :
  mnistImage refPng
  ∧ ∃ imageT,
      (readPngImage 0%nat refPixelValue (Readable refPng) (0, 255)%nat []).2
      = imageT
      ∧ imageT !! ((3 * 28 + 27) * 1 + 0)%nat = Some 127%nat.
Proof.
  pose proof refPng_mnistImage as Hm. split; [exact Hm|].
  destruct Hm as (Hacc & Hwf & Hw & Hh).
  destruct (square_image_is_stored_row_by_row 0%nat refPixelValue refPng
              (0, 255)%nat [] Hacc Hwf eq_refl) as (imageT & Hrun & _ & Hcells).
  exists imageT. split; [by rewrite Hrun|].
  refine (eq_trans (Hcells 3%nat 27%nat 0%nat _ _ _) _);
    [cbn; lia..|reflexivity].
Defined.

(** Property X22 on the gray reference image. *)
Lemma readPngImage_success_means_accepted_witness :
  let r := readPngImage 0%nat refPixelValue (Readable refPng) (0, 255)%nat [] in
  r = (Ok (Some [28; 28; 1]%Z), r.2) ∧ acceptedHeader refPng.
Proof.
  cbn zeta.
  assert (Hr : readPngImage 0%nat refPixelValue (Readable refPng) (0, 255)%nat []
               = (Ok (Some [28; 28; 1]%Z),
                  (readPngImage 0%nat refPixelValue (Readable refPng)
                     (0, 255)%nat []).2)) by (vm_compute; reflexivity).
  split; [exact Hr|].
  exact (proj1 (readPngImage_success_means_accepted 0%nat refPixelValue
                  (Readable refPng) (0, 255)%nat [] _ _ Hr)).
Defined.

(** Property X23 on a gray and an RGB reference image. *)
Lemma every_cell_of_the_result_is_written_witness :
  let r := refLoad ["seven.png"; "colour.png"] (mkLoader [] []) in
  r.1 = Ok [2; 1; 28; 28]%Z
  ∧ length (resultT r.2) = 1568%nat
  ∧ resultT r.2 !! (0 * 784 + 3 * 28 + 27)%nat = Some 127%nat
  ∧ resultT r.2 !! (1 * 784 + 3 * 28 + 27)%nat = Some 10%nat.
Proof.
  cbn zeta.
  destruct (every_cell_of_the_result_is_written 0%nat 255%nat refPixelValue
              refPngFiles (λ _, 99%nat) ["seven.png"; "colour.png"]
              (mkLoader [] [])) as (res & Hrun & Hlen & Hcells).
  { cbn. lia. } { reflexivity. }
  { intros name Hin.
    apply elem_of_cons in Hin as [->|Hin];
      [exists refPng; split; [reflexivity|exact refPng_mnistImage]|].
    apply elem_of_cons in Hin as [->|Hin]; [|inversion Hin].
    exists refPngRGB. split; [reflexivity|].
    split; [by split_and!; auto|]. split; [|done].
    unfold wellFormed. split_and!; try done.
    apply Forall_forall. intros row Hrow.
    apply elem_of_replicate in Hrow as [-> _]. reflexivity. }
  unfold refLoad. rewrite Hrun. cbn [fst snd resultT].
  split; [reflexivity|]. split; [exact Hlen|]. split.
  - rewrite (Hcells 0%nat "seven.png" refPng 3%nat 27%nat);
      [reflexivity|reflexivity|reflexivity|lia|lia].
  - rewrite (Hcells 1%nat "colour.png" refPngRGB 3%nat 27%nat);
      [reflexivity|reflexivity|reflexivity|lia|lia].
Defined.

(** Property X24 on the reference files: a tall image first, a text file
    first. *)
Lemma first_image_is_stored_before_its_size_is_checked_witness :
  (refLoad ["tall.png"; "seven.png"] (mkLoader [] [])).1 = Undefined
  ∧ (refLoad ["notes.txt"; "seven.png"] (mkLoader [] [])).1
    = AssertionFailed "Error reading input image.".
Proof.
  destruct refTallPng_accepted as [Hacc Hwf].
  split.
  - refine (proj1 (first_image_is_stored_before_its_size_is_checked 0%nat
                     255%nat refPixelValue refPngFiles (λ _, 99%nat)
                     "tall.png" ["seven.png"] (mkLoader [] []) _ Hacc Hwf) _);
      [reflexivity|cbn; lia].
  - exact (first_image_is_stored_before_its_size_is_checked 0%nat
             255%nat refPixelValue refPngFiles (λ _, 99%nat)
             "notes.txt" ["seven.png"] (mkLoader [] []) eq_refl).
Defined.

Lemma refDeepPng_rejected : rejectedHeader refDeepPng.
Proof. by left. Qed.

Lemma refWidePng_accepted : acceptedHeader refWidePng ∧ wellFormed refWidePng.
Proof.
  split; [by split_and!; auto|].
  unfold wellFormed. split_and!; try done. by repeat constructor.
Qed.

(** Property X18 on the reference bundle: a tall image, an image of 16
    bits a channel, a text file, a wide image, and no image at all. *)
Lemma main_stops_on_bad_images_witness :
  let stopped names :=
    mkMachine names
      [ EvCalloc 4; OutAllocatedWeights 4;
        OutLoadedWeights 4 "lenet_mnist.weights";
        EvCalloc 6312; OutAllocatedMutable 6312 ] in
  refProgram ["lenet_mnist_standalone"; "tall.png"] initialMachine
  = (Undefined, stopped ["tall.png"])
  ∧ refProgram ["lenet_mnist_standalone"; "deep.png"; "seven.png"] initialMachine
    = (AssertionFailed "Invalid image", stopped ["deep.png"; "seven.png"])
  ∧ refProgram ["lenet_mnist_standalone"; "notes.txt"] initialMachine
    = (AssertionFailed "Error reading input image.", stopped ["notes.txt"])
  ∧ refProgram ["lenet_mnist_standalone"; "wide.png"] initialMachine
    = (AssertionFailed "All images must have the same Height and Width",
       stopped ["wide.png"])
  ∧ refProgram ["lenet_mnist_standalone"] initialMachine
    = (AssertionFailed "There must be at least one filename in filenames",
       stopped []).
Proof.
  destruct refTallPng_accepted as [Htall Htallwf].
  destruct refWidePng_accepted as [Hwide Hwidewf].
  pose (stops := main_stops_on_bad_images 0%nat 255%nat refPixelValue
                   refPngFiles (λ _, 99%nat) refEncode refDecode refGt
                   refConfig refEntry refFiles).
  cbn zeta. split_and!.
  - refine (proj1 (proj2 (proj2
              (stops ["lenet_mnist_standalone"; "tall.png"] initialMachine
                 [x0a; x0b; x0c; x0d] eq_refl eq_refl eq_refl))
              Htall Htallwf) _); cbn; lia.
  - exact (proj1 (stops ["lenet_mnist_standalone"; "deep.png"; "seven.png"]
                    initialMachine [x0a; x0b; x0c; x0d] eq_refl eq_refl eq_refl)
             refDeepPng_rejected).
  - exact (stops ["lenet_mnist_standalone"; "notes.txt"] initialMachine
             [x0a; x0b; x0c; x0d] eq_refl eq_refl eq_refl).
  - refine (proj2 (proj2 (proj2
              (stops ["lenet_mnist_standalone"; "wide.png"] initialMachine
                 [x0a; x0b; x0c; x0d] eq_refl eq_refl eq_refl))
              Hwide Hwidewf) _ _); [cbn; lia|cbn; unfold DEFAULT_HEIGHT; lia].
  - exact (stops ["lenet_mnist_standalone"] initialMachine
             [x0a; x0b; x0c; x0d] eq_refl eq_refl eq_refl).
Defined.

(** Runs on the reference images. *)

Example wide_image_is_rejected_by_its_size :
  (Pixels.loadImagesAndPreprocess 0%nat 255%nat refPixelValue
     (λ _, Readable (mkPngInfo 2 1 PNG_COLOR_TYPE_GRAY 8 1 false [[x01; x02]]))
     (λ _, 99%nat) ["wide.png"] (mkLoader [] [])).1
  = AssertionFailed "All images must have the same Height and Width".
Proof. vm_compute. reflexivity. Qed.

End OnReference.

End PixelFacts.
